(** * StochasticSEATIRD: a shallow embedding of the stochastic SEATIRD
      epidemic simulator (src/models/disease/StochasticSEATIRD.cpp)

    Conventions of the embedding.
    - The variable arrays [variables_] are blitz arrays of [float] holding
      head counts; every write in the simulator adds or subtracts an [int],
      so a cell is modelled as an integer ([Z]).  Parameters and times are
      [double] in the source and are modelled as exact rationals ([Q]); the
      cast [(int)x] is truncation toward zero ([Qtrunc]).  Rounding error of
      machine floats is outside the model.
    - A dense array is a total function on its indices.  Reductions written
      with [blitz::Range::all()] run over the model's extent
      ([numAgeGroups_] x [numRiskGroups_] x [numVaccinatedGroups_]).
    - Mutable members of the simulator object are the fields of [Sim];
      every method is a function from [Sim] to [Sim] (plus its result).
    - Loops whose trip count depends on random draws take a [fuel] bound and
      return [None] when it is exhausted. *)

From Stdlib Require Import ZArith QArith Qround List Bool Lia String Lqa.
Import ListNotations.
Local Open Scope Z_scope.

(** ** Numeric helpers *)

(** The C++ conversion [(int)x] of a floating point value. *)
Definition Qtrunc (q : Q) : Z := Z.quot (Qnum q) (Zpos (Qden q)).

Definition Qltb (x y : Q) : bool := negb (Qle_bool y x).

Definition sumZ {X : Type} (l : list X) (f : X -> Z) : Z :=
  fold_right (fun x acc => f x + acc) 0 l.

Definition sumQ {X : Type} (l : list X) (f : X -> Q) : Q :=
  fold_right (fun x acc => (f x + acc)%Q) 0%Q l.

Definition list_eqb (l1 l2 : list Z) : bool :=
  if list_eq_dec Z.eq_dec l1 l2 then true else false.

(** ** Constants of the model (StochasticSEATIRD.cpp, lines 12-14) *)

Definition numAgeGroups_ : Z := 5.
Definition numRiskGroups_ : Z := 2.
Definition numVaccinatedGroups_ : Z := 2.

Definition ageGroups : list Z := [0; 1; 2; 3; 4].
Definition riskGroups : list Z := [0; 1].
Definition vaccinatedGroups : list Z := [0; 1].

(** Modelled from the spec: the wildcard [ALL] of a stratification
    selector; the constant is declared in a header that is not part of the
    sources at hand. *)
Definition STRATIFICATIONS_ALL : Z := -1.

(** ** Variables and arrays *)

Inductive VariableName : Type :=
| susceptible | exposed | asymptomatic | treatable | infectious
| recovered | deceased | population
| treated | treated_daily | treated_ineffective_daily | vaccinated_daily.

Definition VariableName_eqb (x y : VariableName) : bool :=
  match x, y with
  | susceptible, susceptible | exposed, exposed
  | asymptomatic, asymptomatic | treatable, treatable
  | infectious, infectious | recovered, recovered
  | deceased, deceased | population, population
  | treated, treated | treated_daily, treated_daily
  | treated_ineffective_daily, treated_ineffective_daily
  | vaccinated_daily, vaccinated_daily => true
  | _, _ => false
  end.

(** [blitz::Array<float, 2+NUM_STRATIFICATION_DIMENSIONS>], indexed by
    (time, node index, age group, risk group, vaccinated group). *)
Definition Array5 : Type := Z -> Z -> Z -> Z -> Z -> Z.

Definition sameCell (t n a r v t' n' a' r' v' : Z) : bool :=
  (t' =? t) && (n' =? n) && (a' =? a) && (r' =? r) && (v' =? v).

Definition array_add (A : Array5) (t n a r v d : Z) : Array5 :=
  fun t' n' a' r' v' =>
    if sameCell t n a r v t' n' a' r' v' then A t' n' a' r' v' + d
    else A t' n' a' r' v'.

(** [A(t, Range::all(), ..., Range::all()) = 0.] *)
Definition array_zero_time (A : Array5) (t : Z) : Array5 :=
  fun t' n a r v => if t' =? t then 0 else A t' n a r v.

(** [std::map<std::string, blitz::Array>] restricted to the names the
    simulator creates. *)
Definition Variables : Type := VariableName -> Array5.

Definition var_update (V : Variables) (x : VariableName) (f : Array5 -> Array5)
  : Variables :=
  fun y => if VariableName_eqb x y then f (V y) else V y.

(** The seven disease compartments. *)
Definition compartmentNames : list VariableName :=
  [susceptible; exposed; asymptomatic; treatable; infectious; recovered;
   deceased].

(** ** Events and schedules

    Modelled from the spec: the classes [StochasticSEATIRDEvent] and
    [StochasticSEATIRDSchedule] are declared in headers that are not part of
    the sources at hand; their members are the ones the simulator uses. *)

Inductive StochasticSEATIRDEventType : Type :=
| EtoA | AtoT | AtoR | AtoD | TtoI | TtoR | TtoD | ItoR | ItoD | CONTACT.

Record StochasticSEATIRDEvent : Type := mkEvent {
  initializationTime : Q;
  time : Q;
  type : StochasticSEATIRDEventType;
  fromStratificationValues : list Z;
  toStratificationValues : list Z
}.

Module SchedState.
Inductive t : Type := E | A | T | I | R | D.
Definition eqb (x y : t) : bool :=
  match x, y with
  | E, E | A, A | T, T | I, I | R, R | D, D => true
  | _, _ => false
  end.
End SchedState.

Record StochasticSEATIRDSchedule : Type := mkSchedule {
  state_ : SchedState.t;
  stratificationValues_ : list Z;
  eventQueue_ : list StochasticSEATIRDEvent;
  canceled_ : bool;
  infectedTMin_ : Q;
  infectedTMax_ : Q
}.

Module Schedule.

Definition empty (s : StochasticSEATIRDSchedule) : bool :=
  match eventQueue_ s with [] => true | _ => false end.

Definition canceled (s : StochasticSEATIRDSchedule) : bool := canceled_ s.

Definition getState (s : StochasticSEATIRDSchedule) : SchedState.t := state_ s.

Definition getStratificationValues (s : StochasticSEATIRDSchedule) : list Z :=
  stratificationValues_ s.

Definition getInfectedTMin (s : StochasticSEATIRDSchedule) : Q := infectedTMin_ s.
Definition getInfectedTMax (s : StochasticSEATIRDSchedule) : Q := infectedTMax_ s.

(** Earliest pending event; the first one wins a tie. *)
Fixpoint earliest (e : StochasticSEATIRDEvent) (l : list StochasticSEATIRDEvent)
  : StochasticSEATIRDEvent :=
  match l with
  | [] => e
  | e' :: l' => if Qltb (time e') (time e) then earliest e' l' else earliest e l'
  end.

Definition noEvent : StochasticSEATIRDEvent := mkEvent 0 0 EtoA [] [].

Definition getTopEvent (s : StochasticSEATIRDSchedule) : StochasticSEATIRDEvent :=
  match eventQueue_ s with
  | [] => noEvent
  | e :: l => earliest e l
  end.

Fixpoint removeEarliest (e : StochasticSEATIRDEvent)
         (l : list StochasticSEATIRDEvent) : list StochasticSEATIRDEvent :=
  match l with
  | [] => []
  | e' :: l' =>
      if Qltb (time e') (time e) then e :: removeEarliest e' l'
      else e' :: removeEarliest e l'
  end.

(** State reached by a transition event (a contact leaves it alone). *)
Definition stateAfter (ty : StochasticSEATIRDEventType) (s : SchedState.t)
  : SchedState.t :=
  match ty with
  | EtoA => SchedState.A
  | AtoT => SchedState.T
  | TtoI => SchedState.I
  | AtoR | TtoR | ItoR => SchedState.R
  | AtoD | TtoD | ItoD => SchedState.D
  | CONTACT => s
  end.

Definition popTopEvent (s : StochasticSEATIRDSchedule) : StochasticSEATIRDSchedule :=
  match eventQueue_ s with
  | [] => s
  | e :: l =>
      mkSchedule (stateAfter (type (earliest e l)) (state_ s))
                 (stratificationValues_ s) (removeEarliest e l)
                 (canceled_ s) (infectedTMin_ s) (infectedTMax_ s)
  end.

Definition insertEvent (e : StochasticSEATIRDEvent) (s : StochasticSEATIRDSchedule)
  : StochasticSEATIRDSchedule :=
  mkSchedule (state_ s) (stratificationValues_ s) (eventQueue_ s ++ [e])
             (canceled_ s) (infectedTMin_ s) (infectedTMax_ s).

Definition cancel (s : StochasticSEATIRDSchedule) : StochasticSEATIRDSchedule :=
  mkSchedule (state_ s) (stratificationValues_ s) (eventQueue_ s) true
             (infectedTMin_ s) (infectedTMax_ s).

Definition restratify (sv : list Z) (e : StochasticSEATIRDEvent)
  : StochasticSEATIRDEvent :=
  mkEvent (initializationTime e) (time e) (type e) sv (toStratificationValues e).

Definition changeStratificationValues (sv : list Z) (s : StochasticSEATIRDSchedule)
  : StochasticSEATIRDSchedule :=
  mkSchedule (state_ s) sv (map (restratify sv) (eventQueue_ s))
             (canceled_ s) (infectedTMin_ s) (infectedTMax_ s).

End Schedule.

(** ** Parameters, priority groups, interventions, stockpiles *)

(** Modelled from the spec: a non-pharmaceutical intervention; the class
    [Npi] is not part of the sources at hand. *)
Record Npi : Type := mkNpi {
  npiNodeIds : list Z;
  npiStartDay : Z;
  npiEndDay : Z;
  npiEffectiveness : Q;
  npiAgePairMask : Z -> Z -> bool
}.

(** Modelled from the spec: a priority group is a tuple of per-dimension
    selectors; the class [PriorityGroup] is not part of the sources at hand. *)
Record PriorityGroup : Type := mkPriorityGroup {
  priorityGroupName : string;
  stratificationVectorValues : list (list Z)
}.

Record PriorityGroupSelections : Type := mkPriorityGroupSelections {
  getPriorityGroups : list PriorityGroup
}.

(** The process-wide [g_parameters] object (Parameters.h). *)
Record Parameters : Type := mkParameters {
  getR0 : Q;
  getBetaScale : Q;
  getTau : Q;
  getKappa : Q;
  getChi : Q;
  getGamma : Q;
  getNu : Q;
  getAntiviralEffectiveness : Q;
  getAntiviralAdherence : Q;
  getAntiviralCapacity : Q;
  getVaccineEffectiveness : Q;
  getVaccineAdherence : Q;
  getVaccineCapacity : Q;
  getVaccineLatencyPeriod : Z;
  getNpis : list Npi;
  (* a [boost::shared_ptr], NULL is [None] *)
  getAntiviralPriorityGroupSelections : option PriorityGroupSelections;
  getVaccinePriorityGroupSelections : option PriorityGroupSelections
}.

Inductive StockpileType : Type := STOCKPILE_ANTIVIRALS | STOCKPILE_VACCINES.

Definition StockpileType_eqb (x y : StockpileType) : bool :=
  match x, y with
  | STOCKPILE_ANTIVIRALS, STOCKPILE_ANTIVIRALS
  | STOCKPILE_VACCINES, STOCKPILE_VACCINES => true
  | _, _ => false
  end.

(** Modelled from the spec: a stockpile holds a count per time step and
    kind ([getNum] / [setNum]); the class [Stockpile] is not part of the
    sources at hand. *)
Definition Stockpile : Type := Z -> StockpileType -> Z.

Module StockpileOps.
Definition getNum (s : Stockpile) (t : Z) (ty : StockpileType) : Z := s t ty.
Definition setNum (s : Stockpile) (t num : Z) (ty : StockpileType) : Stockpile :=
  fun t' ty' => if (t' =? t) && StockpileType_eqb ty ty' then num else s t' ty'.
End StockpileOps.

(** The stockpile network hands out shared pointers: a node id maps to the
    address of a stockpile object (or NULL), the objects live in a store. *)
Record StockpileNetwork : Type := mkStockpileNetwork {
  getNodeStockpile : Z -> option Z;
  stockpileStore : Z -> Stockpile
}.

Definition setStockpile (net : StockpileNetwork) (ptr : Z) (s : Stockpile)
  : StockpileNetwork :=
  mkStockpileNetwork (getNodeStockpile net)
    (fun p => if p =? ptr then s else stockpileStore net p).

(** ** Logging ([put_flog]) *)

Inductive LogLevel : Type := LOG_DEBUG | LOG_WARN | LOG_ERROR.

Definition LogEntry : Type := (LogLevel * string)%type.

(** ** The simulator object *)

Record Sim (MTRand gsl_rng : Type) : Type := mkSim {
  (* EpidemicDataSet / EpidemicSimulation members *)
  time_ : Z;
  numTimes_ : Z;
  nodeIds_ : list Z;
  nodeIdToIndex_ : Z -> Z;
  stratifications_ : list (list string);
  variables_ : Variables;
  travel_ : Z -> Z -> Q;
  stockpileNetwork_ : StockpileNetwork;
  (* StochasticSEATIRD members *)
  rand_ : MTRand;
  randGenerator_ : gsl_rng;
  now_ : Q;
  scheduleEventQueues_ : Z -> list StochasticSEATIRDSchedule;
  cachedTime_ : Z;
  populationNodes_ : Z -> Z;
  populations_ : Z -> Z -> Z -> Z -> Z;
  (* the log sink *)
  log_ : list LogEntry
}.

Arguments mkSim {MTRand gsl_rng}.
Arguments time_ {MTRand gsl_rng}.
Arguments numTimes_ {MTRand gsl_rng}.
Arguments nodeIds_ {MTRand gsl_rng}.
Arguments nodeIdToIndex_ {MTRand gsl_rng}.
Arguments stratifications_ {MTRand gsl_rng}.
Arguments variables_ {MTRand gsl_rng}.
Arguments travel_ {MTRand gsl_rng}.
Arguments stockpileNetwork_ {MTRand gsl_rng}.
Arguments rand_ {MTRand gsl_rng}.
Arguments randGenerator_ {MTRand gsl_rng}.
Arguments now_ {MTRand gsl_rng}.
Arguments scheduleEventQueues_ {MTRand gsl_rng}.
Arguments cachedTime_ {MTRand gsl_rng}.
Arguments populationNodes_ {MTRand gsl_rng}.
Arguments populations_ {MTRand gsl_rng}.
Arguments log_ {MTRand gsl_rng}.

(** ** Collaborators that are not part of the sources at hand

    The two random number generators ([MTRand rand_] and
    [gsl_rng * randGenerator_]), the distributions drawn from them, the
    schedule constructor, the NPI queries and the stockpile network's daily
    evolution are taken as an interface. *)
Class Externals (MTRand gsl_rng : Type) : Type := {
  (* [rand_.randInt(n)]: an integer in [0, n] *)
  randInt : Z -> MTRand -> Z * MTRand;
  (* [rand_.rand()]: a real in [0, 1] *)
  rand : MTRand -> Q * MTRand;
  (* [random_exponential(rate, &rand_)] *)
  random_exponential : Q -> MTRand -> Q * MTRand;
  (* [gsl_ran_binomial(randGenerator_, p, n)] *)
  gsl_ran_binomial : gsl_rng -> Q -> Z -> Z * gsl_rng;
  (* [StochasticSEATIRDSchedule(now_, rand_, stratificationValues)] *)
  newSchedule : Parameters -> Q -> MTRand -> list Z
                -> StochasticSEATIRDSchedule * MTRand;
  (* [Npi::isNpiEffective(npis, nodeId, time, fromAge, toAge)] *)
  isNpiEffective : list Npi -> Z -> Z -> Z -> Z -> bool;
  (* [Npi::getNpiEffectiveness(npis, nodeId, time, a, b)] *)
  getNpiEffectiveness : list Npi -> Z -> Z -> Z -> Z -> Q;
  (* [StockpileNetwork::evolve] as run by the base class's [simulate()] *)
  evolveStockpileNetwork : Z -> StockpileNetwork -> StockpileNetwork
}.

(** ** Field updates of the simulator object *)

Section FieldUpdates.
Context {MTRand gsl_rng : Type}.
Abbreviation Sim := (Sim MTRand gsl_rng).

Definition set_variables (V : Variables) (st : Sim) : Sim :=
  mkSim (time_ st) (numTimes_ st) (nodeIds_ st) (nodeIdToIndex_ st)
    (stratifications_ st) V (travel_ st) (stockpileNetwork_ st) (rand_ st)
    (randGenerator_ st) (now_ st) (scheduleEventQueues_ st) (cachedTime_ st)
    (populationNodes_ st) (populations_ st) (log_ st).

Definition set_stockpileNetwork (net : StockpileNetwork) (st : Sim) : Sim :=
  mkSim (time_ st) (numTimes_ st) (nodeIds_ st) (nodeIdToIndex_ st)
    (stratifications_ st) (variables_ st) (travel_ st) net (rand_ st)
    (randGenerator_ st) (now_ st) (scheduleEventQueues_ st) (cachedTime_ st)
    (populationNodes_ st) (populations_ st) (log_ st).

Definition set_rand (g : MTRand) (st : Sim) : Sim :=
  mkSim (time_ st) (numTimes_ st) (nodeIds_ st) (nodeIdToIndex_ st)
    (stratifications_ st) (variables_ st) (travel_ st) (stockpileNetwork_ st) g
    (randGenerator_ st) (now_ st) (scheduleEventQueues_ st) (cachedTime_ st)
    (populationNodes_ st) (populations_ st) (log_ st).

Definition set_randGenerator (g : gsl_rng) (st : Sim) : Sim :=
  mkSim (time_ st) (numTimes_ st) (nodeIds_ st) (nodeIdToIndex_ st)
    (stratifications_ st) (variables_ st) (travel_ st) (stockpileNetwork_ st)
    (rand_ st) g (now_ st) (scheduleEventQueues_ st) (cachedTime_ st)
    (populationNodes_ st) (populations_ st) (log_ st).

Definition set_now (q : Q) (st : Sim) : Sim :=
  mkSim (time_ st) (numTimes_ st) (nodeIds_ st) (nodeIdToIndex_ st)
    (stratifications_ st) (variables_ st) (travel_ st) (stockpileNetwork_ st)
    (rand_ st) (randGenerator_ st) q (scheduleEventQueues_ st) (cachedTime_ st)
    (populationNodes_ st) (populations_ st) (log_ st).

Definition set_queue (nodeId : Z) (q : list StochasticSEATIRDSchedule) (st : Sim)
  : Sim :=
  mkSim (time_ st) (numTimes_ st) (nodeIds_ st) (nodeIdToIndex_ st)
    (stratifications_ st) (variables_ st) (travel_ st) (stockpileNetwork_ st)
    (rand_ st) (randGenerator_ st) (now_ st)
    (fun n => if n =? nodeId then q else scheduleEventQueues_ st n)
    (cachedTime_ st) (populationNodes_ st) (populations_ st) (log_ st).

Definition set_cache (t : Z) (pn : Z -> Z) (p : Z -> Z -> Z -> Z -> Z) (st : Sim)
  : Sim :=
  mkSim (time_ st) (numTimes_ st) (nodeIds_ st) (nodeIdToIndex_ st)
    (stratifications_ st) (variables_ st) (travel_ st) (stockpileNetwork_ st)
    (rand_ st) (randGenerator_ st) (now_ st) (scheduleEventQueues_ st) t pn p
    (log_ st).

Definition set_time (t : Z) (st : Sim) : Sim :=
  mkSim t (numTimes_ st) (nodeIds_ st) (nodeIdToIndex_ st)
    (stratifications_ st) (variables_ st) (travel_ st) (stockpileNetwork_ st)
    (rand_ st) (randGenerator_ st) (now_ st) (scheduleEventQueues_ st)
    (cachedTime_ st) (populationNodes_ st) (populations_ st) (log_ st).

Definition set_numTimes (n : Z) (st : Sim) : Sim :=
  mkSim (time_ st) n (nodeIds_ st) (nodeIdToIndex_ st)
    (stratifications_ st) (variables_ st) (travel_ st) (stockpileNetwork_ st)
    (rand_ st) (randGenerator_ st) (now_ st) (scheduleEventQueues_ st)
    (cachedTime_ st) (populationNodes_ st) (populations_ st) (log_ st).

Definition put_flog (lvl : LogLevel) (msg : string) (st : Sim) : Sim :=
  mkSim (time_ st) (numTimes_ st) (nodeIds_ st) (nodeIdToIndex_ st)
    (stratifications_ st) (variables_ st) (travel_ st) (stockpileNetwork_ st)
    (rand_ st) (randGenerator_ st) (now_ st) (scheduleEventQueues_ st)
    (cachedTime_ st) (populationNodes_ st) (populations_ st)
    ((lvl, msg) :: log_ st).

End FieldUpdates.

(** ** Fixed tables of the model *)

(** [sigma[]], susceptibility by age group. *)
Definition sigma (a : Z) : Q :=
  match a with
  | 0%Z => 1 | 1%Z => 98 # 100 | 2%Z => 94 # 100 | 3%Z => 91 # 100
  | 4%Z => 66 # 100
  | _ => 0
  end%Q.

(** [contact[5][5]], the contact matrix. *)
Definition contactRow (i : Z) : list Q :=
  match i with
  | 0%Z => [ 451228487783 # 10000000000; 87808312353 # 10000000000;
           117757947836 # 10000000000; 610114751268 # 100000000000;
           402227175596 # 100000000000 ]
  | 1%Z => [ 87808312353 # 10000000000; 412889143668 # 10000000000;
           133332813497 # 10000000000; 7847051289 # 1000000000;
           422656343551 # 100000000000 ]
  | 2%Z => [ 117757947836 # 10000000000; 133332813497 # 10000000000;
           214270155984 # 10000000000; 137392636644 # 10000000000;
           692483172729 # 100000000000 ]
  | 3%Z => [ 610114751268 # 100000000000; 7847051289 # 1000000000;
           137392636644 # 10000000000; 180482119252 # 10000000000;
           945371062356 # 100000000000 ]
  | 4%Z => [ 402227175596 # 100000000000; 422656343551 # 100000000000;
           692483172729 # 100000000000; 945371062356 # 100000000000;
           140529294262 # 10000000000 ]
  | _ => []
  end%Q.

Definition contact (i j : Z) : Q := nth (Z.to_nat j) (contactRow i) 0%Q.

(** [RHO] and [ageBasedFlowReductions] of [travel()]. *)
Definition RHO : Q := 39 # 100.

Definition ageBasedFlowReductions (a : Z) : Q :=
  match a with
  | 0%Z => 10 | 1%Z => 2 | 4%Z => 2 | _ => 1
  end%Q.

(** ** Priority group selections

    Modelled from the spec: a priority group selection is a set of strata;
    the class [PriorityGroupSelections] is not part of the sources at hand.
    A wildcard selector stands for every value of its dimension, and a
    stratum named by several groups is listed once. *)

Definition expandSelector (extent l : list Z) : list Z :=
  if existsb (Z.eqb STRATIFICATIONS_ALL) l then extent else l.

Definition groupStrata (g : PriorityGroup) : list (list Z) :=
  let sv := stratificationVectorValues g in
  flat_map (fun a =>
    flat_map (fun r =>
      map (fun v => [a; r; v]) (expandSelector vaccinatedGroups (nth 2 sv [])))
      (expandSelector riskGroups (nth 1 sv [])))
    (expandSelector ageGroups (nth 0 sv [])).

Definition groupStrata2 (x : Z) (g : PriorityGroup) : list (list Z) :=
  let sv := stratificationVectorValues g in
  flat_map (fun a =>
    map (fun r => [a; r; x]) (expandSelector riskGroups (nth 1 sv [])))
    (expandSelector ageGroups (nth 0 sv [])).

Definition getStratificationValuesSet (s : PriorityGroupSelections)
  : list (list Z) :=
  nodup (list_eq_dec Z.eq_dec) (flat_map groupStrata (getPriorityGroups s)).

(** The (age group, risk group) pairs of the selection, completed with the
    given vaccinated selector. *)
Definition getStratificationValuesSet2 (s : PriorityGroupSelections) (x : Z)
  : list (list Z) :=
  nodup (list_eq_dec Z.eq_dec) (flat_map (groupStrata2 x) (getPriorityGroups s)).

(** The selection [simulate()] builds for pure pro-rata treatments. *)
Definition priorityGroupSelectionsAll : PriorityGroupSelections :=
  mkPriorityGroupSelections
    [ mkPriorityGroup "_ALL_"
        [ [STRATIFICATIONS_ALL]; [STRATIFICATIONS_ALL]; [STRATIFICATIONS_ALL] ] ].

(** Local work arrays of the treatment routines, indexed by stratum. *)
Definition Array3 : Type := Z -> Z -> Z -> Z.

Definition array3_set (A : Array3) (a r v x : Z) : Array3 :=
  fun a' r' v' => if (a' =? a) && (r' =? r) && (v' =? v) then x else A a' r' v'.

(** [blitz::sum] of a work array of shape (ages, risks, vaccinated). *)
Definition sum3 (A : Array3) : Z :=
  sumZ ageGroups (fun a => sumZ riskGroups (fun r =>
    sumZ vaccinatedGroups (fun v => A a r v))).

(** [blitz::sum] of a work array of shape (compartments, ages, risks). *)
Definition sumCAR (A : Array3) : Z :=
  sumZ [0; 1; 2; 3; 4; 5] (fun c => sumZ ageGroups (fun a =>
    sumZ riskGroups (fun r => A c a r))).

(** [v[2] = x] on a stratification vector. *)
Definition setVaccinated (x : Z) (sv : list Z) : list Z :=
  match sv with
  | a :: r :: _ :: rest => a :: r :: x :: rest
  | _ => sv
  end.

(** ** The schedule queue of a node

    Modelled from the spec: a heap of schedules keyed by the time of each
    schedule's next event ([boost::heap::pairing_heap]); iteration visits the
    schedules in list order. *)
Module Heap.

Definition key (s : StochasticSEATIRDSchedule) : Q :=
  time (Schedule.getTopEvent s).

Fixpoint topFrom (s : StochasticSEATIRDSchedule)
         (q : list StochasticSEATIRDSchedule) : StochasticSEATIRDSchedule :=
  match q with
  | [] => s
  | s' :: q' => if Qltb (key s') (key s) then topFrom s' q' else topFrom s q'
  end.

Fixpoint popFrom (s : StochasticSEATIRDSchedule)
         (q : list StochasticSEATIRDSchedule) : list StochasticSEATIRDSchedule :=
  match q with
  | [] => []
  | s' :: q' =>
      if Qltb (key s') (key s) then s :: popFrom s' q' else s' :: popFrom s q'
  end.

Definition push (s : StochasticSEATIRDSchedule)
           (q : list StochasticSEATIRDSchedule) : list StochasticSEATIRDSchedule :=
  q ++ [s].

End Heap.

(** ** The simulator *)

Section Model.
Context {MTRand gsl_rng : Type} {Ext : Externals MTRand gsl_rng}.
Variable g_parameters : Parameters.
Abbreviation SimT := (Sim MTRand gsl_rng).

(** *** Base classes [EpidemicDataSet] and [EpidemicSimulation]

    Modelled from the spec: the base classes are not part of the sources
    at hand.  [getValue] sums across wildcard dimensions (a missing
    selector is a wildcard), [transition] moves up to [num] individuals
    between two variables at the newest time step, clamped to the number
    available, and the base [simulate()] copies every variable forward to
    the new time step and evolves the stockpile network. *)

Definition selected (extent strat : list Z) (i : nat) : list Z :=
  match nth_error strat i with
  | Some x => if x =? STRATIFICATIONS_ALL then extent else [x]
  | None => extent
  end.

Definition getValue (st : SimT) (var : VariableName) (t nodeId : Z)
           (strat : list Z) : Z :=
  sumZ (selected ageGroups strat 0) (fun a =>
    sumZ (selected riskGroups strat 1) (fun r =>
      sumZ (selected vaccinatedGroups strat 2) (fun v =>
        variables_ st var t (nodeIdToIndex_ st nodeId) a r v))).

(** [getValue] over a set of stratification vectors. *)
Definition getValueSet (st : SimT) (var : VariableName) (t nodeId : Z)
           (strata : list (list Z)) : Z :=
  sumZ strata (getValue st var t nodeId).

Definition getNodeIds (st : SimT) : list Z := nodeIds_ st.

Definition getTravel (st : SimT) (i j : Z) : Q := travel_ st i j.

(** The newest time step, the one the base class writes to. *)
Definition frontier (st : SimT) : Z := numTimes_ st - 1.

Definition transition (num : Z) (from to : VariableName) (nodeId : Z)
           (strat : list Z) (st : SimT) : Z * SimT :=
  let t := frontier st in
  let n := nodeIdToIndex_ st nodeId in
  let a := nth 0 strat 0 in
  let r := nth 1 strat 0 in
  let v := nth 2 strat 0 in
  let available := variables_ st from t n a r v in
  let clamped := available <? num in
  let moved := if clamped then available else num in
  let V1 := var_update (variables_ st) from
              (fun A => array_add A t n a r v (- moved)) in
  let V2 := var_update V1 to (fun A => array_add A t n a r v moved) in
  let st1 := set_variables V2 st in
  (moved,
   if clamped then put_flog LOG_WARN "transition: not enough population" st1
   else st1).

Definition EpidemicSimulation_expose (num nodeId : Z) (strat : list Z)
           (st : SimT) : Z * SimT :=
  transition num susceptible exposed nodeId strat st.

Definition copy_forward (V : Variables) (t : Z) : Variables :=
  fun x t' n a r v => if t' =? t + 1 then V x t n a r v else V x t' n a r v.

Definition EpidemicSimulation_simulate (st : SimT) : SimT :=
  set_numTimes (numTimes_ st + 1)
    (set_stockpileNetwork
       (evolveStockpileNetwork (time_ st) (stockpileNetwork_ st))
       (set_variables (copy_forward (variables_ st) (time_ st)) st)).

(** *** [StochasticSEATIRD::precompute] (lines 1036-1075) *)

Fixpoint precomputeNodes (st : SimT) (time : Z) (i : Z) (ids : list Z)
         (pn : Z -> Z) (p : Z -> Z -> Z -> Z -> Z)
  : (Z -> Z) * (Z -> Z -> Z -> Z -> Z) :=
  match ids with
  | [] => (pn, p)
  | nodeId :: ids' =>
      let pn' := fun j => if j =? i then getValue st population time nodeId []
                          else pn j in
      let p' := fun j a r v =>
                  if (j =? i) && (0 <=? a) && (a <? numAgeGroups_)
                     && (0 <=? r) && (r <? numRiskGroups_)
                     && (0 <=? v) && (v <? numVaccinatedGroups_)
                  then getValue st population time nodeId [a; r; v]
                  else p j a r v in
      precomputeNodes st time (i + 1) ids' pn' p'
  end.

Definition precompute (time : Z) (st : SimT) : SimT :=
  let '(pn, p) := precomputeNodes st time 0 (nodeIds_ st)
                    (fun _ => 0) (fun _ _ _ _ => 0) in
  set_cache time pn p st.

(** *** Derived variables (lines 212-260) *)

Definition getDerivedVarInfected (st : SimT) (time nodeId : Z)
           (strat : list Z) : Z :=
  getValue st asymptomatic time nodeId strat
  + getValue st treatable time nodeId strat
  + getValue st infectious time nodeId strat.

(** The loop [for(t = start; t >= 0 && t > lo; t--) total += f(t)], which
    runs at most [n] times. *)
Fixpoint latencyLoop (n : nat) (t lo : Z) (f : Z -> Z) (total : Z) : Z :=
  match n with
  | O => total
  | S n' =>
      if (t >=? 0) && (t >? lo)
      then latencyLoop n' (t - 1) lo f (total + f t)
      else total
  end.




(** *** [getPopulationInVaccineLatencyPeriod] (lines 887-905) *)

Definition getPopulationInVaccineLatencyPeriod (st : SimT)
           (nodeId ageGroup riskGroup : Z) : Z :=
  let vaccineLatencyPeriod := getVaccineLatencyPeriod g_parameters in
  latencyLoop (Z.to_nat vaccineLatencyPeriod) (time_ st + 1)
    (time_ st + 1 - vaccineLatencyPeriod)
    (fun t => variables_ st vaccinated_daily t (nodeIdToIndex_ st nodeId)
                ageGroup riskGroup 1) 0.

(** *** [initializeContactEvents] (lines 272-329) *)

(** The loop [while(Tc < TcFinal)] that lays out the contact events aimed
    at one (age group, risk group). *)
Fixpoint contactLoop (fuel : nat) (rate TcFinal : Q) (from to : list Z)
         (TcInit Tc : Q) (schedule : StochasticSEATIRDSchedule) (g : MTRand)
  : option (StochasticSEATIRDSchedule * MTRand) :=
  if Qltb Tc TcFinal then
    match fuel with
    | O => None
    | S fuel' =>
        let schedule' :=
          Schedule.insertEvent (mkEvent TcInit Tc CONTACT from to) schedule in
        let '(d, g') := random_exponential rate g in
        contactLoop fuel' rate TcFinal from to Tc (Tc + d)%Q schedule' g'
    end
  else Some (schedule, g).

Definition contactEventsTo (fuel : nat) (st : SimT) (nodeId : Z)
           (strat : list Z) (beta : Q) (a r : Z)
           (acc : option (StochasticSEATIRDSchedule * MTRand))
  : option (StochasticSEATIRDSchedule * MTRand) :=
  match acc with
  | None => None
  | Some (schedule, g) =>
      let n := nodeIdToIndex_ st nodeId in
      let toGroupFraction :=
        (inject_Z (populations_ st n a r 0 + populations_ st n a r 1)
         / inject_Z (populationNodes_ st n))%Q in
      let contactRate := contact (nth 0 strat 0) a in
      let transmissionRate :=
        (beta * contactRate * sigma a * toGroupFraction)%Q in
      let TcInit := Schedule.getInfectedTMin schedule in
      let TcFinal := Schedule.getInfectedTMax schedule in
      let '(d, g') := random_exponential transmissionRate g in
      contactLoop fuel transmissionRate TcFinal strat [a; r]
        TcInit (TcInit + d)%Q schedule g'
  end.

Definition expectedStratifications (st : SimT) : bool :=
  (Z.of_nat (List.length (nth 0 (stratifications_ st) [])) =? numAgeGroups_)
  && (Z.of_nat (List.length (nth 1 (stratifications_ st) [])) =? numRiskGroups_)
  && (Z.of_nat (List.length (nth 2 (stratifications_ st) []))
      =? numVaccinatedGroups_).

Definition initializeContactEvents (fuel : nat)
           (schedule : StochasticSEATIRDSchedule) (nodeId : Z)
           (strat : list Z) (st : SimT)
  : option (StochasticSEATIRDSchedule * SimT) :=
  let beta := (getR0 g_parameters / getBetaScale g_parameters)%Q in
  if negb (expectedStratifications st) then
    Some (schedule, put_flog LOG_ERROR "wrong number of stratifications" st)
  else
    match
      fold_left (fun acc a =>
        fold_left (fun acc' r =>
          contactEventsTo fuel st nodeId strat beta a r acc')
          riskGroups acc)
        ageGroups (Some (schedule, rand_ st))
    with
    | None => None
    | Some (schedule', g) => Some (schedule', set_rand g st)
    end.

(** *** [expose] (lines 77-109) *)

Fixpoint exposeSchedules (fuel : nat) (count : nat) (nodeId : Z)
         (strat : list Z) (st : SimT) : option SimT :=
  match count with
  | O => Some st
  | S count' =>
      let '(schedule, g) :=
        newSchedule g_parameters (now_ st) (rand_ st) strat in
      match initializeContactEvents fuel schedule nodeId strat (set_rand g st)
      with
      | None => None
      | Some (schedule', st') =>
          exposeSchedules fuel count' nodeId strat
            (set_queue nodeId
               (Heap.push schedule' (scheduleEventQueues_ st' nodeId)) st')
      end
  end.

Definition expose (fuel : nat) (num nodeId : Z) (strat : list Z) (st : SimT)
  : option (Z * SimT) :=
  let st1 :=
    if (time_ st =? 0) && (cachedTime_ st =? -1) then
      precompute 0
        (put_flog LOG_DEBUG "precomputing at beginning of simulation" st)
    else if negb (time_ st =? 0) && negb (cachedTime_ st =? time_ st + 1) then
      precompute (time_ st + 1)
        (put_flog LOG_WARN
           "precomputing during simulation! should not be necessary." st)
    else st in
  let '(numExposed, st2) := EpidemicSimulation_expose num nodeId strat st1 in
  match exposeSchedules fuel (Z.to_nat numExposed) nodeId strat st2 with
  | None => None
  | Some st3 => Some (numExposed, st3)
  end.

(** *** [processEvent] (lines 331-456) *)

(** Lines 430-450: the contact reaches an individual of the complete
    target stratum; it exposes that individual when the individual drawn
    is a susceptible one. *)
Definition contactDispatch (fuel : nat) (nodeId : Z)
           (event : StochasticSEATIRDEvent) (v : Z) (st : SimT)
  : option SimT :=
  let completeToStratificationValues := toStratificationValues event ++ [v] in
  let targetPopulationSize :=
    populations_ st (nodeIdToIndex_ st nodeId)
      (nth 0 completeToStratificationValues 0)
      (nth 1 completeToStratificationValues 0)
      (nth 2 completeToStratificationValues 0) in
  let targetPopulationSize :=
    if list_eqb (fromStratificationValues event) completeToStratificationValues
    then targetPopulationSize - 1
    else targetPopulationSize in
  if targetPopulationSize >? 0 then
    let '(i, g) := randInt (targetPopulationSize - 1) (rand_ st) in
    let contact := i + 1 in
    let st1 := set_rand g st in
    if getValue st1 susceptible (time_ st1 + 1) nodeId
         completeToStratificationValues >=? contact
    then
      match expose fuel 1 nodeId completeToStratificationValues st1 with
      | None => None
      | Some (_, st2) => Some st2
      end
    else Some st1
  else Some st.

(** Lines 375-452, the [CONTACT] case. *)
Definition processContact (fuel : nat) (nodeId : Z)
           (event : StochasticSEATIRDEvent) (st : SimT)
  : option (bool * SimT) :=
  if negb (List.length (toStratificationValues event) =? 2)%nat then
    Some (false,
          put_flog LOG_ERROR "incorrect event.toStratificationValues" st)
  else
    let from0 := nth 0 (fromStratificationValues event) 0 in
    let to0 := nth 0 (toStratificationValues event) 0 in
    let to1 := nth 1 (toStratificationValues event) 0 in
    let npiEffective :=
      isNpiEffective (getNpis g_parameters) nodeId (Qtrunc (now_ st))
        from0 to0 in
    if npiEffective then Some (true, st)
    else
      let n := nodeIdToIndex_ st nodeId in
      let ageRiskPopulationSize :=
        populations_ st n to0 to1 0 + populations_ st n to0 to1 1 in
      let ageRiskVaccinatedPopulationSize := populations_ st n to0 to1 1 in
      let '(i, g) := randInt (ageRiskPopulationSize - 1) (rand_ st) in
      let contact := i + 1 in
      let st1 := set_rand g st in
      let dispatch (v : Z) (st' : SimT) :=
        match contactDispatch fuel nodeId event v st' with
        | None => None
        | Some st'' => Some (true, st'')
        end in
      if ageRiskVaccinatedPopulationSize >=? contact then
        let ageRiskVaccinatedLatencyPopulationSize :=
          getPopulationInVaccineLatencyPeriod st1 nodeId to0 to1 in
        if ageRiskVaccinatedLatencyPopulationSize <? contact then
          let vaccineEffectiveness := getVaccineEffectiveness g_parameters in
          let '(u, g') := rand (rand_ st1) in
          let st2 := set_rand g' st1 in
          if Qle_bool u vaccineEffectiveness then Some (true, st2)
          else dispatch 1 st2
        else dispatch 1 st1
      else dispatch 0 st1.

Definition processEvent (fuel : nat) (nodeId : Z)
           (event : StochasticSEATIRDEvent) (st : SimT)
  : option (bool * SimT) :=
  let from := fromStratificationValues event in
  let move (x y : VariableName) :=
    Some (true, snd (transition 1 x y nodeId from st)) in
  match type event with
  | EtoA => move exposed asymptomatic
  | AtoT => move asymptomatic treatable
  | AtoR => move asymptomatic recovered
  | AtoD => move asymptomatic deceased
  | TtoI => move treatable infectious
  | TtoR => move treatable recovered
  | TtoD => move treatable deceased
  | ItoR => move infectious recovered
  | ItoD => move infectious deceased
  | CONTACT => processContact fuel nodeId event st
  end.

(** *** [applyAntiviralsToPriorityGroupSelections] (lines 458-650) *)

(** Work arrays of one node's treatment pass. *)
Record AntiviralWork : Type := mkAntiviralWork {
  numberTreated : Array3;
  numberEffectivelyTreated : Array3;
  numberTreatable : Array3
}.

(** Lines 552-607: one stratum of the priority group selection. *)
Definition antiviralStratum (nodeId : Z) (totalAdherentTreatable : Q)
           (stockpileAmountUsed : Z) (acc : SimT * AntiviralWork)
           (s : list Z) : SimT * AntiviralWork :=
  let '(st, w) := acc in
  let antiviralEffectiveness := getAntiviralEffectiveness g_parameters in
  let antiviralAdherence := getAntiviralAdherence g_parameters in
  let a := nth 0 s 0 in
  let r := nth 1 s 0 in
  let v := nth 2 s 0 in
  let stratificationValues := [a; r; v] in
  let t1 := time_ st + 1 in
  let n := nodeIdToIndex_ st nodeId in
  let treatable' :=
    getValue st treatable t1 nodeId stratificationValues
    - getValue st treated_ineffective_daily t1 nodeId stratificationValues in
  if treatable' <=? 0 then
    (st, mkAntiviralWork (array3_set (numberTreated w) a r v 0)
           (array3_set (numberEffectivelyTreated w) a r v 0)
           (array3_set (numberTreatable w) a r v 0))
  else
    let adherentTreatable := (antiviralAdherence * inject_Z treatable')%Q in
    let nT := Qtrunc (adherentTreatable / totalAdherentTreatable
                      * inject_Z stockpileAmountUsed)%Q in
    let nE := Qtrunc (antiviralEffectiveness * inject_Z nT)%Q in
    let w' := mkAntiviralWork (array3_set (numberTreated w) a r v nT)
                (array3_set (numberEffectivelyTreated w) a r v nE)
                (array3_set (numberTreatable w) a r v treatable') in
    if nT <=? 0 then (st, w')
    else
      let st1 := snd (transition nE treatable recovered nodeId
                        stratificationValues st) in
      let V1 := var_update (variables_ st1) treated_daily
                  (fun A => array_add A t1 n a r v nT) in
      let V2 := var_update V1 treated_ineffective_daily
                  (fun A => array_add A t1 n a r v (nT - nE)) in
      let V3 := var_update V2 treated
                  (fun A => array_add A t1 n a r v nT) in
      (set_variables V3 st1, w').

(** Lines 623-642: walk the node's schedules and cancel those of the
    individuals that were treated effectively. *)
Fixpoint cancelSchedules (q : list StochasticSEATIRDSchedule)
         (nE nTble : Array3) (g : MTRand)
  : list StochasticSEATIRDSchedule * Array3 * MTRand :=
  match q with
  | [] => ([], nE, g)
  | s :: q' =>
      if sum3 nE >? 0 then
        if SchedState.eqb (Schedule.getState s) SchedState.T then
          let sv := Schedule.getStratificationValues s in
          let a := nth 0 sv 0 in
          let r := nth 1 sv 0 in
          let v := nth 2 sv 0 in
          if nE a r v >? 0 then
            let '(cancelIt, g') :=
              if negb (Schedule.canceled s) then
                let '(u, g1) := rand g in
                (Qle_bool u (inject_Z (nE a r v) / inject_Z (nTble a r v))%Q,
                 g1)
              else (false, g) in
            let s' := if cancelIt then Schedule.cancel s else s in
            let nE' := if cancelIt then array3_set nE a r v (nE a r v - 1)
                       else nE in
            let nTble' := array3_set nTble a r v (nTble a r v - 1) in
            let '(q'', nE'', g'') := cancelSchedules q' nE' nTble' g' in
            (s' :: q'', nE'', g'')
          else
            let '(q'', nE'', g'') := cancelSchedules q' nE nTble g in
            (s :: q'', nE'', g'')
        else
          let '(q'', nE'', g'') := cancelSchedules q' nE nTble g in
          (s :: q'', nE'', g'')
      else (q, nE, g)
  end.

(** The amount of the stockpile used at one node (lines 507-523). *)
Definition antiviralAmountUsed (stockpileAmount : Z)
           (totalAdherentTreatable : Q) (capacityTotalPopulation : Z)
           (todayUsedCapacity : Z) : Z :=
  let antiviralCapacity := getAntiviralCapacity g_parameters in
  let stockpileAmountUsed := stockpileAmount in
  let stockpileAmountUsed :=
    if stockpileAmountUsed >? Qtrunc totalAdherentTreatable
    then Qtrunc totalAdherentTreatable else stockpileAmountUsed in
  let capacityLeft :=
    Qtrunc (antiviralCapacity * inject_Z capacityTotalPopulation
            - inject_Z todayUsedCapacity)%Q in
  if stockpileAmountUsed >? capacityLeft then capacityLeft
  else stockpileAmountUsed.

Definition zero3 : Array3 := fun _ _ _ => 0.

(** Body of the loop over the nodes (lines 473-649). *)
Definition applyAntiviralsToNode (sel : PriorityGroupSelections)
           (st : SimT) (nodeId : Z) : SimT :=
  let antiviralAdherence := getAntiviralAdherence g_parameters in
  match getNodeStockpile (stockpileNetwork_ st) nodeId with
  | None => st
  | Some ptr =>
      let stockpile := stockpileStore (stockpileNetwork_ st) ptr in
      let t1 := time_ st + 1 in
      let stockpileAmount :=
        StockpileOps.getNum stockpile t1 STOCKPILE_ANTIVIRALS in
      if stockpileAmount =? 0 then st
      else
        let strata := getStratificationValuesSet sel in
        let totalTreatable :=
          getValueSet st treatable t1 nodeId strata
          - getValueSet st treated_ineffective_daily t1 nodeId strata in
        if totalTreatable <=? 0 then st
        else
          let totalAdherentTreatable :=
            (antiviralAdherence * inject_Z totalTreatable)%Q in
          let capacityTotalPopulation :=
            getValue st population t1 nodeId [] in
          let todayUsedCapacity :=
            sum3 (variables_ st treated_daily t1 (nodeIdToIndex_ st nodeId)) in
          let stockpileAmountUsed :=
            antiviralAmountUsed stockpileAmount totalAdherentTreatable
              capacityTotalPopulation todayUsedCapacity in
          if stockpileAmountUsed <=? 0 then st
          else
            let st1 :=
              set_stockpileNetwork
                (setStockpile (stockpileNetwork_ st) ptr
                   (StockpileOps.setNum stockpile t1
                      (stockpileAmount - stockpileAmountUsed)
                      STOCKPILE_ANTIVIRALS)) st in
            let '(st2, w) :=
              fold_left
                (antiviralStratum nodeId totalAdherentTreatable
                   stockpileAmountUsed)
                strata (st1, mkAntiviralWork zero3 zero3 zero3) in
            let st3 :=
              if negb (sum3 (numberTreated w) =? stockpileAmountUsed)
              then put_flog LOG_WARN "numberTreated != stockpileAmountUsed" st2
              else st2 in
            let '(q, nE, g) :=
              cancelSchedules (scheduleEventQueues_ st3 nodeId)
                (numberEffectivelyTreated w) (numberTreatable w) (rand_ st3) in
            let st4 := set_rand g (set_queue nodeId q st3) in
            if negb (sum3 nE =? 0)
            then put_flog LOG_WARN "numberEffectivelyTreated != 0" st4
            else st4
  end.

Definition applyAntiviralsToPriorityGroupSelections
           (priorityGroupSelections : option PriorityGroupSelections)
           (st : SimT) : SimT :=
  match priorityGroupSelections with
  | None => put_flog LOG_DEBUG "no priority groups in selection" st
  | Some sel =>
      match getPriorityGroups sel with
      | [] => put_flog LOG_DEBUG "no priority groups in selection" st
      | _ => fold_left (applyAntiviralsToNode sel) (getNodeIds st) st
      end
  end.

(** *** [applyVaccinesToPriorityGroupSelections] (lines 652-885) *)

(** The compartments vaccines are applied to (never "deceased"); the
    position in the list is the compartment index. *)
Definition compartments : list (Z * VariableName) :=
  [ (0, susceptible); (1, exposed); (2, asymptomatic); (3, treatable);
    (4, infectious); (5, recovered) ].

Definition stateToCompartmentIndex (s : SchedState.t) : option Z :=
  match s with
  | SchedState.E => Some 1
  | SchedState.A => Some 2
  | SchedState.T => Some 3
  | SchedState.I => Some 4
  | SchedState.R => Some 5
  | SchedState.D => None
  end.

(** Lines 764-819: one (age group, risk group) of one compartment.  The
    work arrays are indexed by (compartment, age group, risk group). *)
Definition vaccineStratum (nodeId : Z) (totalAdherentUnvaccinated : Q)
           (stockpileAmountUsed : Z) (c : Z) (comp : VariableName)
           (acc : SimT * (Array3 * Array3)) (s : list Z)
  : SimT * (Array3 * Array3) :=
  let '(st, (numberVaccinated, numberVaccinatable)) := acc in
  let vaccineAdherence := getVaccineAdherence g_parameters in
  let a := nth 0 s 0 in
  let r := nth 1 s 0 in
  let t1 := time_ st + 1 in
  let n := nodeIdToIndex_ st nodeId in
  let population' :=
    getValue st population t1 nodeId [a; r; STRATIFICATIONS_ALL] in
  let vaccinatedPopulation := getValue st population t1 nodeId [a; r; 1] in
  let unvaccinatedPopulation := getValue st population t1 nodeId [a; r; 0] in
  let compartmentUnvaccinated := getValue st comp t1 nodeId [a; r; 0] in
  let numberVaccinatable' :=
    array3_set numberVaccinatable c a r compartmentUnvaccinated in
  if unvaccinatedPopulation <=? 0 then
    (st, (array3_set numberVaccinated c a r 0, numberVaccinatable'))
  else
    let adherentCompartmentUnvaccinated :=
      ((vaccineAdherence * inject_Z population' - inject_Z vaccinatedPopulation)
       * inject_Z compartmentUnvaccinated / inject_Z unvaccinatedPopulation)%Q in
    let nV := Qtrunc (adherentCompartmentUnvaccinated
                      / totalAdherentUnvaccinated
                      * inject_Z stockpileAmountUsed)%Q in
    let numberVaccinated' := array3_set numberVaccinated c a r nV in
    if nV <=? 0 then (st, (numberVaccinated', numberVaccinatable'))
    else
      let V1 := var_update (variables_ st) comp
                  (fun A => array_add A t1 n a r 0 (- nV)) in
      let V2 := var_update V1 comp (fun A => array_add A t1 n a r 1 nV) in
      let V3 := var_update V2 population
                  (fun A => array_add A t1 n a r 0 (- nV)) in
      let V4 := var_update V3 population
                  (fun A => array_add A t1 n a r 1 nV) in
      let V5 := var_update V4 vaccinated_daily
                  (fun A => array_add A t1 n a r 1 nV) in
      (set_variables V5 st, (numberVaccinated', numberVaccinatable')).

Definition vaccineCompartment (sel : PriorityGroupSelections) (nodeId : Z)
           (totalAdherentUnvaccinated : Q) (stockpileAmountUsed : Z)
           (acc : SimT * (Array3 * Array3)) (c : Z * VariableName)
  : SimT * (Array3 * Array3) :=
  fold_left
    (vaccineStratum nodeId totalAdherentUnvaccinated stockpileAmountUsed
       (fst c) (snd c))
    (getStratificationValuesSet2 sel STRATIFICATIONS_ALL) acc.

(** Lines 848-881: move the schedules of vaccinated individuals to the
    vaccinated stratification. *)
Fixpoint restratifySchedules (q : list StochasticSEATIRDSchedule)
         (nV nVable : Array3) (g : MTRand)
  : list StochasticSEATIRDSchedule * Array3 * MTRand :=
  match q with
  | [] => ([], nV, g)
  | s :: q' =>
      if sumCAR nV >? 0 then
        let skip :=
          let '(q'', nV'', g'') := restratifySchedules q' nV nVable g in
          (s :: q'', nV'', g'') in
        match stateToCompartmentIndex (Schedule.getState s) with
        | None => skip
        | Some c =>
            let sv := Schedule.getStratificationValues s in
            let a := nth 0 sv 0 in
            let r := nth 1 sv 0 in
            if nth 2 sv 0 =? 1 then skip
            else if nV c a r >? 0 then
              let '(change, g') :=
                if negb (Schedule.canceled s) then
                  let '(u, g1) := rand g in
                  (Qle_bool u (inject_Z (nV c a r) / inject_Z (nVable c a r))%Q,
                   g1)
                else (false, g) in
              let s' :=
                if change
                then Schedule.changeStratificationValues (setVaccinated 1 sv) s
                else s in
              let nV' := if change then array3_set nV c a r (nV c a r - 1)
                         else nV in
              let nVable' := array3_set nVable c a r (nVable c a r - 1) in
              let '(q'', nV'', g'') := restratifySchedules q' nV' nVable' g' in
              (s' :: q'', nV'', g'')
            else skip
        end
      else (q, nV, g)
  end.

(** The amount of the stockpile used at one node (lines 704-720). *)
Definition vaccineAmountUsed (stockpileAmount : Z)
           (totalAdherentUnvaccinated : Q) (capacityTotalPopulation : Z)
           (todayUsedCapacity : Z) : Z :=
  let vaccineCapacity := getVaccineCapacity g_parameters in
  let stockpileAmountUsed := stockpileAmount in
  let stockpileAmountUsed :=
    if stockpileAmountUsed >? Qtrunc totalAdherentUnvaccinated
    then Qtrunc totalAdherentUnvaccinated else stockpileAmountUsed in
  let capacityLeft :=
    Qtrunc (vaccineCapacity * inject_Z capacityTotalPopulation
            - inject_Z todayUsedCapacity)%Q in
  if stockpileAmountUsed >? capacityLeft then capacityLeft
  else stockpileAmountUsed.

(** Body of the loop over the nodes (lines 668-884). *)
Definition applyVaccinesToNode (sel : PriorityGroupSelections)
           (st : SimT) (nodeId : Z) : SimT :=
  let vaccineAdherence := getVaccineAdherence g_parameters in
  match getNodeStockpile (stockpileNetwork_ st) nodeId with
  | None => st
  | Some ptr =>
      let stockpile := stockpileStore (stockpileNetwork_ st) ptr in
      let t1 := time_ st + 1 in
      let stockpileAmount :=
        StockpileOps.getNum stockpile t1 STOCKPILE_VACCINES in
      if stockpileAmount =? 0 then st
      else
        let totalPopulation :=
          getValueSet st population t1 nodeId
            (getStratificationValuesSet2 sel STRATIFICATIONS_ALL) in
        let totalVaccinatedPopulation :=
          getValueSet st population t1 nodeId
            (getStratificationValuesSet2 sel 1) in
        let totalUnvaccinatedPopulation :=
          getValueSet st population t1 nodeId
            (getStratificationValuesSet2 sel 0) in
        if totalUnvaccinatedPopulation <=? 0 then st
        else
          let totalAdherentUnvaccinated :=
            (vaccineAdherence * inject_Z totalPopulation
             - inject_Z totalVaccinatedPopulation)%Q in
          let capacityTotalPopulation :=
            getValue st population t1 nodeId [] in
          let todayUsedCapacity :=
            sumZ ageGroups (fun a => sumZ riskGroups (fun r =>
              variables_ st vaccinated_daily t1 (nodeIdToIndex_ st nodeId)
                a r 1)) in
          let stockpileAmountUsed :=
            vaccineAmountUsed stockpileAmount totalAdherentUnvaccinated
              capacityTotalPopulation todayUsedCapacity in
          if stockpileAmountUsed <=? 0 then st
          else
            let st1 :=
              set_stockpileNetwork
                (setStockpile (stockpileNetwork_ st) ptr
                   (StockpileOps.setNum stockpile t1
                      (stockpileAmount - stockpileAmountUsed)
                      STOCKPILE_VACCINES)) st in
            let '(st2, (nV, nVable)) :=
              fold_left
                (vaccineCompartment sel nodeId totalAdherentUnvaccinated
                   stockpileAmountUsed)
                compartments (st1, (zero3, zero3)) in
            let st3 :=
              if negb (sumCAR nV =? stockpileAmountUsed)
              then put_flog LOG_WARN "numberVaccinated != stockpileAmountUsed"
                     st2
              else st2 in
            let '(q, _, g) :=
              restratifySchedules (scheduleEventQueues_ st3 nodeId)
                nV nVable (rand_ st3) in
            set_rand g (set_queue nodeId q st3)
  end.

Definition applyVaccinesToPriorityGroupSelections
           (priorityGroupSelections : option PriorityGroupSelections)
           (st : SimT) : SimT :=
  match priorityGroupSelections with
  | None => put_flog LOG_DEBUG "no priority groups in selection" st
  | Some sel =>
      match getPriorityGroups sel with
      | [] => put_flog LOG_DEBUG "no priority groups in selection" st
      | _ => fold_left (applyVaccinesToNode sel) (getNodeIds st) st
      end
  end.

(** *** [travel] (lines 907-1034) *)

Definition beta : Q := (getR0 g_parameters / getBetaScale g_parameters)%Q.

(** [asymptomatics[age]] and [transmittings[age]] of a source node
    (lines 947-951). *)
Definition asymptomatics (st : SimT) (sourceNodeId age : Z) : Z :=
  getValue st asymptomatic (time_ st + 1) sourceNodeId [age].

Definition transmittings (st : SimT) (sourceNodeId age : Z) : Z :=
  asymptomatics st sourceNodeId age
  + getValue st treatable (time_ st + 1) sourceNodeId [age]
  + getValue st infectious (time_ st + 1) sourceNodeId [age].

(** The two sums accumulated by the loop over [b] (lines 969-982). *)
Definition numberOfInfectiousContactsIJ (st : SimT)
           (sinkNodeId sourceNodeId a : Z) : Q :=
  fold_left (fun acc b =>
    let transmitting := inject_Z (transmittings st sourceNodeId b) in
    let contactRate := contact a b in
    let npiEffectivenessAtJ :=
      getNpiEffectiveness (getNpis g_parameters) sourceNodeId
        (Qtrunc (now_ st)) a b in
    acc + (1 - npiEffectivenessAtJ) * transmitting * beta * RHO * contactRate
          * sigma a / ageBasedFlowReductions a)%Q
    ageGroups 0%Q.

Definition numberOfInfectiousContactsJI (st : SimT)
           (sinkNodeId sourceNodeId a : Z) : Q :=
  fold_left (fun acc b =>
    let asymptomatic' := inject_Z (asymptomatics st sourceNodeId b) in
    let contactRate := contact a b in
    let npiEffectivenessAtI :=
      getNpiEffectiveness (getNpis g_parameters) sinkNodeId
        (Qtrunc (now_ st)) a b in
    acc + (1 - npiEffectivenessAtI) * asymptomatic' * beta * RHO * contactRate
          * sigma a / ageBasedFlowReductions b)%Q
    ageGroups 0%Q.

(** Lines 937-989: what one source node adds to
    [unvaccinatedProbabilities]. *)
Definition travelSource (st : SimT) (sinkNodeId : Z) (probs : Z -> Q)
           (sourceNodeId : Z) : Z -> Q :=
  let populationSink := populationNodes_ st (nodeIdToIndex_ st sinkNodeId) in
  let populationSource :=
    populationNodes_ st (nodeIdToIndex_ st sourceNodeId) in
  if negb (sinkNodeId =? sourceNodeId) then
    let travelFractionIJ := getTravel st sinkNodeId sourceNodeId in
    let travelFractionJI := getTravel st sourceNodeId sinkNodeId in
    if Qltb 0 travelFractionIJ || Qltb 0 travelFractionJI then
      fun a =>
        if (0 <=? a) && (a <? numAgeGroups_) then
          (probs a
           + travelFractionIJ
             * numberOfInfectiousContactsIJ st sinkNodeId sourceNodeId a
             / inject_Z populationSource
           + travelFractionJI
             * numberOfInfectiousContactsJI st sinkNodeId sourceNodeId a
             / inject_Z populationSink)%Q
        else probs a
    else probs
  else probs.

Definition unvaccinatedProbabilities (st : SimT) (sinkNodeId : Z) : Z -> Q :=
  fold_left (travelSource st sinkNodeId) (nodeIds_ st) (fun _ => 0%Q).

(** Lines 995-1030: one sink stratum. *)
Definition travelStratum (fuel : nat) (sinkNodeId : Z) (probs : Z -> Q)
           (acc : option SimT) (s : Z * Z * Z) : option SimT :=
  match acc with
  | None => None
  | Some st =>
      let '(a, r, v) := s in
      let vaccineEffectiveness := getVaccineEffectiveness g_parameters in
      let n := nodeIdToIndex_ st sinkNodeId in
      let probability :=
        if v =? 1 then
          let ageRiskVaccinatedLatencyPopulationSize :=
            getPopulationInVaccineLatencyPeriod st sinkNodeId a r in
          let ageRiskVaccinatedPopulationSize := populations_ st n a r 1 in
          let ageRiskVaccinatedEffectivePopulationSize :=
            ageRiskVaccinatedPopulationSize
            - ageRiskVaccinatedLatencyPopulationSize in
          let effectiveVaccineEffectiveness :=
            (vaccineEffectiveness
             * inject_Z ageRiskVaccinatedEffectivePopulationSize
             / inject_Z ageRiskVaccinatedPopulationSize)%Q in
          (probs a * (1 - effectiveVaccineEffectiveness))%Q
        else probs a in
      let sinkNumSusceptible :=
        Qtrunc (inject_Z (variables_ st susceptible (time_ st + 1)%Z n a r v)
                + (1 # 2))%Q in
      if sinkNumSusceptible >? 0 then
        let '(numberOfExposures, g) :=
          gsl_ran_binomial (randGenerator_ st) probability sinkNumSusceptible in
        match expose fuel numberOfExposures sinkNodeId [a; r; v]
                (set_randGenerator g st) with
        | None => None
        | Some (_, st') => Some st'
        end
      else Some st
  end.

Definition allStrata : list (Z * Z * Z) :=
  flat_map (fun a => flat_map (fun r => map (fun v => (a, r, v))
    vaccinatedGroups) riskGroups) ageGroups.

Definition travelSink (fuel : nat) (acc : option SimT) (sinkNodeId : Z)
  : option SimT :=
  match acc with
  | None => None
  | Some st =>
      let probs := unvaccinatedProbabilities st sinkNodeId in
      fold_left (travelStratum fuel sinkNodeId probs) allStrata (Some st)
  end.

Definition travel (fuel : nat) (st : SimT) : option SimT :=
  fold_left (travelSink fuel) (nodeIds_ st) (Some st).

(** *** [simulate] (lines 111-210) *)

(** Lines 135-139. *)
Definition resetDailyCounters (st : SimT) : SimT :=
  let t1 := time_ st + 1 in
  let V1 := var_update (variables_ st) treated_daily
              (fun A => array_zero_time A t1) in
  let V2 := var_update V1 treated_ineffective_daily
              (fun A => array_zero_time A t1) in
  let V3 := var_update V2 vaccinated_daily
              (fun A => array_zero_time A t1) in
  set_variables V3 st.

(** Lines 141-146. *)
Definition applyTreatments (st : SimT) : SimT :=
  let st1 := applyAntiviralsToPriorityGroupSelections
               (getAntiviralPriorityGroupSelections g_parameters) st in
  let st2 := applyAntiviralsToPriorityGroupSelections
               (Some priorityGroupSelectionsAll) st1 in
  let st3 := applyVaccinesToPriorityGroupSelections
               (getVaccinePriorityGroupSelections g_parameters) st2 in
  applyVaccinesToPriorityGroupSelections (Some priorityGroupSelectionsAll) st3.

(** Lines 158-183: drain the events of one node that fall in the day. *)
Fixpoint processNodeEvents (fuel0 fuel : nat) (nodeId : Z) (st : SimT)
  : option SimT :=
  match scheduleEventQueues_ st nodeId with
  | [] => Some st
  | s0 :: q0 =>
      if Qltb (Heap.key (Heap.topFrom s0 q0)) (inject_Z (time_ st) + 1)%Q then
        match fuel with
        | O => None
        | S fuel' =>
            let schedule := Heap.topFrom s0 q0 in
            let st1 := set_queue nodeId (Heap.popFrom s0 q0) st in
            if negb (Schedule.empty schedule)
               && negb (Schedule.canceled schedule)
            then
              let event := Schedule.getTopEvent schedule in
              let schedule' := Schedule.popTopEvent schedule in
              let st2 := set_now (time event) st1 in
              match processEvent fuel0 nodeId event st2 with
              | None => None
              | Some (_, st3) =>
                  let st4 :=
                    if negb (Schedule.empty schedule')
                    then set_queue nodeId
                           (Heap.push schedule'
                              (scheduleEventQueues_ st3 nodeId)) st3
                    else st3 in
                  processNodeEvents fuel0 fuel' nodeId st4
              end
            else processNodeEvents fuel0 fuel' nodeId st1
        end
      else Some st
  end.

Definition processEvents (fuel : nat) (st : SimT) : option SimT :=
  fold_left (fun acc nodeId =>
               match acc with
               | None => None
               | Some st' => processNodeEvents fuel fuel nodeId st'
               end)
    (nodeIds_ st) (Some st).

(** The ILI bookkeeping of lines 192-206 only appends to [iliValues_],
    which no other part of the simulator reads; it is left out. *)
Definition simulate (fuel : nat) (st : SimT) : option SimT :=
  let st1 := set_now (inject_Z (time_ st)) st in
  let st2 := EpidemicSimulation_simulate st1 in
  let st3 := resetDailyCounters st2 in
  let st4 := applyTreatments st3 in
  let st5 := precompute (time_ st4 + 1) st4 in
  match processEvents fuel st5 with
  | None => None
  | Some st6 =>
      let st7 := set_now (inject_Z (time_ st6) + 1)%Q st6 in
      match travel fuel st7 with
      | None => None
      | Some st8 => Some (set_time (time_ st8 + 1) st8)
      end
  end.

End Model.

(** ** Properties of the variable arrays *)

(** A stratum inside the extent of the arrays. *)
Definition inRange (a r v : Z) : bool :=
  (0 <=? a) && (a <? numAgeGroups_) && (0 <=? r) && (r <? numRiskGroups_)
  && (0 <=? v) && (v <? numVaccinatedGroups_).

(** Sum of one variable over all strata of a node at a time step. *)
Definition nodeTotal (V : Variables) (x : VariableName) (t n : Z) : Z :=
  sum3 (V x t n).

(** susceptible + exposed + asymptomatic + treatable + infectious +
    recovered + deceased, over all strata. *)
Definition compartmentTotal (V : Variables) (t n : Z) : Z :=
  sumZ compartmentNames (fun x => nodeTotal V x t n).

Definition Conservation (V : Variables) : Prop :=
  forall t n, compartmentTotal V t n = nodeTotal V population t n.

(** The variable updates the simulator performs. *)

(** [transition(num, from, to, ...)] at a cell. *)
Definition transitionVars (V : Variables) (from to : VariableName)
           (t n a r v num : Z) : Variables :=
  let available := V from t n a r v in
  let moved := if available <? num then available else num in
  var_update
    (var_update V from (fun A => array_add A t n a r v (- moved)))
    to (fun A => array_add A t n a r v moved).

(** The daily bookkeeping of an antiviral treatment (lines 600-606). *)
Definition treatVars (V : Variables) (t n a r v nT nE : Z) : Variables :=
  var_update
    (var_update
       (var_update V treated_daily (fun A => array_add A t n a r v nT))
       treated_ineffective_daily (fun A => array_add A t n a r v (nT - nE)))
    treated (fun A => array_add A t n a r v nT).

(** The compartment move of a vaccination (lines 810-818). *)
Definition vaccinateVars (V : Variables) (comp : VariableName)
           (t n a r nV : Z) : Variables :=
  var_update
    (var_update
       (var_update
          (var_update
             (var_update V comp (fun A => array_add A t n a r 0 (- nV)))
             comp (fun A => array_add A t n a r 1 nV))
          population (fun A => array_add A t n a r 0 (- nV)))
       population (fun A => array_add A t n a r 1 nV))
    vaccinated_daily (fun A => array_add A t n a r 1 nV).

(** The moves made by disease-transition events. *)
Definition diseaseMoves : list (VariableName * VariableName) :=
  [ (exposed, asymptomatic); (asymptomatic, treatable);
    (asymptomatic, recovered); (asymptomatic, deceased);
    (treatable, infectious); (treatable, recovered); (treatable, deceased);
    (infectious, recovered); (infectious, deceased) ].

Definition vaccinatedCompartments : list VariableName :=
  [susceptible; exposed; asymptomatic; treatable; infectious; recovered].

Section Steps.
Context {MTRand gsl_rng : Type} {Ext : Externals MTRand gsl_rng}.
Variable g_parameters : Parameters.

(** The number handed to [expose]: one for a contact, a binomial draw for
    travel, anything for the initial cases. *)
Inductive exposureCount : Z -> Prop :=
| exposure_contact : exposureCount 1
| exposure_travel : forall g p k,
    exposureCount (fst (gsl_ran_binomial g p k)).

(** One update of the variable arrays during a day whose new time step is
    [t1], the base class writing at time step [tf]; every update made
    between the reset of the daily counters and the end of [simulate] is
    one of these.  The flags tell whether antiviral treatments and
    vaccinations are among the updates. *)
Inductive VStep (av vx : bool) (tf t1 : Z) : Variables -> Variables -> Prop :=
| VStep_event : forall V x y n a r v,
    In (x, y) diseaseMoves ->
    VStep av vx tf t1 V (transitionVars V x y tf n a r v 1)
| VStep_expose : forall V n a r v num,
    exposureCount num ->
    VStep av vx tf t1 V (transitionVars V susceptible exposed tf n a r v num)
| VStep_antiviral : forall V n a r v nT,
    av = true ->
    0 < nT ->
    let nE := Qtrunc (getAntiviralEffectiveness g_parameters * inject_Z nT) in
    VStep av vx tf t1 V
      (treatVars (transitionVars V treatable recovered tf n a r v nE)
         t1 n a r v nT nE)
| VStep_vaccine : forall (V : Variables) comp n a r nV total used,
    vx = true ->
    In comp vaccinatedCompartments ->
    0 < nV -> 0 < used -> used <= Qtrunc total ->
    0 < V population t1 n a r 0 ->
    nV = Qtrunc
           ((getVaccineAdherence g_parameters
             * inject_Z (V population t1 n a r 0%Z
                         + V population t1 n a r 1%Z)%Z
             - inject_Z (V population t1 n a r 1%Z))
            * inject_Z (V comp t1 n a r 0%Z)
            / inject_Z (V population t1 n a r 0%Z)
            / total * inject_Z used)%Q ->
    VStep av vx tf t1 V (vaccinateVars V comp t1 n a r nV).

Inductive VSteps (av vx : bool) (tf t1 : Z) : Variables -> Variables -> Prop :=
| VSteps_refl : forall V, VSteps av vx tf t1 V V
| VSteps_step : forall V1 V2 V3,
    VSteps av vx tf t1 V1 V2 -> VStep av vx tf t1 V2 V3 ->
    VSteps av vx tf t1 V1 V3.

End Steps.

(** All compartments hold non-negative counts, and so does the population
    of every (age group, risk group). *)
Definition NonNegative (V : Variables) : Prop :=
  (forall x t n a r v, In x compartmentNames -> 0 <= V x t n a r v)
  /\ (forall t n a r, 0 <= V population t n a r 0 + V population t n a r 1).

(** Everything but the log. *)
Definition sameSimulationState {MTRand gsl_rng : Type}
           (st st' : Sim MTRand gsl_rng) : Prop :=
  time_ st' = time_ st /\ numTimes_ st' = numTimes_ st
  /\ nodeIds_ st' = nodeIds_ st /\ nodeIdToIndex_ st' = nodeIdToIndex_ st
  /\ stratifications_ st' = stratifications_ st
  /\ variables_ st' = variables_ st /\ travel_ st' = travel_ st
  /\ stockpileNetwork_ st' = stockpileNetwork_ st
  /\ rand_ st' = rand_ st /\ randGenerator_ st' = randGenerator_ st
  /\ now_ st' = now_ st
  /\ scheduleEventQueues_ st' = scheduleEventQueues_ st
  /\ cachedTime_ st' = cachedTime_ st
  /\ populationNodes_ st' = populationNodes_ st
  /\ populations_ st' = populations_ st.

(** The members no step of a day changes. *)
Definition Frame {MTRand gsl_rng : Type} (st st' : Sim MTRand gsl_rng) : Prop :=
  time_ st' = time_ st /\ numTimes_ st' = numTimes_ st
  /\ nodeIds_ st' = nodeIds_ st /\ nodeIdToIndex_ st' = nodeIdToIndex_ st
  /\ stratifications_ st' = stratifications_ st /\ travel_ st' = travel_ st.

(** [st'] is reached from [st] within the day that fills time step
    [time_ st + 1]. *)
Definition DayStep {MTRand gsl_rng : Type} {Ext : Externals MTRand gsl_rng}
           (g_parameters : Parameters) (av vx : bool)
           (st st' : Sim MTRand gsl_rng) : Prop :=
  Frame st st'
  /\ VSteps g_parameters av vx (numTimes_ st - 1) (time_ st + 1)
       (variables_ st) (variables_ st').

Section DayStart.
Context {MTRand gsl_rng : Type} {Ext : Externals MTRand gsl_rng}.

(** The state in which the day's updates start: variables copied forward
    and daily counters reset (lines 114-139 of [simulate]). *)
Definition dayStart (st : Sim MTRand gsl_rng) : Sim MTRand gsl_rng :=
  resetDailyCounters
    (EpidemicSimulation_simulate (set_now (inject_Z (time_ st)) st)).
End DayStart.

(** What adding [d] at cell (t, n, a, r, v) adds to the node total at
    (t', n'). *)
Definition cellDelta (t n a r v d t' n' : Z) : Z :=
  if (t' =? t) && (n' =? n) && inRange a r v then d else 0.

Section ExposePrecomputed.
Context {MTRand gsl_rng : Type} {Ext : Externals MTRand gsl_rng}.

(** The state in which [expose] hands over to the base class (lines
    79-93). *)
Definition exposePrecomputed (st : Sim MTRand gsl_rng) : Sim MTRand gsl_rng :=
  if (time_ st =? 0) && (cachedTime_ st =? -1) then
    precompute 0
      (put_flog LOG_DEBUG "precomputing at beginning of simulation" st)
  else if negb (time_ st =? 0) && negb (cachedTime_ st =? time_ st + 1) then
    precompute (time_ st + 1)
      (put_flog LOG_WARN
         "precomputing during simulation! should not be necessary." st)
  else st.
End ExposePrecomputed.

(** ** A concrete world, used to run the model on explicit inputs *)

Module Example.

(** Scripted generators: the state is the list of the raw outputs still to
    come; an exhausted script yields zeros. *)
Definition next (g : list Z) : Z * list Z :=
  match g with
  | [] => (0, [])
  | x :: g' => (x, g')
  end.

Definition chain (now : Q) (strat : list Z) : StochasticSEATIRDSchedule :=
  mkSchedule SchedState.E strat
    [ mkEvent now (now + (1 # 4)) EtoA strat [];
      mkEvent now (now + (1 # 2)) AtoT strat [];
      mkEvent now (now + 2) TtoR strat [] ]
    false (now + (1 # 4)) (now + 2).

#[global] Instance scripted : Externals (list Z) (list Z) := {|
  randInt := fun n g =>
    let '(x, g') := next g in
    (if n <? 0 then 0 else x mod (n + 1), g');
  rand := fun g => let '(x, g') := next g in (inject_Z x / 100, g')%Q;
  random_exponential := fun rate g =>
    let '(x, g') := next g in (inject_Z (Z.max 1 x) / 2, g')%Q;
  gsl_ran_binomial := fun g p n =>
    let '(x, g') := next g in (Z.max 0 (Z.min x n), g');
  newSchedule := fun _ now g strat => (chain now strat, g);
  isNpiEffective := fun _ _ _ _ _ => false;
  getNpiEffectiveness := fun _ _ _ _ _ => 0%Q;
  evolveStockpileNetwork := fun t net =>
    mkStockpileNetwork (getNodeStockpile net)
      (fun p t' ty => if t' =? t + 1 then stockpileStore net p t ty
                      else stockpileStore net p t' ty)
|}.

Definition parameters : Parameters :=
  mkParameters 2 50 1 1 1 1 1
    (1 # 2) (4 # 5) (1 # 10)
    (7 # 10) 1 1
    2 []
    (Some (mkPriorityGroupSelections
             [ mkPriorityGroup "infants"
                 [ [0]; [STRATIFICATIONS_ALL]; [STRATIFICATIONS_ALL] ] ]))
    None.

(** Two nodes (ids 10 and 20); every unvaccinated stratum of a node starts
    with 100 people, the vaccinated strata are empty. *)
Definition initialCounts (x : VariableName) : Z :=
  match x with
  | susceptible => 90
  | asymptomatic => 2
  | treatable => 5
  | recovered => 3
  | population => 100
  | _ => 0
  end.

Definition variables0 : Variables :=
  fun x t n a r v =>
    if (t =? 0) && ((n =? 0) || (n =? 1)) && inRange a r v && (v =? 0)
    then initialCounts x else 0.

Definition network (antivirals vaccines : Z) : StockpileNetwork :=
  mkStockpileNetwork
    (fun nodeId => if nodeId =? 10 then Some 1 else None)
    (fun _ _ ty => match ty with
                   | STOCKPILE_ANTIVIRALS => antivirals
                   | STOCKPILE_VACCINES => vaccines
                   end).

(** A treatable individual about to recover, and an asymptomatic one with
    a contact pending. *)
Definition queue10 : list StochasticSEATIRDSchedule :=
  [ mkSchedule SchedState.T [0; 0; 0]
      [ mkEvent 0 (1 # 2) TtoR [0; 0; 0] [] ] false 0 (1 # 2);
    mkSchedule SchedState.A [1; 0; 0]
      [ mkEvent 0 (1 # 4) CONTACT [1; 0; 0] [0; 0];
        mkEvent 0 (3 # 2) AtoR [1; 0; 0] [] ] false 0 (3 # 2) ].

Definition state (antivirals vaccines : Z) (mt gsl : list Z)
  : Sim (list Z) (list Z) :=
  mkSim 0 1 [10; 20]
    (fun nodeId => if nodeId =? 20 then 1 else 0)
    [ ["0-4"; "5-24"; "25-49"; "50-64"; "65+"];
      ["low"; "high"]; ["unvaccinated"; "vaccinated"] ]%string
    variables0
    (fun _ _ => 1 # 100)
    (network antivirals vaccines)
    mt gsl 0
    (fun nodeId => if nodeId =? 10 then queue10 else [])
    (-1) (fun _ => 0) (fun _ _ _ _ => 0) [].

Definition state0 : Sim (list Z) (list Z) :=
  state 50 30 [7; 3; 50; 20; 9; 1; 60] [2; 0; 1; 3].


(** The variables after one simulated day (the initial ones if the fuel
    does not suffice). *)
Definition after (fuel : nat) (p : Parameters) (st : Sim (list Z) (list Z))
  : Variables :=
  match simulate p fuel st with
  | Some st' => variables_ st'
  | None => variables_ st
  end.

Definition finishes (fuel : nat) (p : Parameters)
           (st : Sim (list Z) (list Z)) : bool :=
  match simulate p fuel st with
  | Some _ => true
  | None => false
  end.

End Example.

(** The amount [transition] moves. *)
Definition movedBy (V : Variables) (x : VariableName) (t n a r v num : Z) : Z :=
  if V x t n a r v <? num then V x t n a r v else num.

(** The three per-day counters. *)
Definition dailyCounters : list VariableName :=
  [treated_daily; treated_ineffective_daily; vaccinated_daily].

Definition isDailyCounter (x : VariableName) : bool :=
  match x with
  | treated_daily | treated_ineffective_daily | vaccinated_daily => true
  | _ => false
  end.

Section TreatmentPasses.
Context {MTRand gsl_rng : Type} {Ext : Externals MTRand gsl_rng}.
Variable g_parameters : Parameters.


End TreatmentPasses.

(** Treatable individuals not yet treated in vain today, at a stratum. *)
Definition untreated (V : Variables) (t n a r v : Z) : Z :=
  V treatable t n a r v - V treated_ineffective_daily t n a r v.

Definition untreatedAt (V : Variables) (t n : Z) (s : list Z) : Z :=
  untreated V t n (nth 0 s 0) (nth 1 s 0) (nth 2 s 0).


Definition UntreatedNonNegative (V : Variables) (t : Z) : Prop :=
  forall n a r v, 0 <= untreated V t n a r v.



(** ** Definitions used by the statements below *)


(** The GSL generator is where it was. *)
Definition keepsGsl {MTRand gsl_rng : Type} (st st' : Sim MTRand gsl_rng)
  : Prop :=
  randGenerator_ st' = randGenerator_ st.

Section TravelFormula.
Context {MTRand gsl_rng : Type} {Ext : Externals MTRand gsl_rng}.
Variable g_parameters : Parameters.

(** The infectious-contact sum as the design text words it, for both
    directions: over partner age [b], with the transmitting count
    (asymptomatic + treatable + infectious) of the source node; the text
    leaves open at which node the NPI effectiveness is taken and whether
    the flow reduction is that of [a] or of [b]. *)
Definition statedInfectiousContacts (st : Sim MTRand gsl_rng)
           (npiNodeId sourceNodeId a : Z) (flowReductionOfPartner : bool)
  : Q :=
  sumQ ageGroups (fun b =>
    (1 - getNpiEffectiveness (getNpis g_parameters) npiNodeId
           (Qtrunc (now_ st)) a b)
    * inject_Z (transmittings st sourceNodeId b)
    * beta g_parameters * (39 # 100) * contact a b * sigma a
    / ageBasedFlowReductions (if flowReductionOfPartner then b else a))%Q.

(** What one source node adds to the exposure probability of age [a] at
    the sink: nothing for the sink itself, for a pair of nodes without
    travel, or outside the age groups. *)
Definition travelContribution (st : Sim MTRand gsl_rng)
           (sinkNodeId sourceNodeId a : Z) : Q :=
  if negb (sinkNodeId =? sourceNodeId)
     && (Qltb 0 (getTravel st sinkNodeId sourceNodeId)
         || Qltb 0 (getTravel st sourceNodeId sinkNodeId))
     && ((0 <=? a) && (a <? numAgeGroups_))
  then
    (getTravel st sinkNodeId sourceNodeId
     * numberOfInfectiousContactsIJ g_parameters st sinkNodeId sourceNodeId a
     / inject_Z (populationNodes_ st (nodeIdToIndex_ st sourceNodeId))
     + getTravel st sourceNodeId sinkNodeId
       * numberOfInfectiousContactsJI g_parameters st sinkNodeId sourceNodeId a
       / inject_Z (populationNodes_ st (nodeIdToIndex_ st sinkNodeId)))%Q
  else 0%Q.
End TravelFormula.

(** A world whose infected are all symptomatic: five treatable individuals
    in every unvaccinated stratum of both nodes, nobody asymptomatic. *)
Definition symptomaticVariables : Variables :=
  fun x t n a r v =>
    if ((n =? 0) || (n =? 1)) && inRange a r v && (v =? 0)
    then match x with
         | susceptible => 95
         | treatable => 5
         | population => 100
         | _ => 0
         end
    else 0.

Definition symptomaticState : Sim (list Z) (list Z) :=
  set_variables symptomaticVariables Example.state0.


(** The schedule queue of a node holds no event that is due before the end
    of the day being simulated: the guard of the loop of lines 158-183 is
    false. *)
Definition noDueEvent {MTRand gsl_rng : Type} (st : Sim MTRand gsl_rng)
           (nodeId : Z) : bool :=
  match scheduleEventQueues_ st nodeId with
  | [] => true
  | s0 :: q0 =>
      negb (Qltb (Heap.key (Heap.topFrom s0 q0)) (inject_Z (time_ st) + 1)%Q)
  end.

(** The queue of [nodeId] gained the schedules [new] at its end; the queues
    of the other nodes are as they were. *)
Definition queueGained {MTRand gsl_rng : Type} (nodeId : Z)
           (new : list StochasticSEATIRDSchedule)
           (st st' : Sim MTRand gsl_rng) : Prop :=
  scheduleEventQueues_ st' nodeId = scheduleEventQueues_ st nodeId ++ new
  /\ forall n, n <> nodeId ->
       scheduleEventQueues_ st' n = scheduleEventQueues_ st n.

(** The example world at the point where [simulate] starts to process the
    events of the first day. *)
Definition exampleBeforeEvents : Sim (list Z) (list Z) :=
  precompute 1 (applyTreatments Example.parameters (dayStart Example.state0)).

Definition exampleEventsProcessed : bool :=
  match processEvents Example.parameters 50 exampleBeforeEvents with
  | Some st' => forallb (noDueEvent st') (nodeIds_ st')
  | None => false
  end.

(** A contact event as [initializeContactEvents] lays them out for an
    individual of stratum [strat] infectious between [tMin] and [tMax]. *)
Definition contactEventOf (strat : list Z) (tMin tMax : Q)
           (e : StochasticSEATIRDEvent) : Prop :=
  type e = CONTACT
  /\ fromStratificationValues e = strat
  /\ (exists a r, In a ageGroups /\ In r riskGroups
                  /\ toStratificationValues e = [a; r])
  /\ (tMin <= initializationTime e)%Q
  /\ (initializationTime e <= time e)%Q
  /\ (time e < tMax)%Q.

(** The members of a schedule other than its events. *)
Definition sameScheduleHeader (s s' : StochasticSEATIRDSchedule) : Prop :=
  state_ s' = state_ s /\ stratificationValues_ s' = stratificationValues_ s
  /\ canceled_ s' = canceled_ s /\ infectedTMin_ s' = infectedTMin_ s
  /\ infectedTMax_ s' = infectedTMax_ s.

(** What an antiviral treatment may do to a schedule: cancel it, if it is
    the schedule of a treatable individual that is not yet canceled. *)
Definition canceledByTreatment (s s' : StochasticSEATIRDSchedule) : Prop :=
  s' = s
  \/ (s' = Schedule.cancel s /\ Schedule.getState s = SchedState.T
      /\ Schedule.canceled s = false).

(** What a vaccination may do to a schedule: move it, with its events, to
    the vaccinated stratification, if it is a schedule of an unvaccinated
    individual that is not canceled. *)
Definition movedByVaccination (s s' : StochasticSEATIRDSchedule) : Prop :=
  s' = s
  \/ (s' = Schedule.changeStratificationValues
             (setVaccinated 1 (Schedule.getStratificationValues s)) s
      /\ nth 2 (Schedule.getStratificationValues s) 0 <> 1
      /\ Schedule.getState s <> SchedState.D
      /\ Schedule.canceled s = false).

(** What holds along an antiviral pass, for a property [P] of the variable
    arrays: the time steps written to are [tf] and [t1], and [P] holds. *)
Definition antiviralPassInv {MTRand gsl_rng : Type} (P : Variables -> Prop)
           (tf t1 : Z) (st : Sim MTRand gsl_rng) : Prop :=
  frontier st = tf /\ time_ st + 1 = t1 /\ P (variables_ st).

(** The same along a vaccine pass. *)
Definition vaccinePassInv {MTRand gsl_rng : Type} (P : Variables -> Prop)
           (t1 : Z) (st : Sim MTRand gsl_rng) : Prop :=
  time_ st + 1 = t1 /\ P (variables_ st).



(** What a travel step that exposes nobody keeps of the state [st0]. *)
Definition keptByTravel {MTRand gsl_rng : Type} (st0 st : Sim MTRand gsl_rng)
  : Prop :=
  Frame st0 st
  /\ (forall x t n a r v, variables_ st x t n a r v = variables_ st0 x t n a r v)
  /\ scheduleEventQueues_ st = scheduleEventQueues_ st0
  /\ rand_ st = rand_ st0.

(** The cache and the clock are as they were, and so is what [Frame]
    lists. *)
Definition cacheKept {MTRand gsl_rng : Type} (st st' : Sim MTRand gsl_rng)
  : Prop :=
  Frame st st'
  /\ cachedTime_ st' = cachedTime_ st
  /\ populationNodes_ st' = populationNodes_ st
  /\ populations_ st' = populations_ st.

Definition cacheAndClockKept {MTRand gsl_rng : Type}
           (st st' : Sim MTRand gsl_rng) : Prop :=
  cacheKept st st' /\ now_ st' = now_ st.

#[global] Arguments transition : simpl never.
#[global] Arguments getValue : simpl never.
#[global] Arguments getValueSet : simpl never.
#[global] Arguments Qtrunc : simpl never.

(** * Proofs *)

(** * Arithmetic of the cast to [int] *)

Lemma Qtrunc_nonneg_floor (q : Q) : (0 <= q)%Q -> Qtrunc q = Qfloor q.
Proof.
  destruct q as [num den]. unfold Qle, Qtrunc, Qfloor. simpl. intros H.
  apply Z.quot_div_nonneg; lia.
Qed.

Lemma Qtrunc_le (q : Q) : (0 <= q)%Q -> (inject_Z (Qtrunc q) <= q)%Q.
Proof.
  intros H. rewrite Qtrunc_nonneg_floor by exact H. apply Qfloor_le.
Qed.

Lemma Qtrunc_nonpos (q : Q) : (q <= 0)%Q -> Qtrunc q <= 0.
Proof.
  destruct q as [num den]. unfold Qle, Qtrunc. simpl. intros H.
  assert (Hn : num <= 0) by lia.
  rewrite <- (Z.opp_involutive num), Z.quot_opp_l by lia.
  assert (0 <= Z.quot (- num) (Z.pos den)) by (apply Z.quot_pos; lia).
  lia.
Qed.

Lemma Qtrunc_pos (q : Q) : 0 < Qtrunc q -> (0 < q)%Q.
Proof.
  intros H. destruct (Qlt_le_dec 0 q) as [Hq | Hq]; [exact Hq |].
  apply Qtrunc_nonpos in Hq. lia.
Qed.

Lemma Qtrunc_pos_le (q : Q) : 0 < Qtrunc q -> (inject_Z (Qtrunc q) <= q)%Q.
Proof.
  intros H. apply Qtrunc_le. apply Qlt_le_weak, Qtrunc_pos, H.
Qed.

Lemma Qtrunc_pos_floor (q : Q) : 0 < Qtrunc q -> Qtrunc q = Qfloor q.
Proof.
  intros H. apply Qtrunc_nonneg_floor, Qlt_le_weak, Qtrunc_pos, H.
Qed.



Lemma Qtrunc_le_bound (q : Q) (z : Z) :
  (q <= inject_Z z)%Q -> 0 <= z -> Qtrunc q <= z.
Proof.
  intros H Hz. destruct (Qlt_le_dec q 0) as [Hq | Hq].
  - apply Qlt_le_weak, Qtrunc_nonpos in Hq. lia.
  - rewrite Qtrunc_nonneg_floor by exact Hq.
    assert (Hf : (inject_Z (Qfloor q) <= inject_Z z)%Q).
    { eapply Qle_trans; [apply Qfloor_le | exact H]. }
    rewrite <- Zle_Qle in Hf. exact Hf.
Qed.

Lemma Qtrunc_nonneg (q : Q) : (0 <= q)%Q -> 0 <= Qtrunc q.
Proof.
  intros H. rewrite Qtrunc_nonneg_floor by exact H.
  assert (Hf : (0 <= Qfloor q)%Z).
  { change 0 with (Qfloor 0). apply Qfloor_resp_le. exact H. }
  exact Hf.
Qed.

(** A share of a share: with [X <= u] and [k <= T] the amount
    [X * c / u / T * k] stays below [c]. *)
Lemma Qshare_le (X c u T k : Q) :
  (0 <= c)%Q -> (0 < u)%Q -> (X <= u)%Q -> (0 < k)%Q -> (k <= T)%Q ->
  (0 < X * c / u / T * k)%Q -> (X * c / u / T * k <= c)%Q.
Proof.
  intros Hc Hu HX Hk HkT Hq.
  assert (HT : (0 < T)%Q) by exact (Qlt_le_trans 0 k T Hk HkT).
  assert (H1 : (X / u <= 1)%Q).
  { apply Qle_shift_div_r; [exact Hu | rewrite Qmult_1_l; exact HX]. }
  assert (H2 : (k / T <= 1)%Q).
  { apply Qle_shift_div_r; [exact HT | rewrite Qmult_1_l; exact HkT]. }
  assert (H3 : (0 < k / T)%Q).
  { apply Qlt_shift_div_l; [exact HT | rewrite Qmult_0_l; exact Hk]. }
  assert (Hq' : (X * c / u / T * k == c * (X / u) * (k / T))%Q).
  { field. split; intros E; rewrite E in *; 
      [apply (Qlt_irrefl 0 HT) | apply (Qlt_irrefl 0 Hu)]. }
  rewrite Hq' in *. clear Hq'.
  generalize dependent (X / u)%Q. generalize dependent (k / T)%Q.
  intros b H2 H3 a Hq H1.
  clear Hu HX Hk HkT HT.
  assert (Hprod : forall ab : Q, (0 <= ab)%Q -> (ab <= 1)%Q -> (c * ab <= c)%Q).
  { intros ab Hab0 Hab.
    assert (Hc' : (0 <= c * (1 - ab))%Q) by (apply Qmult_le_0_compat; lra).
    assert (Heq : (c * (1 - ab) == c - c * ab)%Q) by ring.
    rewrite Heq in Hc'. generalize dependent (c * ab)%Q. intros. lra. }
  destruct (Qlt_le_dec 0 a) as [H4 | H4].
  - rewrite <- Qmult_assoc. apply Hprod.
    + apply Qmult_le_0_compat; lra.
    + assert (Hb : (a * b <= 1 * 1)%Q) by (apply Qmult_le_compat_nonneg; split; lra).
      lra.
  - exfalso.
    assert (Hassoc : (c * a * b == c * (a * b))%Q) by ring.
    rewrite Hassoc in Hq.
    assert (Hneg : (0 <= c * ((- a) * b))%Q).
    { apply Qmult_le_0_compat; [exact Hc |]. apply Qmult_le_0_compat; lra. }
    assert (Heq : (c * ((- a) * b) == - (c * (a * b)))%Q) by ring.
    rewrite Heq in Hneg. generalize dependent (c * (a * b))%Q. intros. lra.
Qed.

(** * Finite sums *)

Lemma sumZ_ext {X} (l : list X) (f g : X -> Z) :
  (forall x, In x l -> f x = g x) -> sumZ l f = sumZ l g.
Proof.
  induction l as [| x l IH]; simpl; intros H; [reflexivity |].
  rewrite (H x) by (left; reflexivity). rewrite IH; [reflexivity |].
  intros y Hy. apply H. right. exact Hy.
Qed.

Lemma sumZ_plus {X} (l : list X) (f g : X -> Z) :
  sumZ l (fun x => f x + g x) = sumZ l f + sumZ l g.
Proof. induction l as [| x l IH]; simpl; [reflexivity | rewrite IH; lia]. Qed.

Lemma sumZ_const0 {X} (l : list X) : sumZ l (fun _ => 0) = 0.
Proof. induction l as [| x l IH]; simpl; [reflexivity | rewrite IH; lia]. Qed.


Lemma sumZ_le {X} (l : list X) (f g : X -> Z) :
  (forall x, In x l -> f x <= g x) -> sumZ l f <= sumZ l g.
Proof.
  induction l as [| x l IH]; simpl; intros H; [lia |].
  assert (f x <= g x) by (apply H; left; reflexivity).
  assert (sumZ l f <= sumZ l g) by (apply IH; intros; apply H; right; assumption).
  lia.
Qed.

(** A function changed at one point changes the sum by that point's
    difference, when the point is summed over. *)
Lemma sumZ_point (l : list Z) (p : Z) (f g : Z -> Z) :
  NoDup l -> (forall x, x <> p -> g x = f x) ->
  sumZ l g = sumZ l f + (if in_dec Z.eq_dec p l then g p - f p else 0).
Proof.
  intros Hnd Hfg. induction Hnd as [| x l Hx Hnd IH]; simpl; [reflexivity |].
  rewrite IH. destruct (Z.eq_dec x p) as [-> | Hne].
  - destruct (in_dec Z.eq_dec p l) as [Hin | _]; [contradiction | lia].
  - rewrite (Hfg x Hne).
    destruct (in_dec Z.eq_dec p l); lia.
Qed.

Lemma NoDup_ageGroups : NoDup ageGroups.
Proof. repeat constructor; simpl; intuition lia. Qed.
Lemma NoDup_riskGroups : NoDup riskGroups.
Proof. repeat constructor; simpl; intuition lia. Qed.
Lemma NoDup_vaccinatedGroups : NoDup vaccinatedGroups.
Proof. repeat constructor; simpl; intuition lia. Qed.

Lemma in_ageGroups a :
  (if in_dec Z.eq_dec a ageGroups then true else false)
  = (0 <=? a) && (a <? numAgeGroups_).
Proof.
  unfold numAgeGroups_.
  destruct (in_dec Z.eq_dec a ageGroups) as [H | H]; simpl in H.
  - symmetry. apply andb_true_iff. rewrite Z.leb_le, Z.ltb_lt. lia.
  - symmetry. apply andb_false_iff. rewrite Z.leb_gt, Z.ltb_ge. lia.
Qed.

Lemma in_riskGroups a :
  (if in_dec Z.eq_dec a riskGroups then true else false)
  = (0 <=? a) && (a <? numRiskGroups_).
Proof.
  unfold numRiskGroups_.
  destruct (in_dec Z.eq_dec a riskGroups) as [H | H]; simpl in H.
  - symmetry. apply andb_true_iff. rewrite Z.leb_le, Z.ltb_lt. lia.
  - symmetry. apply andb_false_iff. rewrite Z.leb_gt, Z.ltb_ge. lia.
Qed.

Lemma in_vaccinatedGroups a :
  (if in_dec Z.eq_dec a vaccinatedGroups then true else false)
  = (0 <=? a) && (a <? numVaccinatedGroups_).
Proof.
  unfold numVaccinatedGroups_.
  destruct (in_dec Z.eq_dec a vaccinatedGroups) as [H | H]; simpl in H.
  - symmetry. apply andb_true_iff. rewrite Z.leb_le, Z.ltb_lt. lia.
  - symmetry. apply andb_false_iff. rewrite Z.leb_gt, Z.ltb_ge. lia.
Qed.

(** [sum3] of a work array changed at one stratum. *)
Lemma sum3_point (A B : Array3) (a r v : Z) :
  (forall a' r' v', (a', r', v') <> (a, r, v) -> B a' r' v' = A a' r' v') ->
  sum3 B = sum3 A + (if inRange a r v then B a r v - A a r v else 0).
Proof.
  intros H. unfold sum3.
  assert (Hv : forall a' r', (a', r') <> (a, r) ->
             sumZ vaccinatedGroups (fun v' => B a' r' v')
             = sumZ vaccinatedGroups (fun v' => A a' r' v')).
  { intros a' r' Hne. apply sumZ_ext. intros v' _. apply H. congruence. }
  assert (Hr : forall a', a' <> a ->
             sumZ riskGroups (fun r' => sumZ vaccinatedGroups (fun v' => B a' r' v'))
             = sumZ riskGroups (fun r' => sumZ vaccinatedGroups (fun v' => A a' r' v'))).
  { intros a' Hne. apply sumZ_ext. intros r' _. apply Hv. congruence. }
  rewrite (sumZ_point ageGroups a _ _ NoDup_ageGroups Hr). cbv beta.
  f_equal.
  assert (Hr' : forall r', r' <> r ->
             sumZ vaccinatedGroups (fun v' => B a r' v')
             = sumZ vaccinatedGroups (fun v' => A a r' v')).
  { intros r' Hne. apply Hv. congruence. }
  rewrite (sumZ_point riskGroups r _ _ NoDup_riskGroups Hr'). cbv beta.
  assert (Hv' : forall v', v' <> v -> B a r v' = A a r v').
  { intros v' Hne. apply H. congruence. }
  rewrite (sumZ_point vaccinatedGroups v (fun v' => A a r v')
             (fun v' => B a r v') NoDup_vaccinatedGroups Hv').
  replace (inRange a r v)
    with (((0 <=? a) && (a <? numAgeGroups_))
          && ((0 <=? r) && (r <? numRiskGroups_))
          && ((0 <=? v) && (v <? numVaccinatedGroups_)))
    by (unfold inRange; rewrite !andb_assoc; reflexivity).
  rewrite <- in_ageGroups, <- in_riskGroups, <- in_vaccinatedGroups.
  destruct (in_dec Z.eq_dec a ageGroups), (in_dec Z.eq_dec r riskGroups),
    (in_dec Z.eq_dec v vaccinatedGroups); simpl; lia.
Qed.

Lemma sum3_ext (A B : Array3) :
  (forall a r v, inRange a r v = true -> B a r v = A a r v) -> sum3 B = sum3 A.
Proof.
  intros H. unfold sum3.
  apply sumZ_ext. intros a Ha. apply sumZ_ext. intros r Hr.
  apply sumZ_ext. intros v Hv. apply H.
  unfold inRange, numAgeGroups_, numRiskGroups_, numVaccinatedGroups_.
  simpl in Ha, Hr, Hv.
  repeat (apply andb_true_iff; split); rewrite ?Z.leb_le, ?Z.ltb_lt; lia.
Qed.


(** * Array updates *)

Lemma sameCell_true t n a r v t' n' a' r' v' :
  sameCell t n a r v t' n' a' r' v' = true
  <-> t' = t /\ n' = n /\ a' = a /\ r' = r /\ v' = v.
Proof.
  unfold sameCell. rewrite !andb_true_iff, !Z.eqb_eq. tauto.
Qed.

Lemma array_add_same (A : Array5) t n a r v d :
  array_add A t n a r v d t n a r v = A t n a r v + d.
Proof.
  unfold array_add. 
  replace (sameCell t n a r v t n a r v) with true; [reflexivity |].
  symmetry. apply sameCell_true. tauto.
Qed.

Lemma array_add_other (A : Array5) t n a r v d t' n' a' r' v' :
  (t', n', a', r', v') <> (t, n, a, r, v) ->
  array_add A t n a r v d t' n' a' r' v' = A t' n' a' r' v'.
Proof.
  intros H. unfold array_add.
  destruct (sameCell t n a r v t' n' a' r' v') eqn:E; [| reflexivity].
  apply sameCell_true in E. destruct E as (-> & -> & -> & -> & ->).
  contradiction.
Qed.

Lemma array_add_cases (A : Array5) t n a r v d t' n' a' r' v' :
  array_add A t n a r v d t' n' a' r' v'
  = A t' n' a' r' v'
    + (if sameCell t n a r v t' n' a' r' v' then d else 0).
Proof. unfold array_add. destruct (sameCell _ _ _ _ _ _ _ _ _ _); lia. Qed.

(** Node total of an array after adding [d] at one cell. *)
Lemma sum3_array_add (A : Array5) t n a r v d t' n' :
  sum3 (array_add A t n a r v d t' n')
  = sum3 (A t' n')
    + (if (t' =? t) && (n' =? n) && inRange a r v then d else 0).
Proof.
  destruct ((t' =? t) && (n' =? n)) eqn:E.
  - apply andb_true_iff in E. destruct E as [Et En].
    apply Z.eqb_eq in Et, En. subst t' n'.
    rewrite (sum3_point (A t n) (array_add A t n a r v d t n) a r v).
    + rewrite array_add_same. simpl. destruct (inRange a r v); lia.
    + intros a' r' v' Hne. apply array_add_other. congruence.
  - simpl. rewrite Z.add_0_r. apply sum3_ext. intros a' r' v' _.
    apply array_add_other. intros Heq. inversion Heq; subst.
    rewrite !Z.eqb_refl in E. discriminate.
Qed.

Lemma VariableName_eqb_eq x y : VariableName_eqb x y = true <-> x = y.
Proof. destruct x, y; simpl; split; intros H; try reflexivity; discriminate. Qed.

Lemma VariableName_eqb_refl x : VariableName_eqb x x = true.
Proof. apply VariableName_eqb_eq. reflexivity. Qed.

Lemma VariableName_eqb_neq x y : x <> y -> VariableName_eqb x y = false.
Proof.
  intros H. destruct (VariableName_eqb x y) eqn:E; [| reflexivity].
  apply VariableName_eqb_eq in E. contradiction.
Qed.

Lemma var_update_same (V : Variables) x f : var_update V x f x = f (V x).
Proof. unfold var_update. rewrite VariableName_eqb_refl. reflexivity. Qed.

Lemma var_update_other (V : Variables) x y f :
  x <> y -> var_update V x f y = V y.
Proof. intros H. unfold var_update. rewrite VariableName_eqb_neq by exact H. reflexivity. Qed.

(** * Every update of a day is a step *)

Section StepLemmas.
Context {MTRand gsl_rng : Type} {Ext : Externals MTRand gsl_rng}.
Variable g_parameters : Parameters.
Variables av vx : bool.
Abbreviation SimT := (Sim MTRand gsl_rng).
Abbreviation Day := (DayStep g_parameters av vx).

Lemma VSteps_trans tf t1 (V1 V2 V3 : Variables) :
  VSteps g_parameters av vx tf t1 V1 V2 -> VSteps g_parameters av vx tf t1 V2 V3 ->
  VSteps g_parameters av vx tf t1 V1 V3.
Proof.
  intros H12 H23. induction H23 as [| V2 V3 V4 H23 IH H34].
  - exact H12.
  - eapply VSteps_step; [apply IH; exact H12 | exact H34].
Qed.

Lemma VSteps_one tf t1 (V1 V2 : Variables) :
  VStep g_parameters av vx tf t1 V1 V2 -> VSteps g_parameters av vx tf t1 V1 V2.
Proof. intros H. eapply VSteps_step; [apply VSteps_refl | exact H]. Qed.

Lemma Frame_refl (st : SimT) : Frame st st.
Proof. repeat split. Qed.

Lemma Frame_trans (st1 st2 st3 : SimT) :
  Frame st1 st2 -> Frame st2 st3 -> Frame st1 st3.
Proof. unfold Frame. intuition congruence. Qed.

Lemma Day_refl (st : SimT) : Day st st.
Proof. split; [apply Frame_refl | apply VSteps_refl]. Qed.

Lemma Day_trans (st1 st2 st3 : SimT) : Day st1 st2 -> Day st2 st3 -> Day st1 st3.
Proof.
  intros [F12 S12] [F23 S23]. split; [eapply Frame_trans; eauto |].
  assert (Ht : time_ st2 = time_ st1) by apply F12.
  assert (Hn : numTimes_ st2 = numTimes_ st1) by apply F12.
  rewrite Ht, Hn in S23. eapply VSteps_trans; eauto.
Qed.

(** A state that differs only in members outside the frame and keeps the
    variables. *)
Lemma Day_same_variables (st st' : SimT) :
  Frame st st' -> variables_ st' = variables_ st -> Day st st'.
Proof. intros F HV. split; [exact F |]. rewrite HV. apply VSteps_refl. Qed.

Lemma Day_put_flog lvl msg (st : SimT) : Day st (put_flog lvl msg st).
Proof. apply Day_same_variables; [repeat split | reflexivity]. Qed.

Lemma Day_set_rand g (st : SimT) : Day st (set_rand g st).
Proof. apply Day_same_variables; [repeat split | reflexivity]. Qed.

Lemma Day_set_randGenerator g (st : SimT) : Day st (set_randGenerator g st).
Proof. apply Day_same_variables; [repeat split | reflexivity]. Qed.

Lemma Day_set_now q (st : SimT) : Day st (set_now q st).
Proof. apply Day_same_variables; [repeat split | reflexivity]. Qed.

Lemma Day_set_queue nodeId q (st : SimT) : Day st (set_queue nodeId q st).
Proof. apply Day_same_variables; [repeat split | reflexivity]. Qed.

Lemma Day_set_stockpileNetwork net (st : SimT) :
  Day st (set_stockpileNetwork net st).
Proof. apply Day_same_variables; [repeat split | reflexivity]. Qed.

Lemma Day_precompute t (st : SimT) : Day st (precompute t st).
Proof.
  unfold precompute. destruct (precomputeNodes _ _ _ _ _ _) as [pn p].
  apply Day_same_variables; [repeat split | reflexivity].
Qed.

(** ** [transition] *)

Lemma transition_variables num x y nodeId strat (st : SimT) :
  variables_ (snd (transition num x y nodeId strat st))
  = transitionVars (variables_ st) x y (frontier st)
      (nodeIdToIndex_ st nodeId) (nth 0 strat 0) (nth 1 strat 0)
      (nth 2 strat 0) num.
Proof.
  unfold transition, transitionVars. simpl.
  destruct (_ <? num); reflexivity.
Qed.

Lemma transition_frame num x y nodeId strat (st : SimT) :
  Frame st (snd (transition num x y nodeId strat st)).
Proof.
  unfold transition. simpl. destruct (_ <? num); repeat split.
Qed.

Lemma Day_transition_event x y nodeId strat (st : SimT) :
  In (x, y) diseaseMoves -> Day st (snd (transition 1 x y nodeId strat st)).
Proof.
  intros H. split; [apply transition_frame |].
  rewrite transition_variables. apply VSteps_one, VStep_event, H.
Qed.

Lemma Day_base_expose num nodeId strat (st : SimT) :
  exposureCount num ->
  Day st (snd (EpidemicSimulation_expose num nodeId strat st)).
Proof.
  intros H. unfold EpidemicSimulation_expose.
  split; [apply transition_frame |].
  rewrite transition_variables. apply VSteps_one, VStep_expose, H.
Qed.

(** ** [expose] *)

Lemma initializeContactEvents_Day fuel schedule nodeId strat (st : SimT)
      schedule' st' :
  initializeContactEvents g_parameters fuel schedule nodeId strat st
  = Some (schedule', st') ->
  Day st st'.
Proof.
  unfold initializeContactEvents.
  destruct (negb (expectedStratifications st)).
  - intros H. inversion H; subst. apply Day_put_flog.
  - destruct (fold_left _ _ _) as [[s g] |]; [| discriminate].
    intros H. inversion H; subst. apply Day_set_rand.
Qed.

Lemma exposeSchedules_Day fuel count nodeId strat :
  forall (st st' : SimT),
    exposeSchedules g_parameters fuel count nodeId strat st = Some st' ->
    Day st st'.
Proof.
  induction count as [| count IH]; simpl; intros st st' H.
  - inversion H; subst. apply Day_refl.
  - destruct (newSchedule g_parameters (now_ st) (rand_ st) strat)
      as [schedule g].
    destruct (initializeContactEvents _ _ _ _ _ _) as [[schedule' st1] |] eqn:E;
      [| discriminate].
    apply initializeContactEvents_Day in E. apply IH in H.
    eapply Day_trans; [apply Day_set_rand |].
    eapply Day_trans; [exact E |].
    eapply Day_trans; [apply Day_set_queue | exact H].
Qed.

Lemma expose_Day fuel num nodeId strat (st : SimT) k st' :
  exposureCount num ->
  expose g_parameters fuel num nodeId strat st = Some (k, st') ->
  Day st st'.
Proof.
  intros Hnum. unfold expose.
  set (st1 := if (time_ st =? 0) && (cachedTime_ st =? -1) then _ else _).
  assert (H1 : Day st st1).
  { subst st1. destruct ((time_ st =? 0) && (cachedTime_ st =? -1)).
    - eapply Day_trans; [apply Day_put_flog | apply Day_precompute].
    - destruct (negb (time_ st =? 0) && negb (cachedTime_ st =? time_ st + 1)).
      + eapply Day_trans; [apply Day_put_flog | apply Day_precompute].
      + apply Day_refl. }
  pose proof (Day_base_expose num nodeId strat st1 Hnum) as H2.
  destruct (EpidemicSimulation_expose num nodeId strat st1) as [numExposed st2].
  simpl in H2.
  destruct (exposeSchedules _ _ _ _ _ _) as [st3 |] eqn:E; [| discriminate].
  intros H. inversion H; subst.
  apply exposeSchedules_Day in E.
  eapply Day_trans; [exact H1 |]. eapply Day_trans; [exact H2 | exact E].
Qed.

(** ** [processEvent] *)

Lemma contactDispatch_Day fuel nodeId event v (st st' : SimT) :
  contactDispatch g_parameters fuel nodeId event v st = Some st' -> Day st st'.
Proof.
  unfold contactDispatch.
  match goal with |- context [if ?c >? 0 then _ else _] => destruct (c >? 0) end.
  - destruct (randInt _ (rand_ st)) as [i g].
    match goal with |- context [if ?c then _ else _] => destruct c end.
    + destruct (expose _ _ _ _ _ _) as [[k st2] |] eqn:E; [| discriminate].
      intros H. inversion H; subst.
      eapply Day_trans; [apply Day_set_rand |].
      eapply expose_Day; [apply exposure_contact | exact E].
    + intros H. inversion H; subst. apply Day_set_rand.
  - intros H. inversion H; subst. apply Day_refl.
Qed.

Lemma processContact_Day fuel nodeId event (st : SimT) b st' :
  processContact g_parameters fuel nodeId event st = Some (b, st') ->
  Day st st'.
Proof.
  unfold processContact.
  destruct (negb _).
  { intros H. inversion H; subst. apply Day_put_flog. }
  destruct (isNpiEffective _ _ _ _ _).
  { intros H. inversion H; subst. apply Day_refl. }
  destruct (randInt _ (rand_ st)) as [i g].
  assert (Hd : forall v (s1 : SimT),
             Day st s1 ->
             match contactDispatch g_parameters fuel nodeId event v s1 with
             | Some st'' => Some (true, st'')
             | None => None
             end = Some (b, st') -> Day st st').
  { intros v s1 Hs1 H.
    destruct (contactDispatch _ _ _ _ _ s1) as [s2 |] eqn:E; [| discriminate].
    inversion H; subst. eapply Day_trans; [exact Hs1 |].
    eapply contactDispatch_Day, E. }
  destruct (_ >=? i + 1).
  - destruct (_ <? i + 1).
    + destruct (rand _) as [u g'].
      destruct (Qle_bool u _).
      * intros H. inversion H; subst.
        eapply Day_trans; apply Day_set_rand.
      * apply Hd. eapply Day_trans; apply Day_set_rand.
    + apply Hd. apply Day_set_rand.
  - apply Hd. apply Day_set_rand.
Qed.

Lemma processEvent_Day fuel nodeId event (st : SimT) b st' :
  processEvent g_parameters fuel nodeId event st = Some (b, st') ->
  Day st st'.
Proof.
  unfold processEvent.
  destruct (type event);
    try (intros H; inversion H; subst; apply Day_transition_event;
         simpl; tauto).
  apply processContact_Day.
Qed.

Lemma processNodeEvents_Day fuel0 fuel nodeId :
  forall (st st' : SimT),
    processNodeEvents g_parameters fuel0 fuel nodeId st = Some st' ->
    Day st st'.
Proof.
  induction fuel as [| fuel IH]; intros st st'; simpl.
  - destruct (scheduleEventQueues_ st nodeId) as [| s0 q0].
    + intros H. inversion H; subst. apply Day_refl.
    + destruct (Qltb _ _); [discriminate |].
      intros H. inversion H; subst. apply Day_refl.
  - destruct (scheduleEventQueues_ st nodeId) as [| s0 q0].
    + intros H. inversion H; subst. apply Day_refl.
    + destruct (Qltb _ _).
      2:{ intros H. inversion H; subst. apply Day_refl. }
      destruct (negb _ && negb _).
      * destruct (processEvent _ _ _ _ _) as [[b st3] |] eqn:E; [| discriminate].
        apply processEvent_Day in E. intros H. apply IH in H.
        eapply Day_trans; [apply Day_set_queue |].
        eapply Day_trans; [apply Day_set_now |].
        eapply Day_trans; [exact E |].
        eapply Day_trans; [| exact H].
        destruct (negb _); [apply Day_set_queue | apply Day_refl].
      * intros H. apply IH in H.
        eapply Day_trans; [apply Day_set_queue | exact H].
Qed.

(** A fold whose steps all stay within the day. *)
Lemma fold_option_Day {X} (f : option SimT -> X -> option SimT) (l : list X) :
  (forall x, f None x = None) ->
  (forall x (st st' : SimT), f (Some st) x = Some st' -> Day st st') ->
  forall (st st' : SimT), fold_left f l (Some st) = Some st' -> Day st st'.
Proof.
  intros Hnone Hstep. induction l as [| x l IH]; simpl; intros st st' H.
  - inversion H; subst. apply Day_refl.
  - destruct (f (Some st) x) as [st1 |] eqn:E.
    + eapply Day_trans; [eapply Hstep; exact E | apply IH; exact H].
    + exfalso. clear - H Hnone. induction l as [| y l IHl]; simpl in H.
      * discriminate.
      * rewrite Hnone in H. auto.
Qed.

Lemma processEvents_Day fuel (st st' : SimT) :
  processEvents g_parameters fuel st = Some st' -> Day st st'.
Proof.
  unfold processEvents. apply fold_option_Day.
  - reflexivity.
  - intros nodeId s s'. apply processNodeEvents_Day.
Qed.

(** ** [travel] *)

Lemma travelStratum_Day fuel sinkNodeId probs s (st st' : SimT) :
  travelStratum g_parameters fuel sinkNodeId probs (Some st) s = Some st' ->
  Day st st'.
Proof.
  unfold travelStratum. destruct s as [[a r] v].
  destruct (_ >? 0).
  - destruct (gsl_ran_binomial _ _ _) as [k g] eqn:Eb.
    destruct (expose _ _ _ _ _ _) as [[k' st2] |] eqn:E; [| discriminate].
    intros H. inversion H; subst.
    eapply Day_trans; [apply Day_set_randGenerator |].
    eapply expose_Day; [| exact E].
    match type of Eb with
    | gsl_ran_binomial ?g0 ?p0 ?n0 = _ =>
        replace k with (fst (gsl_ran_binomial g0 p0 n0))
          by (rewrite Eb; reflexivity)
    end.
    apply exposure_travel.
  - intros H. inversion H; subst. apply Day_refl.
Qed.

Lemma travelSink_Day fuel sinkNodeId (st st' : SimT) :
  travelSink g_parameters fuel (Some st) sinkNodeId = Some st' -> Day st st'.
Proof.
  unfold travelSink. apply fold_option_Day.
  - reflexivity.
  - intros s s1 s2. apply travelStratum_Day.
Qed.

Lemma travel_Day fuel (st st' : SimT) :
  travel g_parameters fuel st = Some st' -> Day st st'.
Proof.
  unfold travel. apply fold_option_Day.
  - reflexivity.
  - intros s s1 s2. apply travelSink_Day.
Qed.

(** A fold whose steps all stay within the day. *)
Lemma fold_Day {X W} (f : SimT * W -> X -> SimT * W) (l : list X) :
  (forall acc x, In x l -> Day (fst acc) (fst (f acc x))) ->
  forall acc, Day (fst acc) (fst (fold_left f l acc)).
Proof.
  induction l as [| x l IH]; simpl; intros H acc.
  - apply Day_refl.
  - eapply Day_trans; [apply H; left; reflexivity |].
    apply IH. intros acc' y Hy. apply H. right. exact Hy.
Qed.

Lemma fold_nodes_Day (f : SimT -> Z -> SimT) (l : list Z) :
  (forall st x, Day st (f st x)) ->
  forall st, Day st (fold_left f l st).
Proof.
  intros H. induction l as [| x l IH]; simpl; intros st.
  - apply Day_refl.
  - eapply Day_trans; [apply H | apply IH].
Qed.

Lemma Day_flags (st st' : SimT) :
  Day st st' -> time_ st' = time_ st /\ numTimes_ st' = numTimes_ st.
Proof. intros [F _]. split; apply F. Qed.

End StepLemmas.

(** A day that may treat also admits the steps of a day that does not. *)
Lemma VStep_weaken {MTRand gsl_rng : Type} {Ext : Externals MTRand gsl_rng}
      (g_parameters : Parameters) (av vx av' vx' : bool) tf t1
      (V V' : Variables) :
  (av = true -> av' = true) -> (vx = true -> vx' = true) ->
  VStep g_parameters av vx tf t1 V V' ->
  VStep g_parameters av' vx' tf t1 V V'.
Proof.
  intros Ha Hv H.
  destruct H as [V x y n a r v Hxy | V n a r v num Hnum
                | V n a r v nT Hav HnT nE
                | V comp n a r nV total used Hvx Hc HnV Hused Hle Hu EnV].
  - apply VStep_event, Hxy.
  - apply VStep_expose, Hnum.
  - apply VStep_antiviral; [exact (Ha Hav) | exact HnT].
  - apply (VStep_vaccine g_parameters av' vx' tf t1 V comp n a r nV total
             used); auto.
Qed.

Lemma VSteps_weaken {MTRand gsl_rng : Type} {Ext : Externals MTRand gsl_rng}
      (g_parameters : Parameters) (av vx av' vx' : bool) tf t1
      (V V' : Variables) :
  (av = true -> av' = true) -> (vx = true -> vx' = true) ->
  VSteps g_parameters av vx tf t1 V V' ->
  VSteps g_parameters av' vx' tf t1 V V'.
Proof.
  intros Ha Hv H. induction H as [| V1 V2 V3 _ IH H23]; [apply VSteps_refl |].
  eapply VSteps_step; [exact IH |].
  eapply VStep_weaken; eassumption.
Qed.

Lemma Day_weaken {MTRand gsl_rng : Type} {Ext : Externals MTRand gsl_rng}
      (g_parameters : Parameters) (av vx : bool) (st st' : Sim MTRand gsl_rng) :
  DayStep g_parameters av vx st st' -> DayStep g_parameters true true st st'.
Proof.
  intros [F H]. split; [exact F |].
  eapply VSteps_weaken; [| | exact H]; reflexivity.
Qed.

(** * Strata named by a priority group selection *)

Lemma expandSelector_not_all extent l x :
  ~ In STRATIFICATIONS_ALL extent ->
  In x (expandSelector extent l) -> x <> STRATIFICATIONS_ALL.
Proof.
  intros Hext. unfold expandSelector.
  destruct (existsb (Z.eqb STRATIFICATIONS_ALL) l) eqn:E; intros Hin Heq; subst.
  - contradiction.
  - assert (Ht : existsb (Z.eqb STRATIFICATIONS_ALL) l = true).
    { apply existsb_exists. exists STRATIFICATIONS_ALL. split; [exact Hin |].
      apply Z.eqb_refl. }
    congruence.
Qed.

Lemma ageGroups_not_all : ~ In STRATIFICATIONS_ALL ageGroups.
Proof. unfold STRATIFICATIONS_ALL. simpl. lia. Qed.
Lemma riskGroups_not_all : ~ In STRATIFICATIONS_ALL riskGroups.
Proof. unfold STRATIFICATIONS_ALL. simpl. lia. Qed.
Lemma vaccinatedGroups_not_all : ~ In STRATIFICATIONS_ALL vaccinatedGroups.
Proof. unfold STRATIFICATIONS_ALL. simpl. lia. Qed.

Lemma in_getStratificationValuesSet sel s :
  In s (getStratificationValuesSet sel) ->
  exists a r v, s = [a; r; v] /\ a <> STRATIFICATIONS_ALL
                /\ r <> STRATIFICATIONS_ALL /\ v <> STRATIFICATIONS_ALL.
Proof.
  unfold getStratificationValuesSet. intros H. apply nodup_In in H.
  apply in_flat_map in H. destruct H as (g & _ & H).
  unfold groupStrata in H.
  apply in_flat_map in H. destruct H as (a & Ha & H).
  apply in_flat_map in H. destruct H as (r & Hr & H).
  apply in_map_iff in H. destruct H as (v & <- & Hv).
  exists a, r, v. split; [reflexivity |].
  split; [eapply expandSelector_not_all; [apply ageGroups_not_all | exact Ha] |].
  split; [eapply expandSelector_not_all; [apply riskGroups_not_all | exact Hr] |].
  eapply expandSelector_not_all; [apply vaccinatedGroups_not_all | exact Hv].
Qed.

Lemma in_getStratificationValuesSet2 sel x s :
  In s (getStratificationValuesSet2 sel x) ->
  exists a r, s = [a; r; x] /\ a <> STRATIFICATIONS_ALL
              /\ r <> STRATIFICATIONS_ALL.
Proof.
  unfold getStratificationValuesSet2. intros H. apply nodup_In in H.
  apply in_flat_map in H. destruct H as (g & _ & H).
  unfold groupStrata2 in H.
  apply in_flat_map in H. destruct H as (a & Ha & H).
  apply in_map_iff in H. destruct H as (r & <- & Hr).
  exists a, r. split; [reflexivity |].
  split; [eapply expandSelector_not_all; [apply ageGroups_not_all | exact Ha] |].
  eapply expandSelector_not_all; [apply riskGroups_not_all | exact Hr].
Qed.

Lemma NoDup_getStratificationValuesSet sel :
  NoDup (getStratificationValuesSet sel).
Proof. apply NoDup_nodup. Qed.

Section TreatmentSteps.
Context {MTRand gsl_rng : Type} {Ext : Externals MTRand gsl_rng}.
Variable g_parameters : Parameters.
Variables av vx : bool.
Abbreviation SimT := (Sim MTRand gsl_rng).
Abbreviation Day := (DayStep g_parameters true true).
Abbreviation DayAV := (DayStep g_parameters true vx).
Abbreviation DayVX := (DayStep g_parameters av true).

(** ** [getValue] at explicit selectors *)

Lemma getValue_cell (st : SimT) x t nodeId a r v :
  a <> STRATIFICATIONS_ALL -> r <> STRATIFICATIONS_ALL ->
  v <> STRATIFICATIONS_ALL ->
  getValue st x t nodeId [a; r; v]
  = variables_ st x t (nodeIdToIndex_ st nodeId) a r v.
Proof.
  intros Ha Hr Hv. unfold getValue, selected. simpl.
  apply Z.eqb_neq in Ha, Hr, Hv. rewrite Ha, Hr, Hv. simpl. lia.
Qed.

Lemma getValue_vaccinated_all (st : SimT) x t nodeId a r :
  a <> STRATIFICATIONS_ALL -> r <> STRATIFICATIONS_ALL ->
  getValue st x t nodeId [a; r; STRATIFICATIONS_ALL]
  = variables_ st x t (nodeIdToIndex_ st nodeId) a r 0
    + variables_ st x t (nodeIdToIndex_ st nodeId) a r 1.
Proof.
  intros Ha Hr. unfold getValue, selected. simpl.
  apply Z.eqb_neq in Ha, Hr. rewrite Ha, Hr. simpl. lia.
Qed.

Lemma getValue_node (st : SimT) x t nodeId :
  getValue st x t nodeId []
  = nodeTotal (variables_ st) x t (nodeIdToIndex_ st nodeId).
Proof. reflexivity. Qed.

(** ** Antivirals *)

Lemma antiviralStratum_Day nodeId total used (acc : SimT * AntiviralWork) s :
  DayAV (fst acc)
      (fst (antiviralStratum g_parameters nodeId total used acc s)).
Proof.
  destruct acc as [st w]. unfold antiviralStratum. cbn [fst].
  destruct (_ <=? 0); [apply Day_refl |].
  match goal with |- context [if ?c <=? 0 then _ else _] =>
    destruct (c <=? 0) eqn:EnT end; [apply Day_refl |].
  apply Z.leb_gt in EnT. cbn [fst].
  match goal with |- context [transition ?nE ?x ?y ?nd ?sv st] =>
    pose proof (transition_frame nE x y nd sv st) as F;
    pose proof (transition_variables nE x y nd sv st) as HV;
    remember (transition nE x y nd sv st) as tr eqn:Etr
  end.
  split.
  - destruct F as (F1 & F2 & F3 & F4 & F5 & F6). repeat split; assumption.
  - cbn [variables_ set_variables]. rewrite HV. cbn [nth].
    apply VSteps_one.
    apply (VStep_antiviral g_parameters true vx (frontier st) (time_ st + 1)
             (variables_ st) (nodeIdToIndex_ st nodeId)
             (nth 0 s 0) (nth 1 s 0) (nth 2 s 0)); [reflexivity |].
    exact EnT.
Qed.

Lemma applyAntiviralsToNode_Day sel (st : SimT) nodeId :
  DayAV st (applyAntiviralsToNode g_parameters sel st nodeId).
Proof.
  unfold applyAntiviralsToNode.
  destruct (getNodeStockpile _ nodeId) as [ptr |]; [| apply Day_refl].
  destruct (_ =? 0); [apply Day_refl |].
  destruct (_ <=? 0); [apply Day_refl |].
  destruct (_ <=? 0); [apply Day_refl |].
  match goal with |- context [fold_left ?f ?l ?a] =>
    pose proof (fold_Day g_parameters true vx f l
                  (fun acc x _ =>
                     antiviralStratum_Day nodeId _ _ acc x) a) as HF;
    destruct (fold_left f l a) as [st2 w]
  end.
  cbn [fst] in HF.
  match goal with |- context [cancelSchedules ?q ?e ?t ?g] =>
    destruct (cancelSchedules q e t g) as [[q' nE'] g']
  end.
  eapply Day_trans; [apply Day_set_stockpileNetwork |].
  eapply Day_trans; [exact HF |].
  assert (H3 : forall (b : bool) (s : SimT),
             DayAV s (if b then put_flog LOG_WARN
                                "numberTreated != stockpileAmountUsed" s
                    else s)).
  { intros [|] s; [apply Day_put_flog | apply Day_refl]. }
  eapply Day_trans; [apply H3 |].
  destruct (negb (sum3 nE' =? 0)).
  - eapply Day_trans; [apply Day_set_queue |].
    eapply Day_trans; [apply Day_set_rand | apply Day_put_flog].
  - eapply Day_trans; [apply Day_set_queue | apply Day_set_rand].
Qed.

Lemma applyAntivirals_Day sel (st : SimT) :
  DayAV st (applyAntiviralsToPriorityGroupSelections g_parameters sel st).
Proof.
  unfold applyAntiviralsToPriorityGroupSelections.
  destruct sel as [sel |]; [| apply Day_put_flog].
  destruct (getPriorityGroups sel); [apply Day_put_flog |].
  apply fold_nodes_Day. intros s x. apply applyAntiviralsToNode_Day.
Qed.

(** ** Vaccines *)

Lemma vaccineAmountUsed_le amount total cap today :
  vaccineAmountUsed g_parameters amount total cap today <= Qtrunc total.
Proof.
  unfold vaccineAmountUsed.
  destruct (Z.gtb_spec amount (Qtrunc total)) as [E1 | E1];
    match goal with |- context [?x >? ?y] =>
      destruct (Z.gtb_spec x y) as [E2 | E2] end; lia.
Qed.

Lemma vaccineStratum_Day nodeId total used c comp
      (acc : SimT * (Array3 * Array3)) s x :
  In comp vaccinatedCompartments ->
  0 < used -> used <= Qtrunc total ->
  (exists a r, s = [a; r; x] /\ a <> STRATIFICATIONS_ALL
               /\ r <> STRATIFICATIONS_ALL) ->
  DayVX (fst acc)
      (fst (vaccineStratum g_parameters nodeId total used c comp acc s)).
Proof.
  intros Hcomp Hused Hle (a & r & -> & Ha & Hr).
  destruct acc as [st [nV nVable]]. unfold vaccineStratum. cbn [fst].
  cbn [nth].
  assert (H0 : (0 : Z) <> STRATIFICATIONS_ALL) by (unfold STRATIFICATIONS_ALL; lia).
  assert (H1 : (1 : Z) <> STRATIFICATIONS_ALL) by (unfold STRATIFICATIONS_ALL; lia).
  rewrite (getValue_vaccinated_all st population _ nodeId a r Ha Hr).
  rewrite !(getValue_cell st _ _ nodeId a r 0 Ha Hr H0).
  rewrite !(getValue_cell st _ _ nodeId a r 1 Ha Hr H1).
  destruct (_ <=? 0) eqn:Eun; [apply Day_refl |].
  apply Z.leb_gt in Eun.
  match goal with |- context [if ?c <=? 0 then _ else _] =>
    remember c as nV0 eqn:EnV0; destruct (nV0 <=? 0) eqn:EnV end;
    [apply Day_refl |].
  apply Z.leb_gt in EnV. cbn [fst].
  split; [repeat split |].
  cbn [variables_ set_variables].
  apply VSteps_one.
  apply (VStep_vaccine g_parameters av true (frontier st) (time_ st + 1)
           (variables_ st) comp
           (nodeIdToIndex_ st nodeId) a r nV0 total used);
    try assumption; reflexivity.
Qed.

Lemma compartments_vaccinated c :
  In c compartments -> In (snd c) vaccinatedCompartments.
Proof.
  unfold compartments, vaccinatedCompartments. simpl.
  intuition (subst; simpl; tauto).
Qed.

Lemma vaccineCompartment_Day sel nodeId total used
      (acc : SimT * (Array3 * Array3)) c :
  In c compartments -> 0 < used -> used <= Qtrunc total ->
  DayVX (fst acc)
      (fst (vaccineCompartment g_parameters sel nodeId total used acc c)).
Proof.
  intros Hc Hused Hle. unfold vaccineCompartment.
  apply fold_Day. intros acc' s Hs.
  apply vaccineStratum_Day with (x := STRATIFICATIONS_ALL);
    [apply compartments_vaccinated, Hc | exact Hused | exact Hle |].
  eapply in_getStratificationValuesSet2, Hs.
Qed.

Lemma applyVaccinesToNode_Day sel (st : SimT) nodeId :
  DayVX st (applyVaccinesToNode g_parameters sel st nodeId).
Proof.
  unfold applyVaccinesToNode.
  destruct (getNodeStockpile _ nodeId) as [ptr |]; [| apply Day_refl].
  destruct (_ =? 0); [apply Day_refl |].
  destruct (_ <=? 0); [apply Day_refl |].
  match goal with |- context [vaccineAmountUsed ?p ?a ?t ?c ?d] =>
    pose proof (vaccineAmountUsed_le a t c d) as Hle;
    remember (vaccineAmountUsed p a t c d) as used eqn:Eused
  end.
  destruct (used <=? 0) eqn:E0; [apply Day_refl |].
  apply Z.leb_gt in E0.
  match goal with |- context [fold_left ?f ?l ?a] =>
    pose proof (fold_Day g_parameters av true f l
                  (fun acc x Hx =>
                     vaccineCompartment_Day sel nodeId _ used acc x Hx E0 Hle)
                  a) as HF;
    destruct (fold_left f l a) as [st2 [nV nVable]]
  end.
  cbn [fst] in HF.
  match goal with |- context [restratifySchedules ?q ?e ?t ?g] =>
    destruct (restratifySchedules q e t g) as [[q' nV'] g']
  end.
  eapply Day_trans; [apply Day_set_stockpileNetwork |].
  eapply Day_trans; [exact HF |].
  destruct (negb (sumCAR nV =? used)).
  - eapply Day_trans; [apply Day_put_flog |].
    eapply Day_trans; [apply Day_set_queue | apply Day_set_rand].
  - eapply Day_trans; [apply Day_set_queue | apply Day_set_rand].
Qed.

Lemma applyVaccines_Day sel (st : SimT) :
  DayVX st (applyVaccinesToPriorityGroupSelections g_parameters sel st).
Proof.
  unfold applyVaccinesToPriorityGroupSelections.
  destruct sel as [sel |]; [| apply Day_put_flog].
  destruct (getPriorityGroups sel); [apply Day_put_flog |].
  apply fold_nodes_Day. intros s x. apply applyVaccinesToNode_Day.
Qed.

End TreatmentSteps.

Section SimulateSteps.
Context {MTRand gsl_rng : Type} {Ext : Externals MTRand gsl_rng}.
Variable g_parameters : Parameters.
Abbreviation SimT := (Sim MTRand gsl_rng).
Abbreviation Day := (DayStep g_parameters true true).

Lemma applyTreatments_Day (st : SimT) :
  Day st (applyTreatments g_parameters st).
Proof.
  unfold applyTreatments.
  eapply Day_trans;
    [apply (Day_weaken g_parameters true false), applyAntivirals_Day |].
  eapply Day_trans;
    [apply (Day_weaken g_parameters true false), applyAntivirals_Day |].
  eapply Day_trans;
    apply (Day_weaken g_parameters false true), applyVaccines_Day.
Qed.




(** ** [simulate] *)

Lemma simulate_inv fuel (st st' : SimT) :
  simulate g_parameters fuel st = Some st' ->
  exists st6 st8,
    processEvents g_parameters fuel
      (precompute (time_ st + 1) (applyTreatments g_parameters (dayStart st)))
    = Some st6
    /\ travel g_parameters fuel (set_now (inject_Z (time_ st6) + 1)%Q st6)
       = Some st8
    /\ st' = set_time (time_ st8 + 1) st8.
Proof.
  unfold simulate. fold (dayStart st).
  assert (Ht : time_ (applyTreatments g_parameters (dayStart st)) = time_ st).
  { destruct (applyTreatments_Day (dayStart st)) as [F _]. apply F. }
  rewrite Ht.
  destruct (processEvents _ _ _) as [st6 |] eqn:E6; [| discriminate].
  destruct (travel _ _ _) as [st8 |] eqn:E8; [| discriminate].
  intros H. inversion H; subst. exists st6, st8. auto.
Qed.

Lemma simulate_Day fuel (st st' : SimT) :
  simulate g_parameters fuel st = Some st' ->
  exists st8, Day (dayStart st) st8 /\ st' = set_time (time_ st8 + 1) st8.
Proof.
  intros H. apply simulate_inv in H.
  destruct H as (st6 & st8 & E6 & E8 & ->).
  exists st8. split; [| reflexivity].
  eapply Day_trans; [apply applyTreatments_Day |].
  eapply Day_trans; [apply Day_precompute |].
  eapply Day_trans; [eapply processEvents_Day, E6 |].
  eapply Day_trans; [apply Day_set_now | eapply travel_Day, E8].
Qed.

(** After the treatments, a day only processes events and travels. *)
Lemma simulate_tail fuel (st st' : SimT) :
  simulate g_parameters fuel st = Some st' ->
  exists st8,
    DayStep g_parameters false false
      (applyTreatments g_parameters (dayStart st)) st8
    /\ st' = set_time (time_ st8 + 1) st8.
Proof.
  intros H. apply simulate_inv in H.
  destruct H as (st6 & st8 & E6 & E8 & ->).
  exists st8. split; [| reflexivity].
  eapply Day_trans; [apply Day_precompute |].
  eapply Day_trans; [eapply processEvents_Day, E6 |].
  eapply Day_trans; [apply Day_set_now | eapply travel_Day, E8].
Qed.

End SimulateSteps.

(** * Node totals under the updates *)

Lemma nodeTotal_update (V : Variables) x t n a r v d y t' n' :
  nodeTotal (var_update V x (fun A => array_add A t n a r v d)) y t' n'
  = nodeTotal V y t' n'
    + (if VariableName_eqb x y then cellDelta t n a r v d t' n' else 0).
Proof.
  unfold nodeTotal, var_update, cellDelta.
  destruct (VariableName_eqb x y); [| lia].
  apply sum3_array_add.
Qed.

Lemma inRange_vaccinated a r : inRange a r 0 = inRange a r 1.
Proof. reflexivity. Qed.

Lemma cellDelta_opp t n a r v d t' n' :
  cellDelta t n a r v (- d) t' n' = - cellDelta t n a r v d t' n'.
Proof. unfold cellDelta. destruct (_ && _); lia. Qed.

Lemma cellDelta_vaccinated t n a r d t' n' :
  cellDelta t n a r 0 d t' n' = cellDelta t n a r 1 d t' n'.
Proof. unfold cellDelta. rewrite inRange_vaccinated. reflexivity. Qed.

Ltac node_totals :=
  unfold compartmentTotal, compartmentNames; cbn [sumZ fold_right];
  repeat rewrite nodeTotal_update; cbn [VariableName_eqb];
  rewrite ?cellDelta_opp, ?cellDelta_vaccinated.

(** * Conservation is kept by every update *)

Lemma Conservation_transition (V : Variables) x y t n a r v num :
  In x compartmentNames -> In y compartmentNames ->
  Conservation V -> Conservation (transitionVars V x y t n a r v num).
Proof.
  intros Hx Hy HV t' n'. specialize (HV t' n').
  unfold transitionVars.
  set (moved := if V x t n a r v <? num then V x t n a r v else num).
  clearbody moved. revert HV.
  unfold compartmentNames in Hx, Hy. simpl in Hx, Hy.
  repeat (destruct Hx as [<- | Hx]; [| try contradiction]);
    repeat (destruct Hy as [<- | Hy]; [| try contradiction]);
    node_totals; lia.
Qed.

Lemma Conservation_treat (V : Variables) t n a r v nT nE :
  Conservation V -> Conservation (treatVars V t n a r v nT nE).
Proof.
  intros HV t' n'. specialize (HV t' n'). revert HV.
  unfold treatVars. node_totals. lia.
Qed.

Lemma Conservation_vaccinate (V : Variables) comp t n a r nV :
  In comp vaccinatedCompartments ->
  Conservation V -> Conservation (vaccinateVars V comp t n a r nV).
Proof.
  intros Hc HV t' n'. specialize (HV t' n'). revert HV.
  unfold vaccinateVars.
  unfold vaccinatedCompartments in Hc. simpl in Hc.
  repeat (destruct Hc as [<- | Hc]; [| try contradiction]);
    node_totals; lia.
Qed.

Lemma diseaseMoves_compartments x y :
  In (x, y) diseaseMoves -> In x compartmentNames /\ In y compartmentNames.
Proof.
  unfold diseaseMoves, compartmentNames. simpl.
  intros H. repeat (destruct H as [H | H]; [inversion H; subst; tauto |]).
  contradiction.
Qed.

Section ConservationProofs.
Context {MTRand gsl_rng : Type} {Ext : Externals MTRand gsl_rng}.
Variable g_parameters : Parameters.
Abbreviation SimT := (Sim MTRand gsl_rng).

Lemma Conservation_VStep av vx tf t1 (V V' : Variables) :
  VStep g_parameters av vx tf t1 V V' -> Conservation V -> Conservation V'.
Proof.
  intros Hs HV. destruct Hs as [V x y n a r v Hxy | V n a r v num _
                               | V n a r v nT _ _ nE | V comp n a r nV total used _ Hc].
  - apply diseaseMoves_compartments in Hxy.
    apply Conservation_transition; tauto.
  - apply Conservation_transition; simpl; tauto.
  - apply Conservation_treat, Conservation_transition; simpl; tauto.
  - apply Conservation_vaccinate; assumption.
Qed.

Lemma Conservation_VSteps av vx tf t1 (V V' : Variables) :
  VSteps g_parameters av vx tf t1 V V' -> Conservation V -> Conservation V'.
Proof.
  intros Hs HV. induction Hs as [| V1 V2 V3 _ IH H23]; [exact HV |].
  eapply Conservation_VStep; [exact H23 | apply IH, HV].
Qed.

Lemma Conservation_Day (st st' : SimT) :
  DayStep g_parameters true true st st' ->
  Conservation (variables_ st) -> Conservation (variables_ st').
Proof. intros [_ H]. eapply Conservation_VSteps, H. Qed.

(** Copying the variables forward and resetting the daily counters. *)
Lemma nodeTotal_dayStart (st : SimT) x t n :
  In x (population :: compartmentNames) ->
  nodeTotal (variables_ (dayStart st)) x t n
  = nodeTotal (variables_ st) x (if t =? time_ st + 1 then time_ st else t) n.
Proof.
  intros Hx. unfold dayStart, resetDailyCounters, EpidemicSimulation_simulate.
  cbn [variables_ set_variables set_numTimes set_stockpileNetwork set_now time_].
  unfold nodeTotal.
  assert (Hv : forall (f : Array5 -> Array5) y W,
             In y [treated_daily; treated_ineffective_daily; vaccinated_daily] ->
             var_update W y f x = W x).
  { intros f y W Hy. apply var_update_other. intros ->.
    simpl in Hx, Hy. intuition congruence. }
  rewrite !Hv by (simpl; tauto).
  unfold copy_forward. destruct (t =? time_ st + 1); reflexivity.
Qed.

Lemma Conservation_dayStart (st : SimT) :
  Conservation (variables_ st) -> Conservation (variables_ (dayStart st)).
Proof.
  intros HV t n. unfold compartmentTotal.
  rewrite nodeTotal_dayStart by (simpl; tauto).
  rewrite <- HV. unfold compartmentTotal.
  apply sumZ_ext. intros x Hx. apply nodeTotal_dayStart. right. exact Hx.
Qed.

(** ** What [expose] does to the variables *)

Lemma initializeContactEvents_variables fuel schedule nodeId strat (st : SimT)
      schedule' st' :
  initializeContactEvents g_parameters fuel schedule nodeId strat st
  = Some (schedule', st') ->
  variables_ st' = variables_ st /\ Frame st st'.
Proof.
  unfold initializeContactEvents.
  destruct (negb (expectedStratifications st)).
  - intros H. inversion H; subst. split; [reflexivity | repeat split].
  - destruct (fold_left _ _ _) as [[s g] |]; [| discriminate].
    intros H. inversion H; subst. split; [reflexivity | repeat split].
Qed.

Lemma exposeSchedules_variables fuel count nodeId strat :
  forall (st st' : SimT),
    exposeSchedules g_parameters fuel count nodeId strat st = Some st' ->
    variables_ st' = variables_ st.
Proof.
  induction count as [| count IH]; simpl; intros st st' H.
  - inversion H; subst. reflexivity.
  - destruct (newSchedule g_parameters (now_ st) (rand_ st) strat)
      as [schedule g].
    destruct (initializeContactEvents _ _ _ _ _ _) as [[schedule' st1] |] eqn:E;
      [| discriminate].
    apply initializeContactEvents_variables in E. destruct E as [E _].
    apply IH in H. cbn [variables_ set_queue] in H.
    rewrite H, E. reflexivity.
Qed.

Lemma exposePrecomputed_same (st : SimT) :
  variables_ (exposePrecomputed st) = variables_ st
  /\ Frame st (exposePrecomputed st).
Proof.
  unfold exposePrecomputed.
  destruct (_ && _).
  - unfold precompute. destruct (precomputeNodes _ _ _ _ _ _).
    split; [reflexivity | repeat split].
  - destruct (_ && _).
    + unfold precompute. destruct (precomputeNodes _ _ _ _ _ _).
      split; [reflexivity | repeat split].
    + split; [reflexivity | repeat split].
Qed.

Lemma expose_variables fuel num nodeId strat (st : SimT) k st' :
  expose g_parameters fuel num nodeId strat st = Some (k, st') ->
  variables_ st'
  = transitionVars (variables_ st) susceptible exposed (frontier st)
      (nodeIdToIndex_ st nodeId) (nth 0 strat 0) (nth 1 strat 0)
      (nth 2 strat 0) num
  /\ k = (if variables_ st susceptible (frontier st)
               (nodeIdToIndex_ st nodeId) (nth 0 strat 0) (nth 1 strat 0)
               (nth 2 strat 0) <? num
          then variables_ st susceptible (frontier st)
                 (nodeIdToIndex_ st nodeId) (nth 0 strat 0) (nth 1 strat 0)
                 (nth 2 strat 0)
          else num).
Proof.
  unfold expose. fold (exposePrecomputed st).
  destruct (exposePrecomputed_same st) as [HV HF].
  unfold EpidemicSimulation_expose.
  pose proof (transition_variables num susceptible exposed nodeId strat
                (exposePrecomputed st)) as HT.
  assert (Hk : fst (transition num susceptible exposed nodeId strat
                      (exposePrecomputed st))
               = (if variables_ st susceptible (frontier st)
                       (nodeIdToIndex_ st nodeId) (nth 0 strat 0)
                       (nth 1 strat 0) (nth 2 strat 0) <? num
                  then variables_ st susceptible (frontier st)
                         (nodeIdToIndex_ st nodeId) (nth 0 strat 0)
                         (nth 1 strat 0) (nth 2 strat 0)
                  else num)).
  { unfold transition. cbn [fst]. unfold frontier.
    destruct HF as (_ & -> & _ & -> & _). rewrite HV. reflexivity. }
  destruct (transition num susceptible exposed nodeId strat
              (exposePrecomputed st)) as [numExposed st2].
  cbn [fst snd] in *.
  destruct (exposeSchedules _ _ _ _ _ _) as [st3 |] eqn:E; [| discriminate].
  intros H. inversion H; subst.
  apply exposeSchedules_variables in E. rewrite E, HT.
  unfold frontier. destruct HF as (_ & -> & _ & -> & _). rewrite HV.
  split; reflexivity.
Qed.

End ConservationProofs.

(** * Cells under the updates *)

Lemma var_update_cell (V : Variables) x t n a r v d y t' n' a' r' v' :
  var_update V x (fun A => array_add A t n a r v d) y t' n' a' r' v'
  = V y t' n' a' r' v'
    + (if VariableName_eqb x y && sameCell t n a r v t' n' a' r' v'
       then d else 0).
Proof.
  unfold var_update. destruct (VariableName_eqb x y); simpl.
  - apply array_add_cases.
  - lia.
Qed.

Lemma sameCell_time t n a r v t' n' a' r' v' :
  t' <> t -> sameCell t n a r v t' n' a' r' v' = false.
Proof.
  intros H. unfold sameCell. apply Z.eqb_neq in H. rewrite H. reflexivity.
Qed.

Lemma transitionVars_cell (V : Variables) x y t n a r v num z t' n' a' r' v' :
  transitionVars V x y t n a r v num z t' n' a' r' v'
  = V z t' n' a' r' v'
    + (if VariableName_eqb x z && sameCell t n a r v t' n' a' r' v'
       then - movedBy V x t n a r v num else 0)
    + (if VariableName_eqb y z && sameCell t n a r v t' n' a' r' v'
       then movedBy V x t n a r v num else 0).
Proof.
  unfold transitionVars. fold (movedBy V x t n a r v num).
  rewrite !var_update_cell. reflexivity.
Qed.

Lemma movedBy_bounds (V : Variables) x t n a r v num :
  0 <= V x t n a r v -> 0 <= num ->
  0 <= movedBy V x t n a r v num <= V x t n a r v.
Proof.
  intros HV Hn. unfold movedBy.
  destruct (Z.ltb_spec (V x t n a r v) num); lia.
Qed.

Lemma treatVars_cell (V : Variables) t n a r v nT nE z t' n' a' r' v' :
  In z (population :: compartmentNames) ->
  treatVars V t n a r v nT nE z t' n' a' r' v' = V z t' n' a' r' v'.
Proof.
  intros Hz. unfold treatVars.
  rewrite !var_update_other; [reflexivity | | |];
    intros E; subst z; simpl in Hz; intuition discriminate.
Qed.

(** * Non-negative counts are kept *)

Lemma NonNegative_transition (V : Variables) x y t n a r v num :
  In x compartmentNames -> In y compartmentNames -> x <> y -> 0 <= num ->
  NonNegative V -> NonNegative (transitionVars V x y t n a r v num).
Proof.
  intros Hx Hy Hxy Hnum [HV HP]. split.
  - intros z t' n' a' r' v' Hz. rewrite transitionVars_cell.
    pose proof (movedBy_bounds V x t n a r v num (HV _ _ _ _ _ _ Hx) Hnum) as Hm.
    pose proof (HV z t' n' a' r' v' Hz) as H0.
    destruct (sameCell t n a r v t' n' a' r' v') eqn:E.
    + apply sameCell_true in E. destruct E as (-> & -> & -> & -> & ->).
      rewrite !andb_true_r.
      destruct (VariableName_eqb x z) eqn:Exz.
      * apply VariableName_eqb_eq in Exz. subst z.
        rewrite (VariableName_eqb_neq y x) by congruence. lia.
      * destruct (VariableName_eqb y z); lia.
    + rewrite !andb_false_r. lia.
  - intros t' n' a' r'. rewrite !transitionVars_cell.
    assert (Hxp : VariableName_eqb x population = false).
    { apply VariableName_eqb_neq. intros ->. simpl in Hx. intuition discriminate. }
    assert (Hyp : VariableName_eqb y population = false).
    { apply VariableName_eqb_neq. intros ->. simpl in Hy. intuition discriminate. }
    rewrite Hxp, Hyp. simpl. specialize (HP t' n' a' r'). lia.
Qed.

Lemma NonNegative_treat (V : Variables) t n a r v nT nE :
  NonNegative V -> NonNegative (treatVars V t n a r v nT nE).
Proof.
  intros [HV HP]. split.
  - intros z t' n' a' r' v' Hz. rewrite treatVars_cell by (right; exact Hz).
    apply HV, Hz.
  - intros t' n' a' r'. rewrite !treatVars_cell by (left; reflexivity).
    apply HP.
Qed.

Lemma vaccinateVars_cell (V : Variables) comp t n a r nV z t' n' a' r' v' :
  In comp vaccinatedCompartments ->
  vaccinateVars V comp t n a r nV z t' n' a' r' v'
  = V z t' n' a' r' v'
    + (if (VariableName_eqb comp z || VariableName_eqb population z
           || (VariableName_eqb vaccinated_daily z && (v' =? 1)))
          && ((t' =? t) && (n' =? n) && (a' =? a) && (r' =? r))
       then (if VariableName_eqb vaccinated_daily z then nV
             else if v' =? 0 then - nV else if v' =? 1 then nV else 0)
       else 0).
Proof.
  intros Hc. unfold vaccinateVars. rewrite !var_update_cell. unfold sameCell.
  set (c := (t' =? t) && (n' =? n) && (a' =? a) && (r' =? r)).
  assert (Hv : (v' =? 0) = true -> (v' =? 1) = true -> False).
  { rewrite !Z.eqb_eq. lia. }
  unfold vaccinatedCompartments in Hc. simpl in Hc.
  repeat (destruct Hc as [<- | Hc]; [| try contradiction]);
    destruct z; cbn [VariableName_eqb orb andb];
    destruct c; cbn [orb andb];
    destruct (v' =? 0), (v' =? 1); cbn [orb andb]; try lia;
    exfalso; apply Hv; reflexivity.
Qed.

Lemma NonNegative_vaccinate (V : Variables) comp t n a r nV :
  In comp vaccinatedCompartments ->
  0 <= nV <= V comp t n a r 0 ->
  NonNegative V -> NonNegative (vaccinateVars V comp t n a r nV).
Proof.
  intros Hc HnV [HV HP]. split.
  - intros z t' n' a' r' v' Hz. rewrite vaccinateVars_cell by exact Hc.
    pose proof (HV z t' n' a' r' v' Hz) as H0.
    assert (Hzp : VariableName_eqb population z = false).
    { apply VariableName_eqb_neq. intros E. subst z. simpl in Hz.
      intuition discriminate. }
    assert (Hzv : VariableName_eqb vaccinated_daily z = false).
    { apply VariableName_eqb_neq. intros E. subst z. simpl in Hz.
      intuition discriminate. }
    rewrite Hzp, Hzv.
    destruct (VariableName_eqb comp z) eqn:Ecz; cbn [orb andb]; [| lia].
    apply VariableName_eqb_eq in Ecz. subst z.
    destruct ((t' =? t) && (n' =? n) && (a' =? a) && (r' =? r)) eqn:E; [| lia].
    apply andb_true_iff in E. destruct E as [E Er].
    apply andb_true_iff in E. destruct E as [E Ea].
    apply andb_true_iff in E. destruct E as [Et En].
    apply Z.eqb_eq in Et, En, Ea, Er. subst t' n' a' r'.
    destruct (Z.eqb_spec v' 0) as [-> | H1]; [lia |].
    destruct (v' =? 1); lia.
  - intros t' n' a' r'. rewrite !vaccinateVars_cell by exact Hc.
    specialize (HP t' n' a' r'). cbn [VariableName_eqb orb andb].
    rewrite orb_true_r.
    destruct ((t' =? t) && (n' =? n) && (a' =? a) && (r' =? r)); simpl; lia.
Qed.

(** The pro-rata share vaccinated out of a compartment never exceeds the
    compartment, as long as at most everybody adheres. *)
Lemma vaccinated_le_compartment (adh total : Q) (u w c used nV : Z) :
  (adh <= 1)%Q -> 0 <= u + w -> 0 < u -> 0 <= c ->
  0 < used -> used <= Qtrunc total -> 0 < nV ->
  nV = Qtrunc ((adh * inject_Z (u + w) - inject_Z w) * inject_Z c
               / inject_Z u / total * inject_Z used)%Q ->
  nV <= c.
Proof.
  intros Hadh Huw Hu Hc Hused Hle HnV EnV.
  assert (Hq : (0 < (adh * inject_Z (u + w) - inject_Z w) * inject_Z c
                    / inject_Z u / total * inject_Z used)%Q).
  { apply Qtrunc_pos. rewrite <- EnV. exact HnV. }
  assert (Hq' : (inject_Z nV
                 <= (adh * inject_Z (u + w) - inject_Z w) * inject_Z c
                    / inject_Z u / total * inject_Z used)%Q).
  { rewrite EnV at 1. apply Qtrunc_pos_le. rewrite <- EnV. exact HnV. }
  assert (HT : (inject_Z used <= total)%Q).
  { eapply Qle_trans; [| apply Qtrunc_pos_le; lia].
    rewrite <- Zle_Qle. exact Hle. }
  assert (HX : (adh * inject_Z (u + w) - inject_Z w <= inject_Z u)%Q).
  { rewrite inject_Z_plus.
    assert (Hs : (0 <= inject_Z u + inject_Z w)%Q).
    { rewrite <- inject_Z_plus. change 0%Q with (inject_Z 0).
      rewrite <- Zle_Qle. exact Huw. }
    assert (Hm : (adh * (inject_Z u + inject_Z w)
                  <= 1 * (inject_Z u + inject_Z w))%Q).
    { apply Qmult_le_compat_r; assumption. }
    generalize dependent (adh * (inject_Z u + inject_Z w))%Q. intros. lra. }
  assert (Hfin : ((adh * inject_Z (u + w) - inject_Z w) * inject_Z c
                  / inject_Z u / total * inject_Z used <= inject_Z c)%Q).
  { apply Qshare_le; try assumption.
    - change 0%Q with (inject_Z 0). rewrite <- Zle_Qle. exact Hc.
    - change 0%Q with (inject_Z 0). rewrite <- Zlt_Qlt. exact Hu.
    - change 0%Q with (inject_Z 0). rewrite <- Zlt_Qlt. exact Hused. }
  rewrite Zle_Qle. eapply Qle_trans; eassumption.
Qed.

Section NonNegativeProofs.
Context {MTRand gsl_rng : Type} {Ext : Externals MTRand gsl_rng}.
Variable g_parameters : Parameters.
Abbreviation SimT := (Sim MTRand gsl_rng).

(** The contracts the invariant relies on: a binomial draw is a count,
    antivirals do not harm, and at most everybody adheres to vaccination. *)
Hypothesis binomial_nonneg : forall g p k, 0 <= fst (gsl_ran_binomial g p k).
Hypothesis effectiveness_nonneg :
  (0 <= getAntiviralEffectiveness g_parameters)%Q.
Hypothesis adherence_le_1 : (getVaccineAdherence g_parameters <= 1)%Q.

Lemma exposureCount_nonneg num : exposureCount num -> 0 <= num.
Proof. intros [| g p k]; [lia | apply binomial_nonneg]. Qed.

Lemma effective_nonneg nT :
  0 < nT ->
  0 <= Qtrunc (getAntiviralEffectiveness g_parameters * inject_Z nT).
Proof.
  intros H. apply Qtrunc_nonneg. apply Qmult_le_0_compat;
    [exact effectiveness_nonneg |].
  change 0%Q with (inject_Z 0). rewrite <- Zle_Qle. lia.
Qed.

Lemma VStep_vaccine_bound (V : Variables) comp t1 n a r nV total used :
  NonNegative V ->
  In comp vaccinatedCompartments ->
  0 < nV -> 0 < used -> used <= Qtrunc total ->
  0 < V population t1 n a r 0 ->
  nV = Qtrunc
         ((getVaccineAdherence g_parameters
           * inject_Z (V population t1 n a r 0%Z
                       + V population t1 n a r 1%Z)%Z
           - inject_Z (V population t1 n a r 1%Z))
          * inject_Z (V comp t1 n a r 0%Z)
          / inject_Z (V population t1 n a r 0%Z)
          / total * inject_Z used)%Q ->
  0 <= nV <= V comp t1 n a r 0.
Proof.
  intros [HV HP] Hc HnV Hused Hle Hu EnV. split; [lia |].
  apply (vaccinated_le_compartment (getVaccineAdherence g_parameters) total
           (V population t1 n a r 0) (V population t1 n a r 1)
           (V comp t1 n a r 0) used nV);
    [exact adherence_le_1 | apply HP | exact Hu | | exact Hused | exact Hle
     | exact HnV | exact EnV].
  apply HV. unfold vaccinatedCompartments, compartmentNames in *.
  simpl in *. tauto.
Qed.

Lemma NonNegative_VStep av vx tf t1 (V V' : Variables) :
  VStep g_parameters av vx tf t1 V V' -> NonNegative V -> NonNegative V'.
Proof.
  intros Hs HV.
  destruct Hs as [V x y n a r v Hxy | V n a r v num Hnum
                 | V n a r v nT Hav HnT nE
                 | V comp n a r nV total used Hvx Hc HnV Hused Hle Hu EnV].
  - pose proof (diseaseMoves_compartments x y Hxy) as [Hx Hy].
    apply NonNegative_transition; try assumption; [| lia].
    unfold diseaseMoves in Hxy. simpl in Hxy.
    repeat (destruct Hxy as [Hxy | Hxy];
            [inversion Hxy; subst; discriminate |]).
    contradiction.
  - apply NonNegative_transition;
      [simpl; tauto | simpl; tauto | discriminate | | exact HV].
    apply exposureCount_nonneg, Hnum.
  - apply NonNegative_treat, NonNegative_transition;
      [simpl; tauto | simpl; tauto | discriminate | | exact HV].
    apply effective_nonneg, HnT.
  - apply NonNegative_vaccinate; [exact Hc | | exact HV].
    exact (VStep_vaccine_bound V comp t1 n a r nV total used
             HV Hc HnV Hused Hle Hu EnV).
Qed.

Lemma NonNegative_VSteps av vx tf t1 (V V' : Variables) :
  VSteps g_parameters av vx tf t1 V V' -> NonNegative V -> NonNegative V'.
Proof.
  intros Hs HV. induction Hs as [| V1 V2 V3 _ IH H23]; [exact HV |].
  eapply NonNegative_VStep; [exact H23 | apply IH, HV].
Qed.

(** ** Deceased and recovered only grow *)



End NonNegativeProofs.

(** * Only the new time step is written *)

Lemma VStep_rows {MTRand gsl_rng : Type} {Ext : Externals MTRand gsl_rng}
      (g_parameters : Parameters) av vx t1 (V V' : Variables) :
  VStep g_parameters av vx t1 t1 V V' ->
  forall x t n a r v, t <> t1 -> V' x t n a r v = V x t n a r v.
Proof.
  intros Hs x t' n' a' r' v' Ht.
  destruct Hs as [V x0 y n a r v Hxy | V n a r v num Hnum
                 | V n a r v nT Hav HnT nE
                 | V comp n a r nV total used Hvx Hc HnV Hused Hle Hu EnV].
  - rewrite transitionVars_cell, !sameCell_time, !andb_false_r by exact Ht. lia.
  - rewrite transitionVars_cell, !sameCell_time, !andb_false_r by exact Ht. lia.
  - unfold treatVars. rewrite !var_update_cell, transitionVars_cell.
    rewrite !sameCell_time, !andb_false_r by exact Ht. lia.
  - unfold vaccinateVars. rewrite !var_update_cell.
    rewrite !sameCell_time, !andb_false_r by exact Ht. lia.
Qed.

Lemma VSteps_rows {MTRand gsl_rng : Type} {Ext : Externals MTRand gsl_rng}
      (g_parameters : Parameters) av vx t1 (V V' : Variables) :
  VSteps g_parameters av vx t1 t1 V V' ->
  forall x t n a r v, t <> t1 -> V' x t n a r v = V x t n a r v.
Proof.
  intros Hs. induction Hs as [| V1 V2 V3 _ IH H23]; [reflexivity |].
  intros x t n a r v Ht.
  rewrite (VStep_rows g_parameters av vx t1 V2 V3 H23) by exact Ht.
  apply IH, Ht.
Qed.

Section DayStartLemmas.
Context {MTRand gsl_rng : Type} {Ext : Externals MTRand gsl_rng}.
Variable g_parameters : Parameters.
Abbreviation SimT := (Sim MTRand gsl_rng).

Lemma dayStart_cell (st : SimT) x t n a r v :
  variables_ (dayStart st) x t n a r v
  = if t =? time_ st + 1
    then (if isDailyCounter x then 0 else variables_ st x (time_ st) n a r v)
    else variables_ st x t n a r v.
Proof.
  unfold dayStart, resetDailyCounters, EpidemicSimulation_simulate.
  cbn [variables_ set_variables set_numTimes set_stockpileNetwork set_now time_].
  unfold var_update, array_zero_time, copy_forward.
  destruct x; cbn [VariableName_eqb isDailyCounter];
    destruct (t =? time_ st + 1); reflexivity.
Qed.

Lemma dayStart_frame (st : SimT) :
  time_ (dayStart st) = time_ st
  /\ numTimes_ (dayStart st) = numTimes_ st + 1
  /\ nodeIds_ (dayStart st) = nodeIds_ st
  /\ nodeIdToIndex_ (dayStart st) = nodeIdToIndex_ st.
Proof. repeat split. Qed.


(** The steps of a day, started from a state whose base class writes to
    the new time step. *)
Lemma simulate_steps fuel (st st' : SimT) :
  numTimes_ st = time_ st + 1 ->
  simulate g_parameters fuel st = Some st' ->
  VSteps g_parameters true true (time_ st + 1) (time_ st + 1)
    (variables_ (dayStart st)) (variables_ st')
  /\ time_ st' = time_ st + 1 /\ numTimes_ st' = numTimes_ st + 1
  /\ nodeIds_ st' = nodeIds_ st /\ nodeIdToIndex_ st' = nodeIdToIndex_ st.
Proof.
  intros Hn H. apply simulate_Day in H. destruct H as (st8 & [F HS] & ->).
  destruct (dayStart_frame st) as (Ht & Hnt & Hids & Hidx).
  rewrite Ht, Hnt in HS.
  replace (numTimes_ st + 1 - 1) with (time_ st + 1) in HS by lia.
  destruct F as (F1 & F2 & F3 & F4 & _).
  cbn [variables_ set_time time_ numTimes_ nodeIds_ nodeIdToIndex_].
  rewrite F1, F2, F3, F4, Ht, Hnt, Hids, Hidx.
  repeat split; try reflexivity. exact HS.
Qed.

End DayStartLemmas.

Section MonotoneProofs.
Context {MTRand gsl_rng : Type} {Ext : Externals MTRand gsl_rng}.
Variable g_parameters : Parameters.
Abbreviation SimT := (Sim MTRand gsl_rng).

Hypothesis binomial_nonneg : forall g p k, 0 <= fst (gsl_ran_binomial g p k).
Hypothesis effectiveness_nonneg :
  (0 <= getAntiviralEffectiveness g_parameters)%Q.
Hypothesis adherence_le_1 : (getVaccineAdherence g_parameters <= 1)%Q.


End MonotoneProofs.

(** * The antiviral pass stays within capacity *)

Lemma treatVars_cell_all (V : Variables) t n a r v nT nE z t' n' a' r' v' :
  treatVars V t n a r v nT nE z t' n' a' r' v'
  = V z t' n' a' r' v'
    + (if sameCell t n a r v t' n' a' r' v'
       then (if VariableName_eqb treated_daily z then nT else 0)
            + (if VariableName_eqb treated_ineffective_daily z
               then nT - nE else 0)
            + (if VariableName_eqb treated z then nT else 0)
       else 0).
Proof.
  unfold treatVars. rewrite !var_update_cell.
  destruct (sameCell t n a r v t' n' a' r' v'); rewrite ?andb_true_r, ?andb_false_r;
    destruct z; cbn [VariableName_eqb]; lia.
Qed.

(** The share of one stratum: what is treated there is at most the
    stratum's untreated count, and at most its pro-rata part of the amount
    used. *)
Lemma treated_share (adh : Q) (T used phi nT : Z) :
  (adh <= 1)%Q -> 0 < T -> 0 < used -> 0 <= phi ->
  used <= Qtrunc (adh * inject_Z T) -> 0 < nT ->
  nT = Qtrunc (adh * inject_Z phi / (adh * inject_Z T) * inject_Z used) ->
  (inject_Z nT <= inject_Z phi * inject_Z used / inject_Z T)%Q /\ nT <= phi.
Proof.
  intros Hadh HT Hused Hphi Hle HnT EnT.
  assert (HTq : (0 < inject_Z T)%Q).
  { change 0%Q with (inject_Z 0). rewrite <- Zlt_Qlt. exact HT. }
  assert (Hphiq : (0 <= inject_Z phi)%Q).
  { change 0%Q with (inject_Z 0). rewrite <- Zle_Qle. exact Hphi. }
  assert (Husedq : (0 < inject_Z used)%Q).
  { change 0%Q with (inject_Z 0). rewrite <- Zlt_Qlt. exact Hused. }
  assert (HTA : (inject_Z used <= adh * inject_Z T)%Q).
  { eapply Qle_trans; [| apply Qtrunc_pos_le; lia].
    rewrite <- Zle_Qle. exact Hle. }
  assert (Hadh0 : (0 < adh)%Q).
  { destruct (Qlt_le_dec 0 adh) as [H | H]; [exact H | exfalso].
    assert (Hneg : (0 <= (- adh) * inject_Z T)%Q)
      by (apply Qmult_le_0_compat; lra).
    assert (Heq : ((- adh) * inject_Z T == - (adh * inject_Z T))%Q) by ring.
    rewrite Heq in Hneg. generalize dependent (adh * inject_Z T)%Q. intros. lra. }
  assert (HuT : (inject_Z used <= inject_Z T)%Q).
  { assert (Hm : (adh * inject_Z T <= 1 * inject_Z T)%Q)
      by (apply Qmult_le_compat_r; lra).
    generalize dependent (adh * inject_Z T)%Q. intros. lra. }
  assert (Hq : (adh * inject_Z phi / (adh * inject_Z T) * inject_Z used
                == inject_Z phi * inject_Z used / inject_Z T)%Q).
  { field. split; intros E; rewrite E in *;
      [apply (Qlt_irrefl 0 HTq) | apply (Qlt_irrefl 0 Hadh0)]. }
  assert (H1 : (inject_Z nT <= inject_Z phi * inject_Z used / inject_Z T)%Q).
  { rewrite <- Hq. rewrite EnT at 1. apply Qtrunc_pos_le. rewrite <- EnT.
    exact HnT. }
  split; [exact H1 |].
  rewrite Zle_Qle. eapply Qle_trans; [exact H1 |].
  apply Qle_shift_div_r; [exact HTq |].
  apply Qmult_le_compat_nonneg; split;
    [exact Hphiq | apply Qle_refl | apply Qlt_le_weak, Husedq | exact HuT].
Qed.

Lemma sameCell_refl t n a r v : sameCell t n a r v t n a r v = true.
Proof. apply sameCell_true. tauto. Qed.

Lemma sameCell_other t n a r v n' a' r' v' :
  (n', a', r', v') <> (n, a, r, v) -> sameCell t n a r v t n' a' r' v' = false.
Proof.
  intros H. destruct (sameCell t n a r v t n' a' r' v') eqn:E; [| reflexivity].
  apply sameCell_true in E. destruct E as (_ & -> & -> & -> & ->).
  contradiction.
Qed.

Lemma Qshare_nonneg (phi used T : Z) :
  0 <= phi -> 0 < used -> 0 < T ->
  (0 <= inject_Z phi * inject_Z used / inject_Z T)%Q.
Proof.
  intros Hphi Hused HT.
  apply Qle_shift_div_l.
  - change 0%Q with (inject_Z 0). rewrite <- Zlt_Qlt. exact HT.
  - rewrite Qmult_0_l. apply Qmult_le_0_compat;
      change 0%Q with (inject_Z 0); rewrite <- Zle_Qle; lia.
Qed.

Lemma Qle_plus_nonneg (x q : Q) : (0 <= q)%Q -> (x <= x + q)%Q.
Proof. intros. lra. Qed.

Lemma Qle_plus_chain (x c k q : Q) :
  (c <= k)%Q -> (k <= q)%Q -> (x + c <= x + q)%Q.
Proof. intros. lra. Qed.

Section AntiviralBound.
Context {MTRand gsl_rng : Type} {Ext : Externals MTRand gsl_rng}.
Variable g_parameters : Parameters.
Abbreviation SimT := (Sim MTRand gsl_rng).

Hypothesis adherence_le_1 : (getAntiviralAdherence g_parameters <= 1)%Q.

Lemma antiviralStratum_effect nodeId (T used : Z) (st : SimT) w a r v :
  frontier st = time_ st + 1 ->
  a <> STRATIFICATIONS_ALL -> r <> STRATIFICATIONS_ALL ->
  v <> STRATIFICATIONS_ALL ->
  0 < T -> 0 < used ->
  used <= Qtrunc (getAntiviralAdherence g_parameters * inject_Z T) ->
  0 <= untreated (variables_ st) (time_ st + 1) (nodeIdToIndex_ st nodeId)
         a r v ->
  forall st',
    st' = fst (antiviralStratum g_parameters nodeId
                 (getAntiviralAdherence g_parameters * inject_Z T) used
                 (st, w) [a; r; v]) ->
    let t1 := time_ st + 1 in
    let n := nodeIdToIndex_ st nodeId in
    let V := variables_ st in
    let V' := variables_ st' in
    Frame st st'
    /\ (forall n' a' r' v',
           (n', a', r', v') <> (n, a, r, v) ->
           untreated V' t1 n' a' r' v' = untreated V t1 n' a' r' v')
    /\ 0 <= untreated V' t1 n a r v
    /\ (forall t' n',
           nodeTotal V' population t' n' = nodeTotal V population t' n')
    /\ (forall n', n' <> n ->
           nodeTotal V' treated_daily t1 n' = nodeTotal V treated_daily t1 n')
    /\ (inject_Z (nodeTotal V' treated_daily t1 n)
        <= inject_Z (nodeTotal V treated_daily t1 n)
           + inject_Z (untreated V t1 n a r v) * inject_Z used / inject_Z T)%Q.
Proof.
  intros Hf Ha Hr Hv HT Hused Hle Hphi st' Est' t1 n V V'.
  assert (Hsame : st' = st ->
            Frame st st'
            /\ (forall n' a' r' v',
                   (n', a', r', v') <> (n, a, r, v) ->
                   untreated V' t1 n' a' r' v' = untreated V t1 n' a' r' v')
            /\ 0 <= untreated V' t1 n a r v
            /\ (forall t' n',
                   nodeTotal V' population t' n' = nodeTotal V population t' n')
            /\ (forall n', n' <> n ->
                   nodeTotal V' treated_daily t1 n'
                   = nodeTotal V treated_daily t1 n')
            /\ (inject_Z (nodeTotal V' treated_daily t1 n)
                <= inject_Z (nodeTotal V treated_daily t1 n)
                   + inject_Z (untreated V t1 n a r v) * inject_Z used
                     / inject_Z T)%Q).
  { intros E. subst V'. rewrite E. fold V.
    split; [apply Frame_refl |]. split; [reflexivity |].
    split; [exact Hphi |]. split; [reflexivity |]. split; [reflexivity |].
    apply Qle_plus_nonneg.
    apply (Qshare_nonneg _ used T Hphi Hused HT). }
  unfold antiviralStratum in Est'. cbn [nth fst] in Est'.
  rewrite !(getValue_cell st _ _ nodeId a r v Ha Hr Hv) in Est'.
  fold t1 n V in Est'. fold (untreated V t1 n a r v) in Est'.
  destruct (untreated V t1 n a r v <=? 0) eqn:E0;
    [apply Hsame; exact Est' |].
  apply Z.leb_gt in E0.
  remember (Qtrunc (getAntiviralAdherence g_parameters
                    * inject_Z (untreated V t1 n a r v)
                    / (getAntiviralAdherence g_parameters * inject_Z T)
                    * inject_Z used)) as nT eqn:EnT.
  destruct (nT <=? 0) eqn:E1; [apply Hsame; exact Est' |].
  apply Z.leb_gt in E1.
  destruct (treated_share _ T used (untreated V t1 n a r v) nT
              adherence_le_1 HT Hused (Z.lt_le_incl _ _ E0) Hle E1 EnT)
    as [Hshare HnT].
  remember (Qtrunc (getAntiviralEffectiveness g_parameters * inject_Z nT))
    as nE eqn:EnE.
  cbn [fst] in Est'.
  pose proof (transition_frame nE treatable recovered nodeId [a; r; v] st)
    as F.
  pose proof (transition_variables nE treatable recovered nodeId [a; r; v] st)
    as HV. cbn [nth] in HV. rewrite Hf in HV. fold t1 n V in HV.
  remember (transition nE treatable recovered nodeId [a; r; v] st) as tr.
  assert (EV : V' = treatVars (transitionVars V treatable recovered t1 n a r v nE)
                      t1 n a r v nT nE).
  { subst V' st'. cbn [variables_ set_variables]. rewrite HV. reflexivity. }
  assert (HF : Frame st st').
  { subst st'. destruct F as (F1 & F2 & F3 & F4 & F5 & F6).
    repeat split; assumption. }
  clear Est' HV Heqtr.
  assert (Hun : forall n' a' r' v',
             untreated V' t1 n' a' r' v'
             = untreated V t1 n' a' r' v'
               + (if sameCell t1 n a r v t1 n' a' r' v'
                  then - movedBy V treatable t1 n a r v nE - (nT - nE)
                  else 0)).
  { intros n' a' r' v'. unfold untreated. rewrite EV.
    rewrite !treatVars_cell_all, !transitionVars_cell.
    cbn [VariableName_eqb andb].
    destruct (sameCell t1 n a r v t1 n' a' r' v'); lia. }
  split; [exact HF |].
  split.
  { intros n' a' r' v' Hne. rewrite Hun, sameCell_other by exact Hne. lia. }
  split.
  { rewrite Hun, sameCell_refl. unfold movedBy.
    unfold untreated in *.
    destruct (Z.ltb_spec (V treatable t1 n a r v) nE); lia. }
  split.
  { intros t' n'. rewrite EV. unfold treatVars, transitionVars.
    rewrite !nodeTotal_update. cbn [VariableName_eqb]. lia. }
  assert (HD : forall n',
             nodeTotal V' treated_daily t1 n'
             = nodeTotal V treated_daily t1 n'
               + cellDelta t1 n a r v nT t1 n').
  { intros n'. rewrite EV. unfold treatVars, transitionVars.
    rewrite !nodeTotal_update. cbn [VariableName_eqb]. lia. }
  split.
  { intros n' Hne. rewrite HD. unfold cellDelta.
    apply Z.eqb_neq in Hne. rewrite Hne, andb_false_r. simpl. lia. }
  rewrite HD.
  assert (Hc : cellDelta t1 n a r v nT t1 n <= nT).
  { unfold cellDelta. destruct (_ && _); lia. }
  rewrite inject_Z_plus.
  assert (Hcq : (inject_Z (cellDelta t1 n a r v nT t1 n) <= inject_Z nT)%Q)
    by (rewrite <- Zle_Qle; exact Hc).
  eapply Qle_plus_chain; [exact Hcq | exact Hshare].
Qed.

Lemma antiviral_fold nodeId (T used : Z) (l : list (list Z)) :
  NoDup l ->
  (forall s, In s l ->
     exists a r v, s = [a; r; v] /\ a <> STRATIFICATIONS_ALL
                   /\ r <> STRATIFICATIONS_ALL /\ v <> STRATIFICATIONS_ALL) ->
  0 < T -> 0 < used ->
  used <= Qtrunc (getAntiviralAdherence g_parameters * inject_Z T) ->
  forall (st : SimT) w st' w',
    frontier st = time_ st + 1 ->
    (forall n a r v, 0 <= untreated (variables_ st) (time_ st + 1) n a r v) ->
    fold_left (antiviralStratum g_parameters nodeId
                 (getAntiviralAdherence g_parameters * inject_Z T) used)
      l (st, w) = (st', w') ->
    let t1 := time_ st + 1 in
    let n := nodeIdToIndex_ st nodeId in
    let V := variables_ st in
    let V' := variables_ st' in
    Frame st st'
    /\ (forall n' a r v, 0 <= untreated V' t1 n' a r v)
    /\ (forall t' n',
           nodeTotal V' population t' n' = nodeTotal V population t' n')
    /\ (forall n', n' <> n ->
           nodeTotal V' treated_daily t1 n' = nodeTotal V treated_daily t1 n')
    /\ (inject_Z (nodeTotal V' treated_daily t1 n)
        <= inject_Z (nodeTotal V treated_daily t1 n)
           + inject_Z (sumZ l (untreatedAt V t1 n)) * inject_Z used
             / inject_Z T)%Q.
Proof.
  intros Hnd Hl HT Hused Hle.
  induction l as [| s l IH]; intros st w st' w' Hf Hphi Hfold t1 n V V'.
  - simpl in Hfold. inversion Hfold; subst st' w'. subst V'. fold V.
    split; [apply Frame_refl |]. split; [exact Hphi |].
    split; [reflexivity |]. split; [reflexivity |].
    simpl. unfold Qdiv. rewrite !Qmult_0_l, Qplus_0_r. apply Qle_refl.
  - cbn [fold_left] in Hfold.
    destruct (Hl s (or_introl eq_refl)) as (a & r & v & -> & Ha & Hr & Hv).
    destruct (antiviralStratum g_parameters nodeId
                (getAntiviralAdherence g_parameters * inject_Z T) used
                (st, w) [a; r; v]) as [st1 w1] eqn:E1.
    assert (Est1 : st1 = fst (antiviralStratum g_parameters nodeId
                                (getAntiviralAdherence g_parameters
                                 * inject_Z T) used (st, w) [a; r; v]))
      by (rewrite E1; reflexivity).
    pose proof (antiviralStratum_effect nodeId T used st w a r v Hf Ha Hr Hv
                  HT Hused Hle (Hphi _ _ _ _) st1 Est1)
      as (F1 & Hother & Hcell & Hpop & HDo & HD).
    fold t1 n V in Hother, Hcell, Hpop, HDo, HD.
    assert (Ht1 : time_ st1 = time_ st) by apply F1.
    assert (Hn1 : nodeIdToIndex_ st1 = nodeIdToIndex_ st) by apply F1.
    assert (Hf1 : frontier st1 = time_ st1 + 1).
    { unfold frontier in *. destruct F1 as (-> & -> & _). exact Hf. }
    assert (Hphi1 : forall n' a' r' v',
               0 <= untreated (variables_ st1) (time_ st1 + 1) n' a' r' v').
    { intros n' a' r' v'. rewrite Ht1. fold t1.
      destruct (list_eq_dec Z.eq_dec [n'; a'; r'; v'] [n; a; r; v])
        as [E | E].
      - inversion E; subst. exact Hcell.
      - rewrite Hother by congruence. apply Hphi. }
    clear Est1.
    assert (Hnotin : ~ In [a; r; v] l) by (inversion Hnd; assumption).
    assert (Hnd' : NoDup l) by (inversion Hnd; assumption).
    specialize (IH Hnd' (fun s Hs => Hl s (or_intror Hs)) st1 w1 st' w'
                  Hf1 Hphi1 Hfold).
    cbv zeta in IH. rewrite Ht1, Hn1 in IH. fold t1 n V' in IH.
    destruct IH as (F2 & Hphi2 & Hpop2 & HDo2 & HD2).
    split; [eapply Frame_trans; eassumption |].
    split; [exact Hphi2 |].
    split; [intros t' n'; rewrite Hpop2; apply Hpop |].
    split; [intros n' Hne; rewrite HDo2 by exact Hne; apply HDo, Hne |].
    assert (Hsum : sumZ l (untreatedAt (variables_ st1) t1 n)
                   = sumZ l (untreatedAt V t1 n)).
    { apply sumZ_ext. intros s Hs.
      destruct (Hl s (or_intror Hs)) as (a' & r' & v' & -> & _).
      unfold untreatedAt. cbn [nth]. apply Hother.
      intros E. inversion E; subst. contradiction. }
    rewrite Hsum in HD2.
    cbn [sumZ fold_right]. fold (sumZ l (untreatedAt V t1 n)).
    unfold untreatedAt at 1. cbn [nth].
    rewrite inject_Z_plus.
    eapply Qle_trans; [exact HD2 |].
    eapply Qle_trans;
      [apply Qplus_le_compat; [exact HD | apply Qle_refl] |].
    unfold Qdiv. rewrite <- Qplus_assoc.
    apply Qplus_le_compat; [apply Qle_refl |].
    apply Qle_lteq. right. ring.
Qed.

Lemma antiviralAmountUsed_le amount total pop today :
  antiviralAmountUsed g_parameters amount total pop today <= Qtrunc total
  /\ antiviralAmountUsed g_parameters amount total pop today
     <= Qtrunc (getAntiviralCapacity g_parameters * inject_Z pop
                - inject_Z today).
Proof.
  unfold antiviralAmountUsed.
  destruct (Z.gtb_spec amount (Qtrunc total)) as [E1 | E1];
    match goal with |- context [?x >? ?y] =>
      destruct (Z.gtb_spec x y) as [E2 | E2] end; lia.
Qed.

Lemma getValueSet_untreated (st : SimT) nodeId (l : list (list Z)) :
  (forall s, In s l ->
     exists a r v, s = [a; r; v] /\ a <> STRATIFICATIONS_ALL
                   /\ r <> STRATIFICATIONS_ALL /\ v <> STRATIFICATIONS_ALL) ->
  getValueSet st treatable (time_ st + 1) nodeId l
  - getValueSet st treated_ineffective_daily (time_ st + 1) nodeId l
  = sumZ l (untreatedAt (variables_ st) (time_ st + 1)
              (nodeIdToIndex_ st nodeId)).
Proof.
  intros Hl. unfold getValueSet.
  induction l as [| s l IH]; [reflexivity |].
  cbn [sumZ fold_right].
  fold (sumZ l (getValue st treatable (time_ st + 1) nodeId)).
  fold (sumZ l (getValue st treated_ineffective_daily (time_ st + 1) nodeId)).
  fold (sumZ l (untreatedAt (variables_ st) (time_ st + 1)
                  (nodeIdToIndex_ st nodeId))).
  rewrite <- IH by (intros s' Hs'; apply Hl; right; exact Hs').
  destruct (Hl s (or_introl eq_refl)) as (a & r & v & -> & Ha & Hr & Hv).
  rewrite !(getValue_cell st _ _ nodeId a r v Ha Hr Hv).
  unfold untreatedAt, untreated. cbn [nth]. lia.
Qed.




End AntiviralBound.

(** * What the rest of the day leaves alone *)

Section DailyFrames.
Context {MTRand gsl_rng : Type} {Ext : Externals MTRand gsl_rng}.
Variable g_parameters : Parameters.
Abbreviation SimT := (Sim MTRand gsl_rng).



(** Without any treatment none of the daily counters changes. *)
Lemma noTreatment_VStep tf t1 (V V' : Variables) :
  VStep g_parameters false false tf t1 V V' ->
  forall x t n a r v,
    In x (population :: treated :: dailyCounters) ->
    V' x t n a r v = V x t n a r v.
Proof.
  intros Hs x t' n' a' r' v' Hx.
  destruct Hs as [V x0 y n a r v Hxy | V n a r v num Hnum
                 | V n a r v nT Hav HnT nE
                 | V comp n a r nV total used Hvx Hc HnV Hused Hle Hu EnV].
  - rewrite transitionVars_cell.
    unfold diseaseMoves in Hxy. simpl in Hxy, Hx.
    repeat (destruct Hxy as [Hxy | Hxy];
            [inversion Hxy; subst;
             repeat (destruct Hx as [<- | Hx]; [| try contradiction]);
             cbn [VariableName_eqb andb]; lia |]).
    contradiction.
  - rewrite transitionVars_cell. simpl in Hx.
    repeat (destruct Hx as [<- | Hx]; [| try contradiction]);
      cbn [VariableName_eqb andb]; lia.
  - discriminate.
  - discriminate.
Qed.

Lemma noTreatment_VSteps tf t1 (V V' : Variables) :
  VSteps g_parameters false false tf t1 V V' ->
  forall x t n a r v,
    In x (population :: treated :: dailyCounters) ->
    V' x t n a r v = V x t n a r v.
Proof.
  intros Hs. induction Hs as [| V1 V2 V3 _ IH H23]; [reflexivity |].
  intros x t n a r v Hx.
  rewrite (noTreatment_VStep tf t1 V2 V3 H23) by exact Hx. apply IH, Hx.
Qed.


End DailyFrames.

(** * Facts about the concrete world *)

Lemma example_conservation : Conservation Example.variables0.
Proof.
  intros t n. unfold compartmentTotal, nodeTotal, sum3, Example.variables0.
  destruct ((t =? 0) && ((n =? 0) || (n =? 1))); reflexivity.
Qed.

Lemma example_finishes :
  Example.finishes 50 Example.parameters Example.state0 = true.
Proof. vm_compute. reflexivity. Qed.

Lemma example_nonnegative : NonNegative Example.variables0.
Proof.
  split.
  - intros x t n a r v _. unfold Example.variables0.
    destruct (_ && _); [destruct x; simpl; lia | lia].
  - intros t n a r. unfold Example.variables0.
    repeat destruct (_ && _); simpl; lia.
Qed.



Lemma example_treatable_nonneg t n a r v :
  0 <= Example.variables0 treatable t n a r v.
Proof. apply example_nonnegative. simpl. tauto. Qed.


Section ClaimC1.
Context {MTRand gsl_rng : Type} {Ext : Externals MTRand gsl_rng}.
Variable g_parameters : Parameters.
Abbreviation SimT := (Sim MTRand gsl_rng).

(** C1. Conservation: at every time step and node the seven compartments,
    summed over all strata, add up to the population (exact integer
    equality), and the equality is kept by a whole simulated day, by the
    processing of any event, by [expose], by the antiviral treatment and
    by the vaccination (which moves the compartment counts and the
    population by the same amounts). *)
Theorem conservation_invariant (fuel : nat) (st : SimT) :
  Conservation (variables_ st) ->
  (forall st', simulate g_parameters fuel st = Some st' ->
               Conservation (variables_ st'))
  /\ (forall nodeId event b st',
         processEvent g_parameters fuel nodeId event st = Some (b, st') ->
         Conservation (variables_ st'))
  /\ (forall num nodeId strat k st',
         expose g_parameters fuel num nodeId strat st = Some (k, st') ->
         Conservation (variables_ st'))
  /\ (forall sel,
         Conservation
           (variables_
              (applyAntiviralsToPriorityGroupSelections g_parameters sel st)))
  /\ (forall sel,
         Conservation
           (variables_
              (applyVaccinesToPriorityGroupSelections g_parameters sel st))).
Proof.
  intros HV. repeat split.
  - intros st' H. apply simulate_Day in H. destruct H as (st8 & HD & ->).
    cbn [variables_ set_time].
    eapply Conservation_Day; [exact HD |].
    apply Conservation_dayStart, HV.
  - intros nodeId event b st' H.
    eapply Conservation_Day; [eapply processEvent_Day, H | exact HV].
  - intros num nodeId strat k st' H.
    apply expose_variables in H. destruct H as [-> _].
    apply Conservation_transition; simpl; tauto.
  - intros sel. eapply Conservation_Day; [apply applyAntivirals_Day | exact HV].
  - intros sel. eapply Conservation_Day; [apply applyVaccines_Day | exact HV].
Qed.

End ClaimC1.

Lemma conservation_invariant_witness :
  Conservation (variables_ Example.state0)
  /\ Conservation (Example.after 50 Example.parameters Example.state0).
Proof.
  split; [exact example_conservation |].
  unfold Example.after.
  destruct (simulate Example.parameters 50 Example.state0) as [st' |] eqn:E.
  - exact (proj1 (conservation_invariant Example.parameters 50 Example.state0
                    example_conservation) st' E).
  - exact example_conservation.
Defined.

(** * The two generator streams *)

Section GeneratorStreams.
Context {MTRand gsl_rng : Type} {Ext : Externals MTRand gsl_rng}.
Variable g_parameters : Parameters.
Abbreviation SimT := (Sim MTRand gsl_rng).

Lemma keepsGsl_refl (st : SimT) : keepsGsl st st.
Proof. reflexivity. Qed.




















End GeneratorStreams.



(** * Travel *)

Lemma fold_left_sumQ {X : Type} (f : X -> Q) (l : list X) (init : Q) :
  (fold_left (fun acc x => acc + f x) l init == init + sumQ l f)%Q.
Proof.
  revert init. induction l as [| x l IH]; intros init; simpl.
  - ring.
  - rewrite IH. ring.
Qed.

Section TravelProofs.
Context {MTRand gsl_rng : Type} {Ext : Externals MTRand gsl_rng}.
Variable g_parameters : Parameters.
Abbreviation SimT := (Sim MTRand gsl_rng).

(** C3 (as the code has it). For sink node [i], sink age [a] and source
    node [j], the sum of the direction i->j runs over partner age [b] of
    (1 - NPI effectiveness at j) * transmitting(j, b) * beta * rho *
    C[a,b] * sigma[a] / flowReduction[a], with transmitting(j, b) =
    asymptomatic + treatable + infectious of age [b] at node [j] and time
    step t+1; the sum of the direction j->i counts the asymptomatic of
    age [b] at node [j] only, takes the NPI effectiveness at the sink [i]
    and divides by flowReduction[b].  rho = 0.39, the flow reductions are
    [10, 2, 1, 1, 2], beta = R0 / betaScale, and a source [j <> i] with
    travel in either direction adds travel[i,j] * sum_ij / pop(j) +
    travel[j,i] * sum_ji / pop(i) to the exposure probability of age
    [a]. *)
Theorem travel_infectious_contacts (st : SimT) (i j a : Z) :
  let t1 := time_ st + 1 in
  let npis := getNpis g_parameters in
  let now := Qtrunc (now_ st) in
  let asymptomaticAt b := getValue st asymptomatic t1 j [b] in
  let transmittingAt b :=
    getValue st asymptomatic t1 j [b] + getValue st treatable t1 j [b]
    + getValue st infectious t1 j [b] in
  (numberOfInfectiousContactsIJ g_parameters st i j a
   == sumQ ageGroups (fun b =>
        (1 - getNpiEffectiveness npis j now a b)
        * inject_Z (transmittingAt b)
        * (getR0 g_parameters / getBetaScale g_parameters) * (39 # 100)
        * contact a b * sigma a / ageBasedFlowReductions a))%Q
  /\ (numberOfInfectiousContactsJI g_parameters st i j a
      == sumQ ageGroups (fun b =>
           (1 - getNpiEffectiveness npis i now a b)
           * inject_Z (asymptomaticAt b)
           * (getR0 g_parameters / getBetaScale g_parameters) * (39 # 100)
           * contact a b * sigma a / ageBasedFlowReductions b))%Q
  /\ map ageBasedFlowReductions ageGroups
     = [10; 2; 1; 1; 2]%Q
  /\ (forall probs,
         travelSource g_parameters st i probs j a
         == probs a + travelContribution g_parameters st i j a)%Q.
Proof.
  intros t1 npis now asymptomaticAt transmittingAt.
  split; [| split; [| split]].
  - unfold numberOfInfectiousContactsIJ.
    rewrite (fold_left_sumQ
               (fun b =>
                  (1 - getNpiEffectiveness (getNpis g_parameters) j
                         (Qtrunc (now_ st)) a b)
                  * inject_Z (transmittings st j b)
                  * beta g_parameters * RHO * contact a b * sigma a
                  / ageBasedFlowReductions a)%Q).
    rewrite Qplus_0_l. reflexivity.
  - unfold numberOfInfectiousContactsJI.
    rewrite (fold_left_sumQ
               (fun b =>
                  (1 - getNpiEffectiveness (getNpis g_parameters) i
                         (Qtrunc (now_ st)) a b)
                  * inject_Z (asymptomatics st j b)
                  * beta g_parameters * RHO * contact a b * sigma a
                  / ageBasedFlowReductions b)%Q).
    rewrite Qplus_0_l. reflexivity.
  - reflexivity.
  - intros probs. unfold travelSource, travelContribution.
    destruct (negb (i =? j)); cbn [andb]; [| ring].
    destruct (Qltb 0 (getTravel st i j) || Qltb 0 (getTravel st j i));
      cbn [andb]; [| ring].
    destruct ((0 <=? a) && (a <? numAgeGroups_)); ring.
Qed.

End TravelProofs.

(** C3 (as stated) fails for the direction j->i: with five treatable and no
    asymptomatic individuals per stratum at the source node 20, the sum of
    the code is 0 while the stated sum is positive, wherever the NPI
    effectiveness is taken and whichever flow reduction is used. *)
Lemma travel_JI_counts_asymptomatic_only :
  (numberOfInfectiousContactsJI Example.parameters symptomaticState 10 20 0
   == 0)%Q
  /\ forall npiNodeId flowReductionOfPartner,
      ~ (numberOfInfectiousContactsJI Example.parameters symptomaticState
           10 20 0
         == statedInfectiousContacts Example.parameters symptomaticState
              npiNodeId 20 0 flowReductionOfPartner)%Q.
Proof.
  split; [vm_compute; reflexivity |].
  intros npiNodeId [|]; vm_compute; discriminate.
Qed.

Section ClaimC4.
Context {MTRand gsl_rng : Type} {Ext : Externals MTRand gsl_rng}.
Variable g_parameters : Parameters.
Abbreviation SimT := (Sim MTRand gsl_rng).


End ClaimC4.



Section AllocationLemmas.
Context {MTRand gsl_rng : Type} {Ext : Externals MTRand gsl_rng}.
Variable g_parameters : Parameters.
Abbreviation SimT := (Sim MTRand gsl_rng).

Lemma antiviralAmountUsed_min amount total pop today :
  antiviralAmountUsed g_parameters amount total pop today
  = Z.min amount
      (Z.min (Qtrunc total)
         (Qtrunc (getAntiviralCapacity g_parameters * inject_Z pop
                  - inject_Z today))).
Proof.
  unfold antiviralAmountUsed.
  destruct (Z.gtb_spec amount (Qtrunc total)) as [E1 | E1];
    match goal with |- context [?x >? ?y] =>
      destruct (Z.gtb_spec x y) as [E2 | E2] end; lia.
Qed.


Lemma antiviralStratum_stockpile nodeId total used
      (acc : SimT * AntiviralWork) s :
  stockpileNetwork_
    (fst (antiviralStratum g_parameters nodeId total used acc s))
  = stockpileNetwork_ (fst acc).
Proof.
  destruct acc as [st w]. unfold antiviralStratum. cbn [fst].
  destruct (_ <=? 0); [reflexivity |].
  match goal with |- context [if ?c <=? 0 then _ else _] =>
    destruct (c <=? 0) end; [reflexivity |].
  cbn [fst stockpileNetwork_ set_variables].
  unfold transition. cbn [snd]. destruct (_ <? _); reflexivity.
Qed.

Lemma antiviral_fold_stockpile nodeId total used (l : list (list Z)) :
  forall acc : SimT * AntiviralWork,
    stockpileNetwork_
      (fst (fold_left (antiviralStratum g_parameters nodeId total used) l acc))
    = stockpileNetwork_ (fst acc).
Proof.
  induction l as [| s l IH]; intros acc; [reflexivity |].
  cbn [fold_left]. rewrite IH. apply antiviralStratum_stockpile.
Qed.

End AllocationLemmas.

Section ClaimC5.
Context {MTRand gsl_rng : Type} {Ext : Externals MTRand gsl_rng}.
Variable g_parameters : Parameters.
Abbreviation SimT := (Sim MTRand gsl_rng).


End ClaimC5.


Section CapacityZero.
Context {MTRand gsl_rng : Type} {Ext : Externals MTRand gsl_rng}.
Variable g_parameters : Parameters.
Abbreviation SimT := (Sim MTRand gsl_rng).

Hypothesis capacity_zero : (getAntiviralCapacity g_parameters == 0)%Q.





End CapacityZero.

Section ClaimC6.
Context {MTRand gsl_rng : Type} {Ext : Externals MTRand gsl_rng}.
Variable g_parameters : Parameters.
Abbreviation SimT := (Sim MTRand gsl_rng).



End ClaimC6.


Section QueueLemmas.
Context {MTRand gsl_rng : Type} {Ext : Externals MTRand gsl_rng}.
Variable g_parameters : Parameters.
Abbreviation SimT := (Sim MTRand gsl_rng).

Lemma initializeContactEvents_queues fuel schedule nodeId strat (st : SimT)
      schedule' st' :
  initializeContactEvents g_parameters fuel schedule nodeId strat st
  = Some (schedule', st') ->
  scheduleEventQueues_ st' = scheduleEventQueues_ st.
Proof.
  unfold initializeContactEvents.
  destruct (negb (expectedStratifications st)).
  - intros H. inversion H; subst. reflexivity.
  - destruct (fold_left _ _ _) as [[s g] |]; [| discriminate].
    intros H. inversion H; subst. reflexivity.
Qed.


Lemma exposePrecomputed_queues (st : SimT) :
  scheduleEventQueues_ (exposePrecomputed st) = scheduleEventQueues_ st.
Proof.
  unfold exposePrecomputed.
  destruct (_ && _).
  - unfold precompute. destruct (precomputeNodes _ _ _ _ _ _). reflexivity.
  - destruct (_ && _); [| reflexivity].
    unfold precompute. destruct (precomputeNodes _ _ _ _ _ _). reflexivity.
Qed.


End QueueLemmas.

Section ClaimC7.
Context {MTRand gsl_rng : Type} {Ext : Externals MTRand gsl_rng}.
Variable g_parameters : Parameters.
Abbreviation SimT := (Sim MTRand gsl_rng).


(** Every CONTACT event that is not dropped goes through the dispatch. *)
Lemma processContact_dispatches fuel nodeId event (st : SimT) b st' :
  processContact g_parameters fuel nodeId event st = Some (b, st') ->
  (b = false /\ List.length (toStratificationValues event) <> 2%nat)
  \/ (b = true /\ variables_ st' = variables_ st
      /\ scheduleEventQueues_ st' = scheduleEventQueues_ st)
  \/ (exists v g,
         contactDispatch g_parameters fuel nodeId event v (set_rand g st)
         = Some st').
Proof.
  unfold processContact.
  destruct (Nat.eqb_spec (List.length (toStratificationValues event)) 2)
    as [Hlen | Hlen]; cbn [negb].
  2:{ intros H. inversion H; subst. left. split; [reflexivity | exact Hlen]. }
  destruct (isNpiEffective _ _ _ _ _).
  { intros H. inversion H; subst. right. left. repeat split. }
  destruct (randInt _ (rand_ st)) as [i g].
  assert (Hd : forall v g0,
             match contactDispatch g_parameters fuel nodeId event v
                     (set_rand g0 st) with
             | Some st'' => Some (true, st'')
             | None => None
             end = Some (b, st') ->
             exists v g,
               contactDispatch g_parameters fuel nodeId event v
                 (set_rand g st) = Some st').
  { intros v g0 H.
    destruct (contactDispatch _ _ _ _ _ (set_rand g0 st)) as [s2 |] eqn:E;
      [| discriminate].
    inversion H; subst. exists v, g0. exact E. }
  destruct (_ >=? i + 1).
  - destruct (_ <? i + 1).
    + destruct (rand _) as [u g'].
      destruct (Qle_bool u _).
      * intros H. inversion H; subst. right. left. repeat split.
      * intros H. right. right. apply (Hd 1 g'). exact H.
    + intros H. right. right. apply (Hd 1 g). exact H.
  - intros H. right. right. apply (Hd 0 g). exact H.
Qed.

End ClaimC7.


(** * The latency loop *)



Section ClaimC8.
Context {MTRand gsl_rng : Type} {Ext : Externals MTRand gsl_rng}.
Variable g_parameters : Parameters.
Abbreviation SimT := (Sim MTRand gsl_rng).



End ClaimC8.


Section ClaimC9.
Context {MTRand gsl_rng : Type} {Ext : Externals MTRand gsl_rng}.
Variable g_parameters : Parameters.
Abbreviation SimT := (Sim MTRand gsl_rng).

Lemma sameSimulationState_put_flog lvl msg (st : SimT) :
  sameSimulationState st (put_flog lvl msg st).
Proof. repeat split. Qed.

Lemma expectedStratifications_false (st : SimT) :
  (List.length (nth 0 (stratifications_ st) []),
   List.length (nth 1 (stratifications_ st) []),
   List.length (nth 2 (stratifications_ st) [])) <> (5, 2, 2)%nat ->
  expectedStratifications st = false.
Proof.
  intros H. unfold expectedStratifications, numAgeGroups_, numRiskGroups_,
    numVaccinatedGroups_.
  destruct (Z.eqb_spec (Z.of_nat (List.length (nth 0 (stratifications_ st) [])))
              5) as [E0 | E0]; [| reflexivity].
  destruct (Z.eqb_spec (Z.of_nat (List.length (nth 1 (stratifications_ st) [])))
              2) as [E1 | E1]; [| reflexivity].
  destruct (Z.eqb_spec (Z.of_nat (List.length (nth 2 (stratifications_ st) [])))
              2) as [E2 | E2]; [| reflexivity].
  exfalso. apply H.
  replace (List.length (nth 0 (stratifications_ st) [])) with 5%nat by lia.
  replace (List.length (nth 1 (stratifications_ st) [])) with 2%nat by lia.
  replace (List.length (nth 2 (stratifications_ st) [])) with 2%nat by lia.
  reflexivity.
Qed.

(** C9. A precondition violation aborts the operation, reports an error
    and leaves the simulation state alone: a CONTACT event whose target
    stratification does not have exactly two values makes [processEvent]
    return [false], and stratification dimensions other than (5, 2, 2)
    make [initializeContactEvents] return at once; in both cases an error
    is logged and no member of the simulator (variables, stockpiles,
    schedule queues, generators, caches) changes, nor does the schedule
    being initialised. *)
Theorem precondition_violation_aborts (fuel : nat) (st : SimT) :
  (forall nodeId event,
      type event = CONTACT ->
      List.length (toStratificationValues event) <> 2%nat ->
      exists st',
        processEvent g_parameters fuel nodeId event st = Some (false, st')
        /\ sameSimulationState st st'
        /\ log_ st'
           = (LOG_ERROR, "incorrect event.toStratificationValues"%string)
               :: log_ st)
  /\ (forall schedule nodeId strat,
         (List.length (nth 0 (stratifications_ st) []),
          List.length (nth 1 (stratifications_ st) []),
          List.length (nth 2 (stratifications_ st) [])) <> (5, 2, 2)%nat ->
         exists st',
           initializeContactEvents g_parameters fuel schedule nodeId strat st
           = Some (schedule, st')
           /\ sameSimulationState st st'
           /\ log_ st'
              = (LOG_ERROR, "wrong number of stratifications"%string)
                  :: log_ st).
Proof.
  split.
  - intros nodeId event Hty Hlen.
    exists (put_flog LOG_ERROR "incorrect event.toStratificationValues" st).
    split; [| split; [apply sameSimulationState_put_flog | reflexivity]].
    unfold processEvent. rewrite Hty. unfold processContact.
    apply Nat.eqb_neq in Hlen. rewrite Hlen. reflexivity.
  - intros schedule nodeId strat Hdims.
    exists (put_flog LOG_ERROR "wrong number of stratifications" st).
    split; [| split; [apply sameSimulationState_put_flog | reflexivity]].
    unfold initializeContactEvents.
    rewrite (expectedStratifications_false st Hdims). reflexivity.
Qed.

End ClaimC9.

Lemma precondition_violation_aborts_witness :
  exists st',
    processEvent Example.parameters 5 10
      (mkEvent 0 (1 # 4) CONTACT [1; 0; 0] [0; 0; 0]) Example.state0
    = Some (false, st')
    /\ sameSimulationState Example.state0 st'.
Proof.
  destruct (proj1 (precondition_violation_aborts Example.parameters 5
                     Example.state0)
              10 (mkEvent 0 (1 # 4) CONTACT [1; 0; 0] [0; 0; 0]))
    as (st' & H1 & H2 & _).
  - reflexivity.
  - simpl. lia.
  - exists st'. split; assumption.
Defined.

(** * The daily counters *)

Section DailyCounters.
Context {MTRand gsl_rng : Type} {Ext : Externals MTRand gsl_rng}.
Variable g_parameters : Parameters.
Abbreviation SimT := (Sim MTRand gsl_rng).





End DailyCounters.


(** * The schedule queues *)

Section QueueProofs.
Context {MTRand gsl_rng : Type} {Ext : Externals MTRand gsl_rng}.
Variable g_parameters : Parameters.
Abbreviation SimT := (Sim MTRand gsl_rng).

Lemma queueGained_refl nodeId (st : SimT) : queueGained nodeId [] st st.
Proof. split; [rewrite app_nil_r; reflexivity | reflexivity]. Qed.

Lemma queueGained_trans nodeId new1 new2 (st1 st2 st3 : SimT) :
  queueGained nodeId new1 st1 st2 -> queueGained nodeId new2 st2 st3 ->
  queueGained nodeId (new1 ++ new2) st1 st3.
Proof.
  intros [H1 O1] [H2 O2]. split.
  - rewrite H2, H1, app_assoc. reflexivity.
  - intros n Hn. rewrite O2, O1 by exact Hn. reflexivity.
Qed.

Lemma queueGained_same nodeId (st st' : SimT) :
  scheduleEventQueues_ st' = scheduleEventQueues_ st ->
  queueGained nodeId [] st st'.
Proof.
  intros E. split; [rewrite E, app_nil_r; reflexivity |].
  intros n _. rewrite E. reflexivity.
Qed.

Lemma exposeSchedules_queueGained fuel count nodeId strat :
  forall (st st' : SimT),
    exposeSchedules g_parameters fuel count nodeId strat st = Some st' ->
    exists new,
      List.length new = count /\ queueGained nodeId new st st'.
Proof.
  induction count as [| count IH]; simpl; intros st st' H.
  - inversion H; subst. exists []. split; [reflexivity |].
    apply queueGained_refl.
  - destruct (newSchedule g_parameters (now_ st) (rand_ st) strat)
      as [schedule g].
    destruct (initializeContactEvents _ _ _ _ _ _) as [[schedule' st1] |] eqn:E;
      [| discriminate].
    apply initializeContactEvents_queues in E.
    apply IH in H. destruct H as (new & Hlen & [H1 O1]).
    exists (schedule' :: new). split; [simpl; rewrite Hlen; reflexivity |].
    split.
    + rewrite H1. cbn [scheduleEventQueues_ set_queue].
      rewrite Z.eqb_refl. unfold Heap.push. rewrite E.
      cbn [scheduleEventQueues_ set_rand]. rewrite <- app_assoc. reflexivity.
    + intros n Hn. rewrite O1 by exact Hn.
      cbn [scheduleEventQueues_ set_queue].
      apply Z.eqb_neq in Hn. rewrite Hn, E. reflexivity.
Qed.

Lemma transition_queues num x y nodeId strat (st : SimT) :
  scheduleEventQueues_ (snd (transition num x y nodeId strat st))
  = scheduleEventQueues_ st.
Proof. unfold transition. cbn [snd]. destruct (_ <? num); reflexivity. Qed.

Lemma expose_queueGained fuel num nodeId strat (st : SimT) k st' :
  expose g_parameters fuel num nodeId strat st = Some (k, st') ->
  exists new,
    List.length new = Z.to_nat k /\ queueGained nodeId new st st'.
Proof.
  unfold expose. fold (exposePrecomputed st).
  pose proof (exposePrecomputed_queues st) as HQ.
  unfold EpidemicSimulation_expose.
  pose proof (transition_queues num susceptible exposed nodeId strat
                (exposePrecomputed st)) as HT.
  destruct (transition num susceptible exposed nodeId strat
              (exposePrecomputed st)) as [numExposed st2].
  cbn [snd] in HT.
  destruct (exposeSchedules _ _ _ _ _ _) as [st3 |] eqn:E; [| discriminate].
  intros H. inversion H; subst.
  apply exposeSchedules_queueGained in E.
  destruct E as (new & Hlen & [H1 O1]).
  exists new. split; [exact Hlen |]. split.
  - rewrite H1, HT, HQ. reflexivity.
  - intros n Hn. rewrite O1, HT, HQ by exact Hn. reflexivity.
Qed.

Lemma contactDispatch_queueGained fuel nodeId event v (st st' : SimT) :
  contactDispatch g_parameters fuel nodeId event v st = Some st' ->
  exists new, queueGained nodeId new st st'.
Proof.
  unfold contactDispatch.
  match goal with |- context [if ?c >? 0 then _ else _] => destruct (c >? 0) end.
  - destruct (randInt _ (rand_ st)) as [i g].
    match goal with |- context [if ?c then _ else _] => destruct c end.
    + destruct (expose _ _ _ _ _ _) as [[k st2] |] eqn:E; [| discriminate].
      intros H. inversion H; subst.
      apply expose_queueGained in E. destruct E as (new & _ & HG).
      exists new. exact HG.
    + intros H. inversion H; subst. exists []. apply queueGained_same.
      reflexivity.
  - intros H. inversion H; subst. exists []. apply queueGained_refl.
Qed.

Lemma processEvent_queueGained fuel nodeId event (st : SimT) b st' :
  processEvent g_parameters fuel nodeId event st = Some (b, st') ->
  exists new, queueGained nodeId new st st'.
Proof.
  unfold processEvent.
  destruct (type event);
    try (intros H; inversion H; subst; exists [];
         apply queueGained_same, transition_queues).
  intros H.
  destruct (processContact_dispatches g_parameters fuel nodeId event st b st' H)
    as [[-> Hlen] | [(-> & _ & HQ) | (v & g & Hd)]].
  - unfold processContact in H. apply Nat.eqb_neq in Hlen.
    rewrite Hlen in H. cbn [negb] in H. inversion H; subst.
    exists []. apply queueGained_same. reflexivity.
  - exists []. apply queueGained_same, HQ.
  - apply contactDispatch_queueGained in Hd. exact Hd.
Qed.

(** ** The event loop *)

Lemma processNodeEvents_time fuel0 fuel nodeId (st st' : SimT) :
  processNodeEvents g_parameters fuel0 fuel nodeId st = Some st' ->
  time_ st' = time_ st.
Proof.
  intros H.
  destruct (processNodeEvents_Day g_parameters true true fuel0 fuel nodeId
              st st' H) as [F _].
  apply F.
Qed.

Lemma processNodeEvents_other fuel0 fuel nodeId :
  forall (st st' : SimT),
    processNodeEvents g_parameters fuel0 fuel nodeId st = Some st' ->
    forall n, n <> nodeId ->
      scheduleEventQueues_ st' n = scheduleEventQueues_ st n.
Proof.
  induction fuel as [| fuel IH]; intros st st'; simpl.
  - destruct (scheduleEventQueues_ st nodeId) as [| s0 q0].
    + intros H. inversion H; subst. reflexivity.
    + destruct (Qltb _ _); [discriminate |].
      intros H. inversion H; subst. reflexivity.
  - destruct (scheduleEventQueues_ st nodeId) as [| s0 q0].
    + intros H. inversion H; subst. reflexivity.
    + destruct (Qltb _ _).
      2:{ intros H. inversion H; subst. reflexivity. }
      destruct (negb _ && negb _).
      * destruct (processEvent _ _ _ _ _) as [[b st3] |] eqn:E; [| discriminate].
        apply processEvent_queueGained in E. destruct E as (new & [_ O]).
        intros H n Hn. rewrite (IH _ _ H n Hn).
        assert (Hq : forall q (s : SimT),
                   scheduleEventQueues_ (set_queue nodeId q s) n
                   = scheduleEventQueues_ s n).
        { intros q s. cbn [scheduleEventQueues_ set_queue].
          apply Z.eqb_neq in Hn. rewrite Hn. reflexivity. }
        destruct (negb _); rewrite ?Hq, O by exact Hn;
          cbn [scheduleEventQueues_ set_now]; apply Hq.
      * intros H n Hn. rewrite (IH _ _ H n Hn).
        cbn [scheduleEventQueues_ set_queue].
        apply Z.eqb_neq in Hn. rewrite Hn. reflexivity.
Qed.

Lemma processNodeEvents_drains fuel0 fuel nodeId :
  forall (st st' : SimT),
    processNodeEvents g_parameters fuel0 fuel nodeId st = Some st' ->
    noDueEvent st' nodeId = true.
Proof.
  induction fuel as [| fuel IH]; intros st st'; simpl.
  - destruct (scheduleEventQueues_ st nodeId) as [| s0 q0] eqn:Eq.
    + intros H. inversion H; subst. unfold noDueEvent. rewrite Eq. reflexivity.
    + destruct (Qltb _ _) eqn:Ed; [discriminate |].
      intros H. inversion H; subst. unfold noDueEvent. rewrite Eq, Ed.
      reflexivity.
  - destruct (scheduleEventQueues_ st nodeId) as [| s0 q0] eqn:Eq.
    + intros H. inversion H; subst. unfold noDueEvent. rewrite Eq. reflexivity.
    + destruct (Qltb _ _) eqn:Ed.
      2:{ intros H. inversion H; subst. unfold noDueEvent. rewrite Eq, Ed.
          reflexivity. }
      destruct (negb _ && negb _).
      * destruct (processEvent _ _ _ _ _) as [[b st3] |]; [| discriminate].
        apply IH.
      * apply IH.
Qed.

Lemma noDueEvent_kept (n : Z) (st st' : SimT) :
  time_ st' = time_ st ->
  scheduleEventQueues_ st' n = scheduleEventQueues_ st n ->
  noDueEvent st n = true -> noDueEvent st' n = true.
Proof. unfold noDueEvent. intros -> ->. exact (fun H => H). Qed.

(** X1. The loops of lines 154-184: once [simulate] has processed the events
    of the day, no node of the simulation has a schedule left whose next
    event falls before the end of the day; the processing of one node
    never touches the queue of another, and the day is still the same. *)
Theorem events_of_the_day_processed (fuel : nat) (st st' : SimT) :
  processEvents g_parameters fuel st = Some st' ->
  time_ st' = time_ st
  /\ (forall nodeId, In nodeId (nodeIds_ st) -> noDueEvent st' nodeId = true)
  /\ (forall n, ~ In n (nodeIds_ st) ->
        scheduleEventQueues_ st' n = scheduleEventQueues_ st n).
Proof.
  unfold processEvents.
  generalize (nodeIds_ st) as l. intros l. revert st.
  induction l as [| m l IH]; intros st; cbn [fold_left].
  - intros H. inversion H; subst. repeat split; intros; contradiction.
  - destruct (processNodeEvents g_parameters fuel fuel m st) as [st1 |] eqn:E.
    2:{ intros H. exfalso. clear - H.
        induction l as [| y l IHl]; simpl in H; [discriminate | auto]. }
    intros H. destruct (IH st1 H) as (Ht & Hd & Ho).
    pose proof (processNodeEvents_time fuel fuel m st st1 E) as Ht1.
    split; [rewrite Ht; exact Ht1 |]. split.
    + intros nodeId [-> | Hin].
      * destruct (in_dec Z.eq_dec nodeId l) as [Hl | Hl]; [apply Hd, Hl |].
        apply (noDueEvent_kept nodeId st1 st' Ht (Ho nodeId Hl)).
        apply (processNodeEvents_drains fuel fuel nodeId st st1 E).
      * apply Hd, Hin.
    + intros n Hn. rewrite Ho by (intros Hl; apply Hn; right; exact Hl).
      apply (processNodeEvents_other fuel fuel m st st1 E).
      intros ->. apply Hn. left. reflexivity.
Qed.

(** X2. [expose] (lines 77-109) returns the number [k] of individuals the base
    class moved from "susceptible" to "exposed", and gives each of them a
    schedule: the node's queue gains exactly [k] schedules at its end,
    the schedules already there and the queues of the other nodes are
    kept, at most [num] individuals are exposed and never more than there
    are susceptibles in the stratum. *)
Theorem expose_one_schedule_each (fuel : nat) (num nodeId : Z)
        (strat : list Z) (st : SimT) (k : Z) (st' : SimT) :
  expose g_parameters fuel num nodeId strat st = Some (k, st') ->
  let n := nodeIdToIndex_ st nodeId in
  let a := nth 0 strat 0 in
  let r := nth 1 strat 0 in
  let v := nth 2 strat 0 in
  let t := frontier st in
  (exists new,
      List.length new = Z.to_nat k
      /\ scheduleEventQueues_ st' nodeId
         = scheduleEventQueues_ st nodeId ++ new)
  /\ (forall n', n' <> nodeId ->
        scheduleEventQueues_ st' n' = scheduleEventQueues_ st n')
  /\ k <= num
  /\ k <= variables_ st susceptible t n a r v
  /\ variables_ st' susceptible t n a r v
     = variables_ st susceptible t n a r v - k
  /\ variables_ st' exposed t n a r v
     = variables_ st exposed t n a r v + k.
Proof.
  intros H n a r v t.
  destruct (expose_queueGained fuel num nodeId strat st k st' H)
    as (new & Hlen & [H1 O1]).
  apply expose_variables in H. destruct H as [HV Hk].
  fold n a r v t in HV, Hk.
  split; [exists new; split; assumption |].
  split; [exact O1 |].
  assert (Hm : movedBy (variables_ st) susceptible t n a r v num = k).
  { unfold movedBy. symmetry. exact Hk. }
  split; [rewrite Hk; destruct (Z.ltb_spec (variables_ st susceptible t n a r v) num); lia |].
  split; [rewrite Hk; destruct (Z.ltb_spec (variables_ st susceptible t n a r v) num); lia |].
  rewrite HV, !transitionVars_cell, Hm.
  cbn [VariableName_eqb andb]. rewrite sameCell_refl. split; lia.
Qed.

End QueueProofs.

Lemma example_events_processed : exampleEventsProcessed = true.
Proof. vm_compute. reflexivity. Qed.

Lemma events_of_the_day_processed_witness :
  exists st',
    processEvents Example.parameters 50 exampleBeforeEvents = Some st'
    /\ noDueEvent st' 10 = true.
Proof.
  destruct (processEvents Example.parameters 50 exampleBeforeEvents)
    as [st' |] eqn:E.
  - exists st'. split; [reflexivity |].
    apply (proj1 (proj2 (events_of_the_day_processed Example.parameters 50
                           exampleBeforeEvents st' E))).
    vm_compute. tauto.
  - pose proof example_events_processed as F.
    unfold exampleEventsProcessed in F. rewrite E in F. discriminate F.
Defined.

Lemma expose_one_schedule_each_witness :
  exists k st',
    expose Example.parameters 50 3 10 [0; 0; 0]
      (precompute 1 (dayStart Example.state0)) = Some (k, st')
    /\ k <= 3
    /\ List.length (scheduleEventQueues_ st' 10) = (2 + Z.to_nat k)%nat.
Proof.
  destruct (expose Example.parameters 50 3 10 [0; 0; 0]
              (precompute 1 (dayStart Example.state0)))
    as [[k st'] |] eqn:E.
  - exists k, st'. split; [reflexivity |].
    destruct (expose_one_schedule_each Example.parameters 50 3 10 [0; 0; 0]
                (precompute 1 (dayStart Example.state0)) k st' E)
      as ((new & Hlen & Hq) & _ & Hk & _).
    split; [exact Hk |].
    rewrite Hq, length_app, Hlen.
    replace (List.length
               (scheduleEventQueues_ (precompute 1 (dayStart Example.state0)) 10))
      with 2%nat by (vm_compute; reflexivity).
    reflexivity.
  - vm_compute in E. discriminate E.
Defined.

(** * Contact events *)

Lemma Qltb_true (x y : Q) : Qltb x y = true <-> (x < y)%Q.
Proof.
  unfold Qltb. rewrite negb_true_iff. split.
  - intros H. apply Qnot_le_lt. intros Hle.
    apply Qle_bool_iff in Hle. congruence.
  - intros H. destruct (Qle_bool y x) eqn:E; [| reflexivity].
    apply Qle_bool_iff in E. exfalso. exact (Qlt_not_le _ _ H E).
Qed.

Section ContactEvents.
Context {MTRand gsl_rng : Type} {Ext : Externals MTRand gsl_rng}.
Variable g_parameters : Parameters.
Abbreviation SimT := (Sim MTRand gsl_rng).

Hypothesis exponential_nonneg :
  forall rate (g : MTRand), (0 <= fst (random_exponential rate g))%Q.

Lemma contactLoop_events fuel rate TcFinal from a r tMin :
  In a ageGroups -> In r riskGroups ->
  forall TcInit Tc schedule g schedule' g',
    (tMin <= TcInit)%Q -> (TcInit <= Tc)%Q ->
    contactLoop fuel rate TcFinal from [a; r] TcInit Tc schedule g
    = Some (schedule', g') ->
    sameScheduleHeader schedule schedule'
    /\ exists new,
         eventQueue_ schedule' = eventQueue_ schedule ++ new
         /\ Forall (contactEventOf from tMin TcFinal) new.
Proof.
  intros Ha Hr.
  induction fuel as [| fuel IH]; intros TcInit Tc schedule g schedule' g' H1 H2;
    simpl.
  - destruct (Qltb Tc TcFinal); [discriminate |].
    intros H. inversion H; subst. split; [repeat split |].
    exists []. rewrite app_nil_r. split; [reflexivity | constructor].
  - destruct (Qltb Tc TcFinal) eqn:Elt.
    2:{ intros H. inversion H; subst. split; [repeat split |].
        exists []. rewrite app_nil_r. split; [reflexivity | constructor]. }
    pose proof (exponential_nonneg rate g) as Hd.
    destruct (random_exponential rate g) as [d g1]. cbn [fst] in Hd.
    intros H. apply IH in H.
    + destruct H as [Hh (new & Hq & Hall)].
      split.
      * destruct Hh as (h1 & h2 & h3 & h4 & h5).
        repeat split; assumption.
      * exists (mkEvent TcInit Tc CONTACT from [a; r] :: new).
        split.
        -- rewrite Hq. cbn [eventQueue_ Schedule.insertEvent].
           rewrite <- app_assoc. reflexivity.
        -- constructor; [| exact Hall].
           repeat split; cbn [type fromStratificationValues
                                toStratificationValues initializationTime time];
             try assumption.
           ++ exists a, r. repeat split; assumption.
           ++ apply Qltb_true, Elt.
    + eapply Qle_trans; [exact H1 | exact H2].
    + rewrite <- (Qplus_0_r Tc) at 1. apply Qplus_le_r. exact Hd.
Qed.

Lemma contactEventsTo_events fuel (st : SimT) nodeId strat beta a r
      schedule g schedule' g' :
  In a ageGroups -> In r riskGroups ->
  contactEventsTo fuel st nodeId strat beta a r (Some (schedule, g))
  = Some (schedule', g') ->
  sameScheduleHeader schedule schedule'
  /\ exists new,
       eventQueue_ schedule' = eventQueue_ schedule ++ new
       /\ Forall (contactEventOf strat (infectedTMin_ schedule)
                    (infectedTMax_ schedule)) new.
Proof.
  intros Ha Hr. unfold contactEventsTo.
  match goal with |- context [random_exponential ?rate g] =>
    pose proof (exponential_nonneg rate g) as Hd;
    destruct (random_exponential rate g) as [d g1]
  end.
  cbn [fst] in Hd. intros H.
  apply (contactLoop_events _ _ _ _ a r (infectedTMin_ schedule) Ha Hr) in H.
  - exact H.
  - apply Qle_refl.
  - unfold Schedule.getInfectedTMin.
    rewrite <- (Qplus_0_r (infectedTMin_ schedule)) at 1.
    apply Qplus_le_r. exact Hd.
Qed.

Lemma contactEvents_fold fuel (st : SimT) nodeId strat beta
      (pairs : list (Z * Z)) :
  (forall p, In p pairs -> In (fst p) ageGroups /\ In (snd p) riskGroups) ->
  forall schedule g schedule' g',
    fold_left (fun acc p =>
                 contactEventsTo fuel st nodeId strat beta (fst p) (snd p) acc)
      pairs (Some (schedule, g)) = Some (schedule', g') ->
    sameScheduleHeader schedule schedule'
    /\ exists new,
         eventQueue_ schedule' = eventQueue_ schedule ++ new
         /\ Forall (contactEventOf strat (infectedTMin_ schedule)
                      (infectedTMax_ schedule)) new.
Proof.
  induction pairs as [| p pairs IH]; intros Hp schedule g schedule' g';
    cbn [fold_left].
  - intros H. inversion H; subst. split; [repeat split |].
    exists []. rewrite app_nil_r. split; [reflexivity | constructor].
  - destruct (contactEventsTo fuel st nodeId strat beta (fst p) (snd p)
                (Some (schedule, g))) as [[s1 g1] |] eqn:E.
    2:{ intros H. exfalso. clear - H.
        induction pairs as [| y l IHl]; simpl in H; [discriminate | auto]. }
    destruct (Hp p (or_introl eq_refl)) as [Ha Hr].
    apply (contactEventsTo_events _ _ _ _ _ _ _ _ _ _ _ Ha Hr) in E.
    destruct E as [Hh1 (new1 & Hq1 & Hall1)].
    intros H. apply IH in H.
    2:{ intros q Hq. apply Hp. right. exact Hq. }
    destruct H as [Hh2 (new2 & Hq2 & Hall2)].
    destruct Hh1 as (a1 & a2 & a3 & a4 & a5).
    destruct Hh2 as (b1 & b2 & b3 & b4 & b5).
    split; [repeat split; congruence |].
    exists (new1 ++ new2). split.
    + rewrite Hq2, Hq1, app_assoc. reflexivity.
    + apply Forall_app. split; [exact Hall1 |].
      rewrite a4, a5 in Hall2. exact Hall2.
Qed.

Lemma nested_fold_pairs {X : Type} (f : Z -> Z -> X -> X) (la lr : list Z) :
  forall acc,
    fold_left (fun acc a => fold_left (fun acc' r => f a r acc') lr acc) la acc
    = fold_left (fun acc p => f (fst p) (snd p) acc)
        (flat_map (fun a => map (fun r => (a, r)) lr) la) acc.
Proof.
  induction la as [| a la IH]; intros acc; [reflexivity |].
  cbn [fold_left flat_map]. rewrite fold_left_app, IH. f_equal.
  clear. revert acc. induction lr as [| r lr IHr]; intros acc; [reflexivity |].
  cbn [fold_left map fst snd]. apply IHr.
Qed.

(** X3. [initializeContactEvents] (lines 272-329) only adds events to the
    schedule, behind the ones it holds, and each of them is a CONTACT
    event from the individual's own stratum to an (age group, risk group)
    pair, initiated no earlier than the start of the infectious period and
    due before its end; so [processEvent] never rejects one of them.
    Neither the variables nor any queue of the simulator changes. *)
Theorem contact_events_well_formed (fuel : nat)
        (schedule : StochasticSEATIRDSchedule) (nodeId : Z) (strat : list Z)
        (st : SimT) (schedule' : StochasticSEATIRDSchedule) (st' : SimT) :
  initializeContactEvents g_parameters fuel schedule nodeId strat st
  = Some (schedule', st') ->
  sameScheduleHeader schedule schedule'
  /\ variables_ st' = variables_ st
  /\ scheduleEventQueues_ st' = scheduleEventQueues_ st
  /\ exists new,
       eventQueue_ schedule' = eventQueue_ schedule ++ new
       /\ Forall (contactEventOf strat (infectedTMin_ schedule)
                    (infectedTMax_ schedule)) new
       /\ forall e, In e new ->
            forall fuel2 nodeId2 (st2 : SimT) b st3,
              processEvent g_parameters fuel2 nodeId2 e st2 = Some (b, st3) ->
              b = true.
Proof.
  intros H.
  assert (HV : variables_ st' = variables_ st
               /\ scheduleEventQueues_ st' = scheduleEventQueues_ st).
  { split.
    - apply (initializeContactEvents_variables g_parameters fuel schedule
               nodeId strat st schedule' st' H).
    - apply (initializeContactEvents_queues g_parameters fuel schedule
               nodeId strat st schedule' st' H). }
  destruct HV as [HV HQ].
  assert (HE : sameScheduleHeader schedule schedule'
               /\ exists new,
                    eventQueue_ schedule' = eventQueue_ schedule ++ new
                    /\ Forall (contactEventOf strat (infectedTMin_ schedule)
                                 (infectedTMax_ schedule)) new).
  { revert H. unfold initializeContactEvents.
    destruct (negb (expectedStratifications st)).
    - intros H. inversion H; subst. split; [repeat split |].
      exists []. rewrite app_nil_r. split; [reflexivity | constructor].
    - rewrite (nested_fold_pairs
                 (fun a r acc =>
                    contactEventsTo fuel st nodeId strat
                      (getR0 g_parameters / getBetaScale g_parameters)%Q
                      a r acc)).
      destruct (fold_left _ _ _) as [[s g] |] eqn:E; [| discriminate].
      intros H. inversion H; subst.
      apply contactEvents_fold in E; [exact E |].
      intros p Hp. apply in_flat_map in Hp. destruct Hp as (a & Ha & Hp).
      apply in_map_iff in Hp. destruct Hp as (r & <- & Hr).
      split; assumption. }
  destruct HE as [Hh (new & Hq & Hall)].
  split; [exact Hh |]. split; [exact HV |]. split; [exact HQ |].
  exists new. split; [exact Hq |]. split; [exact Hall |].
  intros e He fuel2 nodeId2 st2 b st3 Hp.
  rewrite Forall_forall in Hall. destruct (Hall e He) as (Hty & _ & Hto & _).
  destruct Hto as (a & r & _ & _ & Hto).
  destruct (processContact_dispatches g_parameters fuel2 nodeId2 e st2 b st3)
    as [[_ Hlen] | [(-> & _) | (v & g & Hd)]].
  - unfold processEvent in Hp. rewrite Hty in Hp. exact Hp.
  - exfalso. apply Hlen. rewrite Hto. reflexivity.
  - reflexivity.
  - unfold processEvent in Hp. rewrite Hty in Hp.
    unfold processContact in Hp. rewrite Hto in Hp.
    cbn [List.length Nat.eqb negb] in Hp.
    destruct (isNpiEffective _ _ _ _ _); [inversion Hp; reflexivity |].
    destruct (randInt _ (rand_ st2)) as [i g0].
    repeat match type of Hp with
           | context [if ?c then _ else _] => destruct c
           | context [let '(_, _) := ?c in _] => destruct c
           | context [match contactDispatch ?a1 ?a2 ?a3 ?a4 ?a5 ?a6 with _ => _ end] =>
               destruct (contactDispatch a1 a2 a3 a4 a5 a6)
           end; try discriminate; inversion Hp; reflexivity.
Qed.

End ContactEvents.

Lemma example_exponential_nonneg :
  forall (rate : Q) (g : list Z), (0 <= fst (random_exponential rate g))%Q.
Proof.
  intros rate [| x g]; cbn [random_exponential Example.scripted Example.next fst].
  - vm_compute. discriminate.
  - apply Qle_shift_div_l; [reflexivity |].
    rewrite Qmult_0_l. change 0%Q with (inject_Z 0). rewrite <- Zle_Qle. lia.
Qed.

Lemma contact_events_well_formed_witness :
  exists schedule' st',
    initializeContactEvents Example.parameters 50 (Example.chain 0 [0; 0; 0])
      10 [0; 0; 0] (precompute 1 (dayStart Example.state0))
    = Some (schedule', st')
    /\ sameScheduleHeader (Example.chain 0 [0; 0; 0]) schedule'.
Proof.
  destruct (initializeContactEvents Example.parameters 50
              (Example.chain 0 [0; 0; 0]) 10 [0; 0; 0]
              (precompute 1 (dayStart Example.state0)))
    as [[schedule' st'] |] eqn:E.
  - exists schedule', st'. split; [reflexivity |].
    exact (proj1 (contact_events_well_formed Example.parameters
                    example_exponential_nonneg 50 (Example.chain 0 [0; 0; 0])
                    10 [0; 0; 0] (precompute 1 (dayStart Example.state0))
                    schedule' st' E)).
  - vm_compute in E. discriminate E.
Defined.

(** * The population cache and the latency counts *)

Section CacheProofs.
Context {MTRand gsl_rng : Type} {Ext : Externals MTRand gsl_rng}.
Variable g_parameters : Parameters.
Abbreviation SimT := (Sim MTRand gsl_rng).

Lemma inRange_not_all a r v :
  inRange a r v = true ->
  a <> STRATIFICATIONS_ALL /\ r <> STRATIFICATIONS_ALL
  /\ v <> STRATIFICATIONS_ALL.
Proof.
  unfold inRange, STRATIFICATIONS_ALL. rewrite !andb_true_iff.
  rewrite !Z.leb_le. lia.
Qed.

Lemma precomputeNodes_below (st : SimT) time ids :
  forall i0 pn p,
    (forall j, j < i0 ->
       fst (precomputeNodes st time i0 ids pn p) j = pn j)
    /\ (forall j a r v, j < i0 ->
          snd (precomputeNodes st time i0 ids pn p) j a r v = p j a r v).
Proof.
  induction ids as [| nodeId ids IH]; intros i0 pn p; cbn [precomputeNodes].
  - split; reflexivity.
  - match goal with |- context [precomputeNodes st time (i0 + 1) ids ?pn' ?p'] =>
      destruct (IH (i0 + 1) pn' p') as [H1 H2]
    end.
    split.
    + intros j Hj. rewrite H1 by lia. cbv beta.
      destruct (Z.eqb_spec j i0); [lia | reflexivity].
    + intros j a r v Hj. rewrite H2 by lia. cbv beta.
      destruct (Z.eqb_spec j i0); [lia | reflexivity].
Qed.

Lemma precomputeNodes_entries (st : SimT) time ids :
  forall i0 pn p k nodeId,
    nth_error ids k = Some nodeId ->
    fst (precomputeNodes st time i0 ids pn p) (i0 + Z.of_nat k)
    = getValue st population time nodeId []
    /\ forall a r v,
         inRange a r v = true ->
         snd (precomputeNodes st time i0 ids pn p) (i0 + Z.of_nat k) a r v
         = getValue st population time nodeId [a; r; v].
Proof.
  induction ids as [| m ids IH]; intros i0 pn p k nodeId Hk.
  - destruct k; discriminate.
  - cbn [precomputeNodes]. destruct k as [| k].
    + cbn [nth_error] in Hk. inversion Hk; subst m.
      match goal with |- context [precomputeNodes st time (i0 + 1) ids ?pn' ?p'] =>
        destruct (precomputeNodes_below st time ids (i0 + 1) pn' p')
          as [H1 H2]
      end.
      replace (i0 + Z.of_nat 0) with i0 by lia.
      split.
      * rewrite H1 by lia. cbv beta. rewrite Z.eqb_refl. reflexivity.
      * intros a r v Hr. rewrite H2 by lia. cbv beta.
        rewrite Z.eqb_refl. unfold inRange in Hr. cbn [andb].
        rewrite Hr. reflexivity.
    + cbn [nth_error] in Hk.
      replace (i0 + Z.of_nat (S k)) with (i0 + 1 + Z.of_nat k) by lia.
      apply IH. exact Hk.
Qed.

Lemma precompute_entries (time : Z) (st : SimT) (i : nat) (nodeId : Z) :
  nth_error (nodeIds_ st) i = Some nodeId ->
  precompute time st
  = set_cache time
      (fst (precomputeNodes st time 0 (nodeIds_ st)
              (fun _ => 0) (fun _ _ _ _ => 0)))
      (snd (precomputeNodes st time 0 (nodeIds_ st)
              (fun _ => 0) (fun _ _ _ _ => 0))) st
  /\ populationNodes_ (precompute time st) (Z.of_nat i)
     = nodeTotal (variables_ st) population time (nodeIdToIndex_ st nodeId)
  /\ (forall a r v,
        inRange a r v = true ->
        populations_ (precompute time st) (Z.of_nat i) a r v
        = variables_ st population time (nodeIdToIndex_ st nodeId) a r v).
Proof.
  intros Hi.
  destruct (precomputeNodes_entries st time (nodeIds_ st) 0
              (fun _ => 0) (fun _ _ _ _ => 0) i nodeId Hi) as [H1 H2].
  replace (0 + Z.of_nat i) with (Z.of_nat i) in H1, H2 by lia.
  assert (E : precompute time st
              = set_cache time
                  (fst (precomputeNodes st time 0 (nodeIds_ st)
                          (fun _ => 0) (fun _ _ _ _ => 0)))
                  (snd (precomputeNodes st time 0 (nodeIds_ st)
                          (fun _ => 0) (fun _ _ _ _ => 0))) st).
  { unfold precompute.
    destruct (precomputeNodes _ _ _ _ _ _); reflexivity. }
  split; [exact E |]. split.
  - rewrite E. cbn [populationNodes_ set_cache]. rewrite H1.
    apply getValue_node.
  - intros a r v Hr. rewrite E. cbn [populations_ set_cache].
    rewrite (H2 a r v Hr).
    destruct (inRange_not_all a r v Hr) as (Ha & Hr' & Hv).
    apply getValue_cell; assumption.
Qed.

(** X4. [precompute] (lines 1036-1075) fills the cache for the given time
    step and touches nothing else.  The cache is indexed by the position
    of a node in [nodeIds_]: the entry of the [i]-th node holds that
    node's population, per stratum and in total, and the strata add up
    to the total.  The readers of the cache index it by
    [nodeIdToIndex_[nodeId]]; they find the population of their node when
    that index is the node's position. *)
Theorem precompute_caches_population (time : Z) (st : SimT)
        (i : nat) (nodeId : Z) :
  nth_error (nodeIds_ st) i = Some nodeId ->
  let st' := precompute time st in
  let n := nodeIdToIndex_ st nodeId in
  cachedTime_ st' = time
  /\ variables_ st' = variables_ st
  /\ scheduleEventQueues_ st' = scheduleEventQueues_ st
  /\ stockpileNetwork_ st' = stockpileNetwork_ st
  /\ populationNodes_ st' (Z.of_nat i)
     = nodeTotal (variables_ st) population time n
  /\ (forall a r v,
        inRange a r v = true ->
        populations_ st' (Z.of_nat i) a r v
        = variables_ st population time n a r v)
  /\ sum3 (populations_ st' (Z.of_nat i)) = populationNodes_ st' (Z.of_nat i)
  /\ (n = Z.of_nat i ->
      forall a r v,
        inRange a r v = true ->
        populations_ st' (nodeIdToIndex_ st' nodeId) a r v
        = variables_ st' population time (nodeIdToIndex_ st' nodeId) a r v).
Proof.
  intros Hi st' n.
  destruct (precompute_entries time st i nodeId Hi) as (E & Hnode & Hcell).
  fold st' in E, Hnode, Hcell. fold n in Hnode, Hcell.
  rewrite E at 1 2 3 4. cbn [cachedTime_ variables_ scheduleEventQueues_
                               stockpileNetwork_ set_cache].
  repeat (split; [reflexivity |]).
  split; [exact Hnode |]. split; [exact Hcell |]. split.
  - rewrite Hnode. unfold nodeTotal. apply sum3_ext. exact Hcell.
  - intros Hn a r v Hr.
    replace (nodeIdToIndex_ st' nodeId) with (Z.of_nat i)
      by (rewrite E; cbn [nodeIdToIndex_ set_cache]; symmetry; exact Hn).
    rewrite (Hcell a r v Hr).
    rewrite E. cbn [variables_ set_cache]. rewrite <- Hn. reflexivity.
Qed.



End CacheProofs.

Lemma precompute_caches_population_witness :
  populations_ (precompute 0 Example.state0) 1 0 0 0 = 100
  /\ populationNodes_ (precompute 0 Example.state0) 1 = 1000.
Proof.
  destruct (precompute_caches_population 0 Example.state0 1 20 eq_refl)
    as (_ & _ & _ & _ & Hn & Hc & _).
  pose proof (Hc 0 0 0 eq_refl) as H0.
  change (Z.of_nat 1) with 1 in Hn, H0.
  split.
  - rewrite H0. vm_compute. reflexivity.
  - rewrite Hn. vm_compute. reflexivity.
Defined.


(** * What the treatments change *)

Ltac destruct_sameCell :=
  repeat match goal with
         | |- context [sameCell ?a ?b ?c ?d ?e ?f ?g ?h ?i ?j] =>
             destruct (sameCell a b c d e f g h i j)
         end.

Section TreatmentFrames.
Context {MTRand gsl_rng : Type} {Ext : Externals MTRand gsl_rng}.
Variable g_parameters : Parameters.
Abbreviation SimT := (Sim MTRand gsl_rng).

(** ** Induction over the updates of a treatment pass *)

Section AntiviralInduction.
Variable P : Variables -> Prop.
Variables tf t1 : Z.
Hypothesis P_treat :
  forall V n a r v nT nE,
    0 < nT -> P V ->
    P (treatVars (transitionVars V treatable recovered tf n a r v nE)
         t1 n a r v nT nE).

Abbreviation Inv := (antiviralPassInv P tf t1).

Lemma antiviralStratum_preserves nodeId total used
      (acc : SimT * AntiviralWork) s :
  Inv (fst acc) ->
  Inv (fst (antiviralStratum g_parameters nodeId total used acc s)).
Proof.
  destruct acc as [st w]. unfold antiviralStratum. cbn [fst].
  intros HI.
  destruct (_ <=? 0); [exact HI |].
  match goal with |- context [if ?c <=? 0 then _ else _] =>
    destruct (c <=? 0) eqn:EnT end; [exact HI |].
  apply Z.leb_gt in EnT. cbn [fst].
  destruct HI as (Hf & Ht & HP).
  match goal with |- context [transition ?nE ?x ?y ?nd ?sv st] =>
    pose proof (transition_frame nE x y nd sv st) as F;
    pose proof (transition_variables nE x y nd sv st) as HV;
    remember (transition nE x y nd sv st) as tr eqn:Etr
  end.
  destruct F as (F1 & F2 & F3 & F4 & _).
  unfold antiviralPassInv, frontier. cbn [numTimes_ time_ variables_ set_variables].
  rewrite F1, F2. split; [exact Hf |]. split; [exact Ht |].
  rewrite HV, Hf, Ht.
  rewrite ?Ht in EnT.
  apply (P_treat (variables_ st) (nodeIdToIndex_ st nodeId)
           (nth 0 s 0) (nth 1 s 0) (nth 2 s 0)); assumption.
Qed.

Lemma antiviral_fold_preserves nodeId total used (l : list (list Z)) :
  forall acc : SimT * AntiviralWork,
    Inv (fst acc) ->
    Inv (fst (fold_left (antiviralStratum g_parameters nodeId total used)
                l acc)).
Proof.
  induction l as [| s l IH]; intros acc H0; [exact H0 |].
  cbn [fold_left]. apply IH, antiviralStratum_preserves, H0.
Qed.

Lemma applyAntiviralsToNode_preserves sel (st : SimT) nodeId :
  Inv st -> Inv (applyAntiviralsToNode g_parameters sel st nodeId).
Proof.
  intros HI. unfold applyAntiviralsToNode.
  destruct (getNodeStockpile _ nodeId) as [ptr |]; [| exact HI].
  destruct (_ =? 0); [exact HI |].
  destruct (_ <=? 0); [exact HI |].
  destruct (_ <=? 0); [exact HI |].
  match goal with |- context [fold_left (antiviralStratum _ ?n ?t ?u) ?l ?a] =>
    pose proof (antiviral_fold_preserves n t u l a HI) as HF;
    destruct (fold_left (antiviralStratum g_parameters n t u) l a)
      as [st2 w]
  end.
  cbn [fst] in HF.
  match goal with |- context [cancelSchedules ?q ?e ?t ?g] =>
    destruct (cancelSchedules q e t g) as [[q' nE'] g']
  end.
  destruct (negb (sum3 nE' =? 0)), (negb (sum3 (numberTreated w) =? _));
    exact HF.
Qed.

Lemma applyAntivirals_preserves sel (st : SimT) :
  Inv st ->
  Inv (applyAntiviralsToPriorityGroupSelections g_parameters sel st).
Proof.
  intros HI. unfold applyAntiviralsToPriorityGroupSelections.
  destruct sel as [sel |]; [| exact HI].
  destruct (getPriorityGroups sel); [exact HI |].
  unfold getNodeIds. generalize (nodeIds_ st) as ids. intros ids.
  revert st HI. induction ids as [| x ids IH]; intros st HI; [exact HI |].
  cbn [fold_left]. apply IH, applyAntiviralsToNode_preserves, HI.
Qed.
End AntiviralInduction.

Section VaccineInduction.
Variable P : Variables -> Prop.
Variable t1 : Z.
Hypothesis P_vaccinate :
  forall V comp n a r nV,
    In comp vaccinatedCompartments -> 0 < nV -> P V ->
    P (vaccinateVars V comp t1 n a r nV).

Abbreviation VInv := (vaccinePassInv P t1).

Lemma vaccineStratum_preserves nodeId total used c comp
      (acc : SimT * (Array3 * Array3)) s :
  In comp vaccinatedCompartments ->
  VInv (fst acc) ->
  VInv (fst (vaccineStratum g_parameters nodeId total used c comp acc s)).
Proof.
  intros Hc. destruct acc as [st [nV nVable]].
  unfold vaccineStratum. cbn [fst]. intros HI.
  destruct (_ <=? 0); [exact HI |].
  match goal with |- context [if ?c <=? 0 then _ else _] =>
    destruct (c <=? 0) eqn:EnV end; [exact HI |].
  apply Z.leb_gt in EnV. cbn [fst].
  destruct HI as (Ht & HP).
  unfold vaccinePassInv. cbn [time_ variables_ set_variables].
  split; [exact Ht |]. rewrite Ht. rewrite ?Ht in EnV.
  apply (P_vaccinate (variables_ st) comp (nodeIdToIndex_ st nodeId)
           (nth 0 s 0) (nth 1 s 0)); assumption.
Qed.

Lemma vaccine_fold_preserves sel nodeId total used
      (lc : list (Z * VariableName)) :
  (forall c, In c lc -> In (snd c) vaccinatedCompartments) ->
  forall acc : SimT * (Array3 * Array3),
    VInv (fst acc) ->
    VInv (fst (fold_left
                (vaccineCompartment g_parameters sel nodeId total used)
                lc acc)).
Proof.
  induction lc as [| c lc IH]; intros Hall acc H0; [exact H0 |].
  cbn [fold_left]. apply IH.
  - intros c' Hc'. apply Hall. right. exact Hc'.
  - unfold vaccineCompartment.
    assert (Hc : In (snd c) vaccinatedCompartments)
      by (apply Hall; left; reflexivity).
    generalize (getStratificationValuesSet2 sel STRATIFICATIONS_ALL) as l.
    intros l. revert acc H0.
    induction l as [| s l IHl]; intros acc H0; [exact H0 |].
    cbn [fold_left]. apply IHl, vaccineStratum_preserves; assumption.
Qed.

Lemma applyVaccinesToNode_preserves sel (st : SimT) nodeId :
  VInv st -> VInv (applyVaccinesToNode g_parameters sel st nodeId).
Proof.
  intros HI. unfold applyVaccinesToNode.
  destruct (getNodeStockpile _ nodeId) as [ptr |]; [| exact HI].
  destruct (_ =? 0); [exact HI |].
  destruct (_ <=? 0); [exact HI |].
  destruct (_ <=? 0); [exact HI |].
  match goal with
  | |- context [fold_left (vaccineCompartment _ _ ?n ?t ?u) compartments ?a] =>
    pose proof (vaccine_fold_preserves sel n t u compartments
                  compartments_vaccinated a HI) as HF;
    destruct (fold_left (vaccineCompartment g_parameters sel n t u)
                compartments a) as [st2 [nV nVable]]
  end.
  cbn [fst] in HF.
  match goal with |- context [restratifySchedules ?q ?e ?t ?g] =>
    destruct (restratifySchedules q e t g) as [[q' nV'] g']
  end.
  destruct (negb (sumCAR nV =? _)); exact HF.
Qed.

Lemma applyVaccines_preserves sel (st : SimT) :
  VInv st ->
  VInv (applyVaccinesToPriorityGroupSelections g_parameters sel st).
Proof.
  intros HI. unfold applyVaccinesToPriorityGroupSelections.
  destruct sel as [sel |]; [| exact HI].
  destruct (getPriorityGroups sel); [exact HI |].
  unfold getNodeIds. generalize (nodeIds_ st) as ids. intros ids.
  revert st HI. induction ids as [| x ids IH]; intros st HI; [exact HI |].
  cbn [fold_left]. apply IH, applyVaccinesToNode_preserves, HI.
Qed.
End VaccineInduction.

(** ** The variables *)

(** X6. [applyAntiviralsToPriorityGroupSelections] (lines 458-650) writes to
    five variables only: it moves individuals from "treatable" to
    "recovered" within their stratum and counts them in "treated",
    "treated (daily)" and "treated (ineffective daily)".  Every other
    variable (the population and the vaccination counter among them) is
    untouched, the treatment counters never decrease, "treated" and
    "treated (daily)" grow together, and no time step other than the one
    being simulated is written. *)
Theorem antivirals_touch_only_treatment_variables
        (sel : option PriorityGroupSelections) (st : SimT) :
  let V := variables_ st in
  let V' := variables_
              (applyAntiviralsToPriorityGroupSelections g_parameters sel st) in
  (forall x t n a r v,
      ~ In x [treatable; recovered; treated; treated_daily;
              treated_ineffective_daily] ->
      V' x t n a r v = V x t n a r v)
  /\ (forall t n a r v,
        V' treatable t n a r v + V' recovered t n a r v
        = V treatable t n a r v + V recovered t n a r v)
  /\ (forall t n a r v,
        V treated t n a r v <= V' treated t n a r v
        /\ V' treated_daily t n a r v - V treated_daily t n a r v
           = V' treated t n a r v - V treated t n a r v)
  /\ (forall x t n a r v,
        t <> frontier st -> t <> time_ st + 1 ->
        V' x t n a r v = V x t n a r v).
Proof.
  intros V V'.
  set (P := fun W : Variables =>
    (forall x t n a r v,
        ~ In x [treatable; recovered; treated; treated_daily;
                treated_ineffective_daily] ->
        W x t n a r v = V x t n a r v)
    /\ (forall t n a r v,
          W treatable t n a r v + W recovered t n a r v
          = V treatable t n a r v + V recovered t n a r v)
    /\ (forall t n a r v,
          V treated t n a r v <= W treated t n a r v
          /\ W treated_daily t n a r v - V treated_daily t n a r v
             = W treated t n a r v - V treated t n a r v)
    /\ (forall x t n a r v,
          t <> frontier st -> t <> time_ st + 1 ->
          W x t n a r v = V x t n a r v)).
  assert (H : frontier
                (applyAntiviralsToPriorityGroupSelections g_parameters sel st)
              = frontier st
              /\ time_ (applyAntiviralsToPriorityGroupSelections g_parameters
                          sel st) + 1 = time_ st + 1
              /\ P V').
  { apply (applyAntivirals_preserves P (frontier st) (time_ st + 1)).
    - intros W n a r v nT nE HnT (H1 & H2 & H3 & H4). unfold P.
      split; [| split; [| split]].
      + intros x t' n' a' r' v' Hx.
        rewrite treatVars_cell_all, transitionVars_cell.
        rewrite <- (H1 x t' n' a' r' v' Hx).
        destruct x; simpl in Hx; try tauto;
          cbn [VariableName_eqb andb];
          destruct_sameCell; lia.
      + intros t' n' a' r' v'.
        rewrite !treatVars_cell_all, !transitionVars_cell.
        rewrite <- (H2 t' n' a' r' v').
        cbn [VariableName_eqb andb].
        destruct_sameCell; lia.
      + intros t' n' a' r' v'.
        rewrite !treatVars_cell_all, !transitionVars_cell.
        destruct (H3 t' n' a' r' v') as [H3a H3b].
        cbn [VariableName_eqb andb].
        destruct_sameCell; lia.
      + intros x t' n' a' r' v' Hf Ht.
        rewrite treatVars_cell_all, transitionVars_cell.
        rewrite !sameCell_time, !andb_false_r by assumption.
        rewrite <- (H4 x t' n' a' r' v' Hf Ht). lia.
    - split; [reflexivity |]. split; [reflexivity |].
      unfold P. split; [| split; [| split]]; intros; try reflexivity.
      split; [apply Z.le_refl | unfold V; lia]. }
  destruct H as (_ & _ & HP). exact HP.
Qed.

(** X7. [applyVaccinesToPriorityGroupSelections] (lines 652-885) only moves
    individuals from the unvaccinated to the vaccinated stratification of
    their (age group, risk group): for every variable but the daily
    counter the two vaccination strata keep their sum, the vaccinated
    stratum never shrinks, "deceased" and the antiviral counters are
    untouched, "vaccinated (daily)" grows only in the vaccinated stratum
    and by what the vaccinated population grows, and no time step other
    than the one being simulated is written. *)
Theorem vaccines_move_to_vaccinated_only
        (sel : option PriorityGroupSelections) (st : SimT) :
  let V := variables_ st in
  let V' := variables_
              (applyVaccinesToPriorityGroupSelections g_parameters sel st) in
  (forall x t n a r,
      x <> vaccinated_daily ->
      V' x t n a r 0 + V' x t n a r 1 = V x t n a r 0 + V x t n a r 1
      /\ V x t n a r 1 <= V' x t n a r 1)
  /\ (forall x t n a r v,
        In x [deceased; treated; treated_daily; treated_ineffective_daily] ->
        V' x t n a r v = V x t n a r v)
  /\ (forall t n a r,
        V' vaccinated_daily t n a r 1 - V vaccinated_daily t n a r 1
        = V' population t n a r 1 - V population t n a r 1)
  /\ (forall x t n a r v,
        v <> 0 -> v <> 1 -> V' x t n a r v = V x t n a r v)
  /\ (forall t n a r, V' vaccinated_daily t n a r 0 = V vaccinated_daily t n a r 0)
  /\ (forall x t n a r v,
        t <> time_ st + 1 -> V' x t n a r v = V x t n a r v).
Proof.
  intros V V'.
  set (P := fun W : Variables =>
    (forall x t n a r,
        x <> vaccinated_daily ->
        W x t n a r 0 + W x t n a r 1 = V x t n a r 0 + V x t n a r 1
        /\ V x t n a r 1 <= W x t n a r 1)
    /\ (forall x t n a r v,
          In x [deceased; treated; treated_daily; treated_ineffective_daily] ->
          W x t n a r v = V x t n a r v)
    /\ (forall t n a r,
          W vaccinated_daily t n a r 1 - V vaccinated_daily t n a r 1
          = W population t n a r 1 - V population t n a r 1)
    /\ (forall x t n a r v,
          v <> 0 -> v <> 1 -> W x t n a r v = V x t n a r v)
    /\ (forall t n a r, W vaccinated_daily t n a r 0 = V vaccinated_daily t n a r 0)
    /\ (forall x t n a r v,
          t <> time_ st + 1 -> W x t n a r v = V x t n a r v)).
  assert (H : time_ (applyVaccinesToPriorityGroupSelections g_parameters sel st)
              + 1 = time_ st + 1
              /\ P V').
  { apply (applyVaccines_preserves P (time_ st + 1)).
    - intros W comp n a r nV Hc HnV (H1 & H2 & H3 & H4 & H5 & H6). unfold P.
      split; [| split; [| split; [| split; [| split]]]].
      + intros x t' n' a' r' Hx.
        rewrite !vaccinateVars_cell by exact Hc.
        destruct (H1 x t' n' a' r' Hx) as [H1a H1b].
        change (0 =? 0) with true. change (0 =? 1) with false.
        change (1 =? 0) with false. change (1 =? 1) with true.
        rewrite (VariableName_eqb_neq vaccinated_daily x) by congruence.
        cbn [andb orb].
        destruct ((VariableName_eqb comp x || VariableName_eqb population x
                   || false) && _); lia.
      + intros x t' n' a' r' v' Hx.
        rewrite vaccinateVars_cell by exact Hc.
        rewrite <- (H2 x t' n' a' r' v' Hx).
        unfold vaccinatedCompartments in Hc. simpl in Hc, Hx.
        repeat (destruct Hc as [<- | Hc]; [| try contradiction]);
          repeat (destruct Hx as [<- | Hx]; [| try contradiction]);
          cbn [VariableName_eqb orb andb]; lia.
      + intros t' n' a' r'.
        rewrite !vaccinateVars_cell by exact Hc.
        specialize (H3 t' n' a' r').
        change (1 =? 0) with false. change (1 =? 1) with true.
        unfold vaccinatedCompartments in Hc. simpl in Hc.
        repeat (destruct Hc as [<- | Hc]; [| try contradiction]);
          cbn [VariableName_eqb orb andb];
          destruct ((t' =? time_ st + 1) && (n' =? n) && (a' =? a) && (r' =? r));
          lia.
      + intros x t' n' a' r' v' Hv0 Hv1.
        rewrite vaccinateVars_cell by exact Hc.
        rewrite <- (H4 x t' n' a' r' v' Hv0 Hv1).
        apply Z.eqb_neq in Hv0, Hv1. rewrite Hv0, Hv1.
        unfold vaccinatedCompartments in Hc. simpl in Hc.
        repeat (destruct Hc as [<- | Hc]; [| try contradiction]);
          destruct x; cbn [VariableName_eqb orb andb]; try lia;
          destruct ((t' =? time_ st + 1) && (n' =? n) && (a' =? a)
                    && (r' =? r)); lia.
      + intros t' n' a' r'.
        rewrite vaccinateVars_cell by exact Hc.
        rewrite <- (H5 t' n' a' r').
        change (0 =? 1) with false.
        unfold vaccinatedCompartments in Hc. simpl in Hc.
        repeat (destruct Hc as [<- | Hc]; [| try contradiction]);
          cbn [VariableName_eqb orb andb]; lia.
      + intros x t' n' a' r' v' Ht.
        rewrite vaccinateVars_cell by exact Hc.
        rewrite <- (H6 x t' n' a' r' v' Ht).
        apply Z.eqb_neq in Ht. rewrite Ht. cbn [andb].
        rewrite andb_false_r. lia.
    - split; [reflexivity |].
      unfold P. split; [| split; [| split; [| split; [| split]]]];
        intros; try reflexivity; unfold V; lia. }
  destruct H as (_ & HP). exact HP.
Qed.

End TreatmentFrames.

(** * What the treatments do to the schedules *)

Lemma Forall2_refl_on {X} (R : X -> X -> Prop) (l : list X) :
  (forall x, R x x) -> Forall2 R l l.
Proof. intros H. induction l; constructor; auto. Qed.

Lemma Forall2_trans_on {X} (R : X -> X -> Prop) :
  (forall x y z, R x y -> R y z -> R x z) ->
  forall l1 l2 l3, Forall2 R l1 l2 -> Forall2 R l2 l3 -> Forall2 R l1 l3.
Proof.
  intros HR l1 l2 l3 H12. revert l3.
  induction H12 as [| x y l1 l2 Hxy _ IH]; intros l3 H23.
  - inversion H23. constructor.
  - inversion H23; subst. constructor; [eapply HR; eassumption | apply IH].
    assumption.
Qed.

Lemma canceledByTreatment_refl s : canceledByTreatment s s.
Proof. left. reflexivity. Qed.

Lemma canceledByTreatment_trans s1 s2 s3 :
  canceledByTreatment s1 s2 -> canceledByTreatment s2 s3 ->
  canceledByTreatment s1 s3.
Proof.
  intros [-> | (-> & Hs & Hc)] [-> | (-> & Hs' & Hc')].
  - left. reflexivity.
  - right. auto.
  - right. auto.
  - discriminate.
Qed.

Lemma setVaccinated_idem x sv : setVaccinated x (setVaccinated x sv) = setVaccinated x sv.
Proof. destruct sv as [| a [| r [| v rest]]]; reflexivity. Qed.

Lemma movedByVaccination_refl s : movedByVaccination s s.
Proof. left. reflexivity. Qed.

Lemma movedByVaccination_trans s1 s2 s3 :
  movedByVaccination s1 s2 -> movedByVaccination s2 s3 ->
  movedByVaccination s1 s3.
Proof.
  intros [-> | (-> & Hv & Hs & Hc)] [-> | (-> & Hv' & Hs' & Hc')].
  - left. reflexivity.
  - right. auto.
  - right. auto.
  - right. split; [| auto].
    unfold Schedule.changeStratificationValues, Schedule.getStratificationValues.
    cbn [stratificationValues_ state_ eventQueue_ canceled_ infectedTMin_
           infectedTMax_].
    rewrite setVaccinated_idem. f_equal.
    rewrite map_map. apply map_ext. intros e. reflexivity.
Qed.

Section ScheduleEffects.
Context {MTRand gsl_rng : Type} {Ext : Externals MTRand gsl_rng}.
Variable g_parameters : Parameters.
Abbreviation SimT := (Sim MTRand gsl_rng).

Lemma cancelSchedules_relation (q : list StochasticSEATIRDSchedule) :
  forall nE nTble (g : MTRand) q' nE' g',
    cancelSchedules q nE nTble g = (q', nE', g') ->
    Forall2 canceledByTreatment q q'.
Proof.
  induction q as [| s q IH]; intros nE nTble g q' nE' g'; cbn [cancelSchedules].
  - intros H. inversion H; subst. constructor.
  - destruct (sum3 nE >? 0).
    2:{ intros H. inversion H; subst.
        apply Forall2_refl_on, canceledByTreatment_refl. }
    destruct (SchedState.eqb (Schedule.getState s) SchedState.T) eqn:ET.
    2:{ destruct (cancelSchedules q nE nTble g) as [[q1 nE1] g1] eqn:E.
        intros H. inversion H; subst.
        constructor; [apply canceledByTreatment_refl | eapply IH, E]. }
    destruct (nE _ _ _ >? 0).
    2:{ destruct (cancelSchedules q nE nTble g) as [[q1 nE1] g1] eqn:E.
        intros H. inversion H; subst.
        constructor; [apply canceledByTreatment_refl | eapply IH, E]. }
    destruct (negb (Schedule.canceled s)) eqn:EC.
    + destruct (rand g) as [u g1].
      destruct (Qle_bool u _).
      * match goal with |- context [cancelSchedules q ?a ?b ?c] =>
          destruct (cancelSchedules q a b c) as [[q1 nE1] g2] eqn:E end.
        intros H. inversion H; subst.
        constructor; [| eapply IH, E].
        right. split; [reflexivity |]. split.
        -- destruct (Schedule.getState s); try discriminate. reflexivity.
        -- apply negb_true_iff, EC.
      * match goal with |- context [cancelSchedules q ?a ?b ?c] =>
          destruct (cancelSchedules q a b c) as [[q1 nE1] g2] eqn:E end.
        intros H. inversion H; subst.
        constructor; [apply canceledByTreatment_refl | eapply IH, E].
    + match goal with |- context [cancelSchedules q ?a ?b ?c] =>
        destruct (cancelSchedules q a b c) as [[q1 nE1] g2] eqn:E end.
      intros H. inversion H; subst.
      constructor; [apply canceledByTreatment_refl | eapply IH, E].
Qed.

Lemma restratifySchedules_relation (q : list StochasticSEATIRDSchedule) :
  forall nV nVable (g : MTRand) q' nV' g',
    restratifySchedules q nV nVable g = (q', nV', g') ->
    Forall2 movedByVaccination q q'.
Proof.
  induction q as [| s q IH]; intros nV nVable g q' nV' g';
    cbn [restratifySchedules].
  - intros H. inversion H; subst. constructor.
  - destruct (sumCAR nV >? 0).
    2:{ intros H. inversion H; subst.
        apply Forall2_refl_on, movedByVaccination_refl. }
    assert (Hskip :
              (let '(q'', nV'', g'') := restratifySchedules q nV nVable g in
               (s :: q'', nV'', g'')) = (q', nV', g') ->
              Forall2 movedByVaccination (s :: q) q').
    { destruct (restratifySchedules q nV nVable g) as [[q1 nV1] g1] eqn:E.
      intros H. inversion H; subst.
      constructor; [apply movedByVaccination_refl | eapply IH, E]. }
    destruct (stateToCompartmentIndex (Schedule.getState s)) as [c |] eqn:Ec;
      [| exact Hskip].
    destruct (nth 2 (Schedule.getStratificationValues s) 0 =? 1) eqn:Ev;
      [exact Hskip |].
    destruct (nV c _ _ >? 0); [| exact Hskip].
    destruct (negb (Schedule.canceled s)) eqn:EC.
    + destruct (rand g) as [u g1].
      destruct (Qle_bool u _).
      * match goal with |- context [restratifySchedules q ?a ?b ?c] =>
          destruct (restratifySchedules q a b c) as [[q1 nV1] g2] eqn:E end.
        intros H. inversion H; subst.
        constructor; [| eapply IH, E].
        right. split; [reflexivity |]. split; [apply Z.eqb_neq, Ev |]. split.
        -- intros Hd. rewrite Hd in Ec. discriminate.
        -- apply negb_true_iff, EC.
      * match goal with |- context [restratifySchedules q ?a ?b ?c] =>
          destruct (restratifySchedules q a b c) as [[q1 nV1] g2] eqn:E end.
        intros H. inversion H; subst.
        constructor; [apply movedByVaccination_refl | eapply IH, E].
    + match goal with |- context [restratifySchedules q ?a ?b ?c] =>
        destruct (restratifySchedules q a b c) as [[q1 nV1] g2] eqn:E end.
      intros H. inversion H; subst.
      constructor; [apply movedByVaccination_refl | eapply IH, E].
Qed.

Lemma antiviral_fold_queues nodeId total used (l : list (list Z)) :
  forall acc : SimT * AntiviralWork,
    scheduleEventQueues_
      (fst (fold_left (antiviralStratum g_parameters nodeId total used) l acc))
    = scheduleEventQueues_ (fst acc).
Proof.
  induction l as [| s l IH]; intros acc; [reflexivity |].
  cbn [fold_left]. rewrite IH.
  destruct acc as [st w]. unfold antiviralStratum. cbn [fst].
  destruct (_ <=? 0); [reflexivity |].
  match goal with |- context [if ?c <=? 0 then _ else _] =>
    destruct (c <=? 0) end; [reflexivity |].
  cbn [fst scheduleEventQueues_ set_variables].
  apply transition_queues.
Qed.

Lemma vaccine_fold_queues sel nodeId total used (lc : list (Z * VariableName)) :
  forall acc : SimT * (Array3 * Array3),
    scheduleEventQueues_
      (fst (fold_left (vaccineCompartment g_parameters sel nodeId total used)
              lc acc))
    = scheduleEventQueues_ (fst acc).
Proof.
  induction lc as [| c lc IH]; intros acc; [reflexivity |].
  cbn [fold_left]. rewrite IH. unfold vaccineCompartment.
  generalize (getStratificationValuesSet2 sel STRATIFICATIONS_ALL) as l.
  intros l. revert acc. induction l as [| s l IHl]; intros acc; [reflexivity |].
  cbn [fold_left]. rewrite IHl.
  destruct acc as [st [nV nVable]]. unfold vaccineStratum. cbn [fst].
  destruct (_ <=? 0); [reflexivity |].
  match goal with |- context [if ?c <=? 0 then _ else _] =>
    destruct (c <=? 0) end; reflexivity.
Qed.

Lemma queues_relation_refl (R : StochasticSEATIRDSchedule ->
                                StochasticSEATIRDSchedule -> Prop)
      (st : SimT) :
  (forall s, R s s) ->
  forall n, Forall2 R (scheduleEventQueues_ st n) (scheduleEventQueues_ st n).
Proof. intros HR n. apply Forall2_refl_on, HR. Qed.

Lemma applyAntiviralsToNode_queues sel (st : SimT) nodeId n :
  Forall2 canceledByTreatment (scheduleEventQueues_ st n)
    (scheduleEventQueues_ (applyAntiviralsToNode g_parameters sel st nodeId) n).
Proof.
  pose proof (queues_relation_refl canceledByTreatment st
                canceledByTreatment_refl n) as Hrefl.
  unfold applyAntiviralsToNode.
  destruct (getNodeStockpile _ nodeId) as [ptr |]; [| exact Hrefl].
  destruct (_ =? 0); [exact Hrefl |].
  destruct (_ <=? 0); [exact Hrefl |].
  destruct (_ <=? 0); [exact Hrefl |].
  match goal with |- context [fold_left (antiviralStratum _ ?nd ?t ?u) ?l ?a] =>
    pose proof (antiviral_fold_queues nd t u l a) as HF;
    destruct (fold_left (antiviralStratum g_parameters nd t u) l a)
      as [st2 w]
  end.
  cbn [fst scheduleEventQueues_ set_stockpileNetwork] in HF.
  match goal with |- context [cancelSchedules ?q ?e ?t ?g] =>
    pose proof (cancelSchedules_relation q e t g) as HC;
    destruct (cancelSchedules q e t g) as [[q' nE'] g']
  end.
  specialize (HC q' nE' g' eq_refl).
  assert (HQ : Forall2 canceledByTreatment (scheduleEventQueues_ st n)
                 (if n =? nodeId then q' else scheduleEventQueues_ st n)).
  { destruct (Z.eqb_spec n nodeId) as [-> | Hn]; [| exact Hrefl].
    revert HC.
    destruct (negb (sum3 (numberTreated w) =? _));
      cbn [scheduleEventQueues_ put_flog]; rewrite HF; exact (fun H => H). }
  destruct (negb (sum3 nE' =? 0)), (negb (sum3 (numberTreated w) =? _));
    cbn [scheduleEventQueues_ put_flog set_rand set_queue];
    rewrite HF; exact HQ.
Qed.

Lemma applyVaccinesToNode_queues sel (st : SimT) nodeId n :
  Forall2 movedByVaccination (scheduleEventQueues_ st n)
    (scheduleEventQueues_ (applyVaccinesToNode g_parameters sel st nodeId) n).
Proof.
  pose proof (queues_relation_refl movedByVaccination st
                movedByVaccination_refl n) as Hrefl.
  unfold applyVaccinesToNode.
  destruct (getNodeStockpile _ nodeId) as [ptr |]; [| exact Hrefl].
  destruct (_ =? 0); [exact Hrefl |].
  destruct (_ <=? 0); [exact Hrefl |].
  destruct (_ <=? 0); [exact Hrefl |].
  match goal with
  | |- context [fold_left (vaccineCompartment _ _ ?nd ?t ?u) compartments ?a] =>
    pose proof (vaccine_fold_queues sel nd t u compartments a) as HF;
    destruct (fold_left (vaccineCompartment g_parameters sel nd t u)
                compartments a) as [st2 [nV nVable]]
  end.
  cbn [fst scheduleEventQueues_ set_stockpileNetwork] in HF.
  match goal with |- context [restratifySchedules ?q ?e ?t ?g] =>
    pose proof (restratifySchedules_relation q e t g) as HC;
    destruct (restratifySchedules q e t g) as [[q' nV'] g']
  end.
  specialize (HC q' nV' g' eq_refl).
  destruct (negb (sumCAR nV =? _));
    cbn [scheduleEventQueues_ put_flog set_rand set_queue] in HC |- *;
    rewrite HF in *;
    (destruct (Z.eqb_spec n nodeId) as [-> | Hn]; [exact HC | exact Hrefl]).
Qed.

(** X8. The antiviral pass (lines 616-642) never adds, removes or reorders a
    schedule: in every node's queue each schedule is either as it was, or
    it is the schedule of a treatable individual, not canceled before,
    and now canceled; nothing else of it changes. *)
Theorem antivirals_only_cancel_treatable_schedules
        (sel : option PriorityGroupSelections) (st : SimT) (n : Z) :
  Forall2 canceledByTreatment (scheduleEventQueues_ st n)
    (scheduleEventQueues_
       (applyAntiviralsToPriorityGroupSelections g_parameters sel st) n)
  /\ List.length
       (scheduleEventQueues_
          (applyAntiviralsToPriorityGroupSelections g_parameters sel st) n)
     = List.length (scheduleEventQueues_ st n).
Proof.
  assert (H : Forall2 canceledByTreatment (scheduleEventQueues_ st n)
                (scheduleEventQueues_
                   (applyAntiviralsToPriorityGroupSelections g_parameters
                      sel st) n)).
  { unfold applyAntiviralsToPriorityGroupSelections.
    destruct sel as [sel |];
      [| apply Forall2_refl_on, canceledByTreatment_refl].
    destruct (getPriorityGroups sel);
      [apply Forall2_refl_on, canceledByTreatment_refl |].
    unfold getNodeIds. generalize (nodeIds_ st) as ids. intros ids.
    generalize st as st0. intros st0.
    revert st0. induction ids as [| x ids IH]; intros st0;
      [apply Forall2_refl_on, canceledByTreatment_refl |].
    cbn [fold_left].
    eapply (Forall2_trans_on _ canceledByTreatment_trans);
      [apply (applyAntiviralsToNode_queues sel st0 x n) | apply IH]. }
  split; [exact H |]. symmetry. eapply Forall2_length, H.
Qed.

(** X9. The vaccine pass (lines 843-881) never adds, removes, reorders or
    cancels a schedule: in every node's queue each schedule is either as
    it was, or it is the schedule of an unvaccinated individual, not
    canceled and not deceased, and now carries, with all its events, the
    vaccinated stratification of the same (age group, risk group). *)
Theorem vaccines_only_restratify_schedules
        (sel : option PriorityGroupSelections) (st : SimT) (n : Z) :
  Forall2 movedByVaccination (scheduleEventQueues_ st n)
    (scheduleEventQueues_
       (applyVaccinesToPriorityGroupSelections g_parameters sel st) n)
  /\ List.length
       (scheduleEventQueues_
          (applyVaccinesToPriorityGroupSelections g_parameters sel st) n)
     = List.length (scheduleEventQueues_ st n).
Proof.
  assert (H : Forall2 movedByVaccination (scheduleEventQueues_ st n)
                (scheduleEventQueues_
                   (applyVaccinesToPriorityGroupSelections g_parameters
                      sel st) n)).
  { unfold applyVaccinesToPriorityGroupSelections.
    destruct sel as [sel |];
      [| apply Forall2_refl_on, movedByVaccination_refl].
    destruct (getPriorityGroups sel);
      [apply Forall2_refl_on, movedByVaccination_refl |].
    unfold getNodeIds. generalize (nodeIds_ st) as ids. intros ids.
    generalize st as st0. intros st0.
    revert st0. induction ids as [| x ids IH]; intros st0;
      [apply Forall2_refl_on, movedByVaccination_refl |].
    cbn [fold_left].
    eapply (Forall2_trans_on _ movedByVaccination_trans);
      [apply (applyVaccinesToNode_queues sel st0 x n) | apply IH]. }
  split; [exact H |]. symmetry. eapply Forall2_length, H.
Qed.

End ScheduleEffects.

(** * The stockpiles *)

Section StockpileProofs.
Context {MTRand gsl_rng : Type} {Ext : Externals MTRand gsl_rng}.
Variable g_parameters : Parameters.
Abbreviation SimT := (Sim MTRand gsl_rng).



Lemma setNum_getNum (s : Stockpile) t num ty t' ty' :
  StockpileOps.getNum (StockpileOps.setNum s t num ty) t' ty'
  = if (t' =? t) && StockpileType_eqb ty ty' then num
    else StockpileOps.getNum s t' ty'.
Proof. reflexivity. Qed.


(** X11. Antiviral doses are accounted for (lines 507-607): at a node with a
    stockpile, in a state whose new time step is the one the base class
    writes to, with no stratum treated in vain more often than it has
    treatable individuals and an adherence of at most 1, the antiviral
    count of the stockpile at t+1 never grows and never becomes negative,
    and the node's "treated (daily)" total grows by at most the number of
    doses taken from the stockpile. *)
Theorem antiviral_doses_accounted (sel : PriorityGroupSelections)
        (st : SimT) (nodeId ptr : Z) :
  (getAntiviralAdherence g_parameters <= 1)%Q ->
  numTimes_ st - 1 = time_ st + 1 ->
  UntreatedNonNegative (variables_ st) (time_ st + 1) ->
  getNodeStockpile (stockpileNetwork_ st) nodeId = Some ptr ->
  let t1 := time_ st + 1 in
  let n := nodeIdToIndex_ st nodeId in
  let st' := applyAntiviralsToNode g_parameters sel st nodeId in
  let amount :=
    StockpileOps.getNum (stockpileStore (stockpileNetwork_ st) ptr) t1
      STOCKPILE_ANTIVIRALS in
  let amount' :=
    StockpileOps.getNum (stockpileStore (stockpileNetwork_ st') ptr) t1
      STOCKPILE_ANTIVIRALS in
  amount' <= amount
  /\ (0 <= amount -> 0 <= amount')
  /\ nodeTotal (variables_ st') treated_daily t1 n
     - nodeTotal (variables_ st) treated_daily t1 n
     <= amount - amount'.
Proof.
  intros Hadh Hf Hphi Hptr t1 n st' amount amount'.
  assert (Hrefl : st' = st ->
            amount' <= amount /\ (0 <= amount -> 0 <= amount')
            /\ nodeTotal (variables_ st') treated_daily t1 n
               - nodeTotal (variables_ st) treated_daily t1 n
               <= amount - amount').
  { intros E. subst amount'. rewrite E. fold amount. lia. }
  revert Hrefl. subst amount'. subst st'.
  unfold applyAntiviralsToNode. rewrite Hptr.
  rewrite (getValueSet_untreated st nodeId (getStratificationValuesSet sel))
    by (intros s Hs; eapply in_getStratificationValuesSet, Hs).
  fold t1 n. fold amount.
  destruct (amount =? 0); [intros H; apply H; reflexivity |].
  set (V := variables_ st).
  remember (sumZ (getStratificationValuesSet sel) (untreatedAt V t1 n))
    as T eqn:HeqT.
  destruct (T <=? 0) eqn:ET; [intros H; apply H; reflexivity |].
  apply Z.leb_gt in ET.
  rewrite getValue_node. fold n V. fold (nodeTotal V treated_daily t1 n).
  match goal with |- context [antiviralAmountUsed ?p ?a ?t ?c ?d] =>
    destruct (antiviralAmountUsed_le p a t c d) as [Hle Hlec];
    pose proof (antiviralAmountUsed_min p a t c d) as Hmin;
    remember (antiviralAmountUsed p a t c d) as used eqn:Eused
  end.
  destruct (used <=? 0) eqn:E0; [intros H; apply H; reflexivity |].
  apply Z.leb_gt in E0. intros _.
  match goal with |- context [fold_left ?f ?l (?s1, ?w0)] =>
    pose proof (antiviral_fold g_parameters Hadh nodeId T used l
                  (NoDup_getStratificationValuesSet sel)
                  (fun s Hs => in_getStratificationValuesSet sel s Hs)
                  ET E0 Hle s1 w0) as HF;
    pose proof (antiviral_fold_stockpile g_parameters nodeId
                  (getAntiviralAdherence g_parameters * inject_Z T)%Q
                  used l (s1, w0)) as HS;
    destruct (fold_left f l (s1, w0)) as [st2 w] eqn:Efold
  end.
  specialize (HF st2 w Hf Hphi eq_refl).
  cbn [time_ nodeIdToIndex_ variables_ set_stockpileNetwork] in HF.
  cbn [fst stockpileNetwork_ set_stockpileNetwork] in HS.
  fold t1 n V in HF. rewrite <- HeqT in HF.
  destruct HF as (_ & _ & _ & _ & HD2).
  match goal with |- context [cancelSchedules ?q ?e ?t ?g] =>
    destruct (cancelSchedules q e t g) as [[q' nE'] g']
  end.
  assert (Hres : forall st4 : SimT,
             stockpileNetwork_ st4 = stockpileNetwork_ st2 ->
             variables_ st4 = variables_ st2 ->
             StockpileOps.getNum (stockpileStore (stockpileNetwork_ st4) ptr)
               t1 STOCKPILE_ANTIVIRALS <= amount
             /\ (0 <= amount ->
                 0 <= StockpileOps.getNum
                        (stockpileStore (stockpileNetwork_ st4) ptr) t1
                        STOCKPILE_ANTIVIRALS)
             /\ nodeTotal (variables_ st4) treated_daily t1 n
                - nodeTotal V treated_daily t1 n
                <= amount
                   - StockpileOps.getNum
                       (stockpileStore (stockpileNetwork_ st4) ptr) t1
                       STOCKPILE_ANTIVIRALS).
  { intros st4 HN HV4. rewrite HN, HS, HV4.
    assert (Hnew : StockpileOps.getNum
                     (stockpileStore
                        (setStockpile (stockpileNetwork_ st) ptr
                           (StockpileOps.setNum
                              (stockpileStore (stockpileNetwork_ st) ptr)
                              t1 (amount - used) STOCKPILE_ANTIVIRALS)) ptr)
                     t1 STOCKPILE_ANTIVIRALS = amount - used).
    { unfold setStockpile. cbn [stockpileStore]. rewrite Z.eqb_refl.
      rewrite setNum_getNum, Z.eqb_refl. reflexivity. }
    rewrite Hnew.
    assert (HTq : (0 < inject_Z T)%Q).
    { change 0%Q with (inject_Z 0). rewrite <- Zlt_Qlt. exact ET. }
    assert (Hq : (inject_Z T * inject_Z used / inject_Z T
                  == inject_Z used)%Q).
    { field. intros E. rewrite E in HTq. apply (Qlt_irrefl 0 HTq). }
    rewrite Hq in HD2. rewrite <- inject_Z_plus, <- Zle_Qle in HD2.
    lia. }
  destruct (negb (sum3 (numberTreated w) =? used));
    destruct (negb (sum3 nE' =? 0));
    apply Hres; reflexivity.
Qed.

End StockpileProofs.


Lemma example_untreated_nonneg :
  UntreatedNonNegative (variables_ (dayStart Example.state0)) 1.
Proof.
  intros n a r v. unfold untreated.
  rewrite !(dayStart_cell Example.state0). cbn [isDailyCounter].
  change (1 =? time_ Example.state0 + 1) with true. cbv iota.
  pose proof (example_treatable_nonneg 0 n a r v) as H.
  change (variables_ Example.state0) with Example.variables0.
  change (time_ Example.state0) with 0. lia.
Qed.

Lemma antiviral_doses_accounted_witness :
  let st := dayStart Example.state0 in
  let sel := mkPriorityGroupSelections
               [ mkPriorityGroup "infants"
                   [ [0]; [STRATIFICATIONS_ALL]; [STRATIFICATIONS_ALL] ] ] in
  nodeTotal (variables_ (applyAntiviralsToNode Example.parameters sel st 10))
    treated_daily 1 0
  - nodeTotal (variables_ st) treated_daily 1 0
  <= 50 - StockpileOps.getNum
            (stockpileStore
               (stockpileNetwork_
                  (applyAntiviralsToNode Example.parameters sel st 10)) 1)
            1 STOCKPILE_ANTIVIRALS.
Proof.
  intros st sel.
  assert (Hadh : (getAntiviralAdherence Example.parameters <= 1)%Q)
    by (vm_compute; discriminate).
  exact (proj2 (proj2 (antiviral_doses_accounted Example.parameters sel st 10 1
                         Hadh eq_refl example_untreated_nonneg eq_refl))).
Defined.

(** * Travel *)


Section TravelProofs2.
Context {MTRand gsl_rng : Type} {Ext : Externals MTRand gsl_rng}.
Variable g_parameters : Parameters.
Abbreviation SimT := (Sim MTRand gsl_rng).

Hypothesis binomial_zero :
  forall (g : gsl_rng) (p : Q) (n : Z),
    (p == 0)%Q -> fst (gsl_ran_binomial g p n) = 0.

Abbreviation kept := keptByTravel.








End TravelProofs2.



(** * The bookkeeping of a simulated day *)

Section DayBookkeeping.
Context {MTRand gsl_rng : Type} {Ext : Externals MTRand gsl_rng}.
Variable g_parameters : Parameters.
Abbreviation SimT := (Sim MTRand gsl_rng).

Lemma cacheKept_refl (st : SimT) : cacheKept st st.
Proof. split; [apply Frame_refl | repeat split]. Qed.

Lemma cacheKept_trans (st1 st2 st3 : SimT) :
  cacheKept st1 st2 -> cacheKept st2 st3 -> cacheKept st1 st3.
Proof.
  intros (F1 & A1 & B1 & C1) (F2 & A2 & B2 & C2).
  split; [eapply Frame_trans; eassumption |]. repeat split; congruence.
Qed.

Lemma cacheAndClockKept_refl (st : SimT) : cacheAndClockKept st st.
Proof. split; [apply cacheKept_refl | reflexivity]. Qed.

Lemma cacheAndClockKept_trans (st1 st2 st3 : SimT) :
  cacheAndClockKept st1 st2 -> cacheAndClockKept st2 st3 ->
  cacheAndClockKept st1 st3.
Proof.
  intros [K1 N1] [K2 N2].
  split; [eapply cacheKept_trans; eassumption | congruence].
Qed.

Lemma cacheKept_valid (st st' : SimT) :
  cacheKept st st' -> cachedTime_ st = time_ st + 1 ->
  cachedTime_ st' = time_ st' + 1.
Proof. intros ((F1 & _) & A & _) H. rewrite A, F1. exact H. Qed.

Lemma transition_cacheAndClockKept num x y nodeId strat (st : SimT) :
  cacheAndClockKept st (snd (transition num x y nodeId strat st)).
Proof.
  split; [split; [apply transition_frame |] |];
    unfold transition; cbn [snd]; destruct (_ <? num); repeat split.
Qed.

Lemma initializeContactEvents_cacheAndClockKept fuel schedule nodeId strat
      (st : SimT) schedule' st' :
  initializeContactEvents g_parameters fuel schedule nodeId strat st
  = Some (schedule', st') ->
  cacheAndClockKept st st'.
Proof.
  unfold initializeContactEvents.
  destruct (negb (expectedStratifications st)).
  - intros H. inversion H; subst. repeat split.
  - destruct (fold_left _ _ _) as [[s g] |]; [| discriminate].
    intros H. inversion H; subst. repeat split.
Qed.

Lemma exposeSchedules_cacheAndClockKept fuel count nodeId strat :
  forall (st st' : SimT),
    exposeSchedules g_parameters fuel count nodeId strat st = Some st' ->
    cacheAndClockKept st st'.
Proof.
  induction count as [| count IH]; simpl; intros st st' H.
  - inversion H; subst. apply cacheAndClockKept_refl.
  - destruct (newSchedule g_parameters (now_ st) (rand_ st) strat)
      as [schedule g].
    destruct (initializeContactEvents _ _ _ _ _ _) as [[schedule' st1] |] eqn:E;
      [| discriminate].
    apply initializeContactEvents_cacheAndClockKept in E. apply IH in H.
    eapply cacheAndClockKept_trans; [| exact H].
    eapply cacheAndClockKept_trans; [| eapply cacheAndClockKept_trans;
                                        [exact E |]]; repeat split.
Qed.

Lemma exposePrecomputed_valid (st : SimT) :
  cachedTime_ st = time_ st + 1 -> exposePrecomputed st = st.
Proof.
  intros H. unfold exposePrecomputed. rewrite H.
  destruct (Z.eqb_spec (time_ st) 0) as [E | E]; cbn [andb negb].
  - rewrite E. reflexivity.
  - rewrite Z.eqb_refl. reflexivity.
Qed.

Lemma expose_cacheAndClockKept fuel num nodeId strat (st : SimT) k st' :
  cachedTime_ st = time_ st + 1 ->
  expose g_parameters fuel num nodeId strat st = Some (k, st') ->
  cacheAndClockKept st st'.
Proof.
  intros Hc. unfold expose. fold (exposePrecomputed st).
  rewrite (exposePrecomputed_valid st Hc).
  unfold EpidemicSimulation_expose.
  pose proof (transition_cacheAndClockKept num susceptible exposed nodeId
                strat st) as HT.
  destruct (transition num susceptible exposed nodeId strat st)
    as [numExposed st2].
  cbn [snd] in HT.
  destruct (exposeSchedules _ _ _ _ _ _) as [st3 |] eqn:E; [| discriminate].
  intros H. inversion H; subst.
  apply exposeSchedules_cacheAndClockKept in E.
  eapply cacheAndClockKept_trans; eassumption.
Qed.

Lemma contactDispatch_cacheKept fuel nodeId event v (st st' : SimT) :
  cachedTime_ st = time_ st + 1 ->
  contactDispatch g_parameters fuel nodeId event v st = Some st' ->
  cacheKept st st'.
Proof.
  intros Hc. unfold contactDispatch.
  match goal with |- context [if ?c >? 0 then _ else _] => destruct (c >? 0) end.
  - destruct (randInt _ (rand_ st)) as [i g].
    match goal with |- context [if ?c then _ else _] => destruct c end.
    + destruct (expose _ _ _ _ _ _) as [[k st2] |] eqn:E; [| discriminate].
      intros H. inversion H; subst.
      apply expose_cacheAndClockKept in E; [| exact Hc].
      destruct E as [E _].
      eapply cacheKept_trans; [| exact E]. repeat split.
    + intros H. inversion H; subst. repeat split.
  - intros H. inversion H; subst. apply cacheKept_refl.
Qed.

Lemma processEvent_cacheKept fuel nodeId event (st : SimT) b st' :
  cachedTime_ st = time_ st + 1 ->
  processEvent g_parameters fuel nodeId event st = Some (b, st') ->
  cacheKept st st'.
Proof.
  intros Hc. unfold processEvent.
  destruct (type event);
    try (intros H; inversion H; subst;
         apply transition_cacheAndClockKept).
  intros H.
  destruct (processContact_dispatches g_parameters fuel nodeId event st b st' H)
    as [[-> Hlen] | [(-> & _) | (v & g & Hd)]].
  - unfold processContact in H. apply Nat.eqb_neq in Hlen.
    rewrite Hlen in H. cbn [negb] in H. inversion H; subst. repeat split.
  - revert H. unfold processContact.
    destruct (negb _); [discriminate |].
    destruct (isNpiEffective _ _ _ _ _).
    { intros H. inversion H; subst. apply cacheKept_refl. }
    destruct (randInt _ (rand_ st)) as [i g].
    assert (Hd : forall v (s1 : SimT),
               cacheKept st s1 ->
               match contactDispatch g_parameters fuel nodeId event v s1 with
               | Some st'' => Some (true, st'')
               | None => None
               end = Some (true, st') -> cacheKept st st').
    { intros v s1 Hs1 H.
      destruct (contactDispatch _ _ _ _ _ s1) as [s2 |] eqn:E; [| discriminate].
      inversion H; subst. eapply cacheKept_trans; [exact Hs1 |].
      eapply contactDispatch_cacheKept; [| exact E].
      eapply cacheKept_valid; eassumption. }
    destruct (_ >=? i + 1).
    + destruct (_ <? i + 1).
      * destruct (rand _) as [u g'].
        destruct (Qle_bool u _).
        -- intros H. inversion H; subst. repeat split.
        -- apply Hd. repeat split.
      * apply Hd. repeat split.
    + apply Hd. repeat split.
  - apply contactDispatch_cacheKept in Hd; [| exact Hc].
    eapply cacheKept_trans; [| exact Hd]. repeat split.
Qed.

Lemma processNodeEvents_cacheKept fuel0 fuel nodeId :
  forall (st st' : SimT),
    cachedTime_ st = time_ st + 1 ->
    processNodeEvents g_parameters fuel0 fuel nodeId st = Some st' ->
    cacheKept st st'.
Proof.
  induction fuel as [| fuel IH]; intros st st' Hc; simpl.
  - destruct (scheduleEventQueues_ st nodeId) as [| s0 q0].
    + intros H. inversion H; subst. apply cacheKept_refl.
    + destruct (Qltb _ _); [discriminate |].
      intros H. inversion H; subst. apply cacheKept_refl.
  - destruct (scheduleEventQueues_ st nodeId) as [| s0 q0].
    + intros H. inversion H; subst. apply cacheKept_refl.
    + destruct (Qltb _ _).
      2:{ intros H. inversion H; subst. apply cacheKept_refl. }
      destruct (negb _ && negb _).
      * destruct (processEvent _ _ _ _ _) as [[b st3] |] eqn:E; [| discriminate].
        apply processEvent_cacheKept in E; [| exact Hc].
        assert (K3 : cacheKept st st3).
        { eapply cacheKept_trans; [| exact E]. repeat split. }
        intros H. apply IH in H.
        -- eapply cacheKept_trans; [| exact H].
           eapply cacheKept_trans; [exact K3 |].
           destruct (negb _); [repeat split | apply cacheKept_refl].
        -- assert (K4 : cachedTime_ st3 = time_ st3 + 1)
             by (eapply cacheKept_valid; eassumption).
           destruct (negb _); exact K4.
      * intros H. apply IH in H; [| exact Hc].
        eapply cacheKept_trans; [| exact H]. repeat split.
Qed.

Lemma fold_option_cacheKept {X} (R : SimT -> SimT -> Prop)
      (f : option SimT -> X -> option SimT) (l : list X) :
  (forall st, R st st) ->
  (forall s1 s2 s3, R s1 s2 -> R s2 s3 -> R s1 s3) ->
  (forall s1 s2 : SimT, R s1 s2 -> cachedTime_ s1 = time_ s1 + 1 ->
                        cachedTime_ s2 = time_ s2 + 1) ->
  (forall x, f None x = None) ->
  (forall x (st st' : SimT),
      cachedTime_ st = time_ st + 1 -> f (Some st) x = Some st' -> R st st') ->
  forall (st st' : SimT),
    cachedTime_ st = time_ st + 1 ->
    fold_left f l (Some st) = Some st' -> R st st'.
Proof.
  intros Hrefl Htrans Hvalid Hnone Hstep.
  induction l as [| x l IH]; simpl; intros st st' Hc H.
  - inversion H; subst. apply Hrefl.
  - destruct (f (Some st) x) as [st1 |] eqn:E.
    + pose proof (Hstep x st st1 Hc E) as K1.
      eapply Htrans; [exact K1 |].
      apply IH; [eapply Hvalid; eassumption | exact H].
    + exfalso. clear - H Hnone. induction l as [| y l IHl]; simpl in H.
      * discriminate.
      * rewrite Hnone in H. auto.
Qed.

Lemma processEvents_cacheKept fuel (st st' : SimT) :
  cachedTime_ st = time_ st + 1 ->
  processEvents g_parameters fuel st = Some st' -> cacheKept st st'.
Proof.
  unfold processEvents.
  apply (fold_option_cacheKept cacheKept).
  - apply cacheKept_refl.
  - apply cacheKept_trans.
  - apply cacheKept_valid.
  - reflexivity.
  - intros nodeId s s'. apply processNodeEvents_cacheKept.
Qed.

Lemma cacheAndClockKept_valid (s1 s2 : SimT) :
  cacheAndClockKept s1 s2 -> cachedTime_ s1 = time_ s1 + 1 ->
  cachedTime_ s2 = time_ s2 + 1.
Proof. intros [K _]. apply cacheKept_valid, K. Qed.

Lemma travel_cacheAndClockKept fuel (st st' : SimT) :
  cachedTime_ st = time_ st + 1 ->
  travel g_parameters fuel st = Some st' -> cacheAndClockKept st st'.
Proof.
  unfold travel.
  apply (fold_option_cacheKept cacheAndClockKept).
  - apply cacheAndClockKept_refl.
  - apply cacheAndClockKept_trans.
  - apply cacheAndClockKept_valid.
  - reflexivity.
  - intros sink s s'. unfold travelSink.
    generalize (unvaccinatedProbabilities g_parameters s sink) as probs.
    intros probs.
    apply (fold_option_cacheKept cacheAndClockKept).
    + apply cacheAndClockKept_refl.
    + apply cacheAndClockKept_trans.
    + apply cacheAndClockKept_valid.
    + reflexivity.
    + intros [[a r] v] s1 s2 Hc. unfold travelStratum.
      destruct (_ >? 0).
      * destruct (gsl_ran_binomial _ _ _) as [k g].
        destruct (expose _ _ _ _ _ _) as [[k' s3] |] eqn:E; [| discriminate].
        intros H. inversion H; subst.
        apply expose_cacheAndClockKept in E; [| exact Hc].
        eapply cacheAndClockKept_trans; [| exact E]. repeat split.
      * intros H. inversion H; subst. apply cacheAndClockKept_refl.
Qed.

(** X13. A simulated day (lines 111-210) appends exactly one time step: the
    clock and the number of time steps grow by one, the topology is
    kept, and in a simulator whose newest time step is the current one
    no earlier time step is rewritten, so the next day can start from the
    result.  The population cache filled after the treatments stays
    valid to the end of the day: [expose] never has to precompute again,
    and the cached population of the [i]-th node is the population the
    variables hold at the new time step, for every stratum and in
    total. *)
Theorem simulate_appends_one_time_step (fuel : nat) (st st' : SimT) :
  simulate g_parameters fuel st = Some st' ->
  time_ st' = time_ st + 1
  /\ numTimes_ st' = numTimes_ st + 1
  /\ nodeIds_ st' = nodeIds_ st
  /\ nodeIdToIndex_ st' = nodeIdToIndex_ st
  /\ travel_ st' = travel_ st
  /\ (now_ st' == inject_Z (time_ st'))%Q
  /\ cachedTime_ st' = time_ st'
  /\ (forall i nodeId,
        nth_error (nodeIds_ st) i = Some nodeId ->
        populationNodes_ st' (Z.of_nat i)
        = nodeTotal (variables_ st') population (time_ st')
            (nodeIdToIndex_ st' nodeId)
        /\ forall a r v,
             inRange a r v = true ->
             populations_ st' (Z.of_nat i) a r v
             = variables_ st' population (time_ st')
                 (nodeIdToIndex_ st' nodeId) a r v)
  /\ (numTimes_ st = time_ st + 1 ->
      forall x t n a r v,
        t <> time_ st + 1 ->
        variables_ st' x t n a r v = variables_ st x t n a r v).
Proof.
  intros H.
  destruct (simulate_inv g_parameters fuel st st' H)
    as (st6 & st8 & E6 & E8 & ->).
  destruct (simulate_tail g_parameters fuel st _ H) as (st8' & [F8 V8] & E').
  assert (Est : st8' = st8).
  { destruct st8, st8'. inversion E'. subst. f_equal. lia. }
  subst st8'. clear E'.
  destruct (applyTreatments_Day g_parameters (dayStart st)) as [F4 _].
  destruct (dayStart_frame st) as (D1 & D2 & D3 & D4).
  set (st4 := applyTreatments g_parameters (dayStart st)) in *.
  assert (T4 : time_ st4 = time_ st)
    by (destruct F4 as (-> & _); exact D1).
  assert (I4 : nodeIds_ st4 = nodeIds_ st)
    by (destruct F4 as (_ & _ & -> & _); exact D3).
  assert (X4 : nodeIdToIndex_ st4 = nodeIdToIndex_ st)
    by (destruct F4 as (_ & _ & _ & -> & _); exact D4).
  set (st5 := precompute (time_ st + 1) st4) in *.
  assert (C5 : cachedTime_ st5 = time_ st5 + 1).
  { subst st5. unfold precompute.
    destruct (precomputeNodes _ _ _ _ _ _). cbn [cachedTime_ time_ set_cache].
    rewrite T4. reflexivity. }
  pose proof (processEvents_cacheKept fuel st5 st6 C5 E6) as K6.
  pose proof (cacheKept_valid _ _ K6 C5) as C6.
  set (st7 := set_now (inject_Z (time_ st6) + 1)%Q st6) in *.
  pose proof (travel_cacheAndClockKept fuel st7 st8 C6 E8) as [K8 N8].
  assert (K58 : cacheKept st5 st8).
  { eapply cacheKept_trans; [exact K6 |].
    eapply cacheKept_trans; [| exact K8]. repeat split. }
  destruct K58 as (F58 & A58 & B58 & C58).
  destruct F8 as (G1 & G2 & G3 & G4 & G5 & G6).
  assert (T5 : time_ st5 = time_ st).
  { subst st5. unfold precompute. destruct (precomputeNodes _ _ _ _ _ _).
    exact T4. }
  assert (T8 : time_ st8 = time_ st) by (rewrite G1; exact T4).
  cbn [time_ numTimes_ nodeIds_ nodeIdToIndex_ travel_ now_ cachedTime_
       populationNodes_ populations_ variables_ set_time].
  rewrite T8.
  split; [reflexivity |].
  split; [rewrite G2; destruct F4 as (_ & -> & _); exact D2 |].
  split; [rewrite G3; exact I4 |].
  split; [rewrite G4; exact X4 |].
  split.
  { rewrite G6. destruct F4 as (_ & _ & _ & _ & _ & ->). reflexivity. }
  split.
  { rewrite N8. subst st7. cbn [now_ set_now].
    destruct K6 as ((-> & _) & _). rewrite T5.
    rewrite inject_Z_plus. reflexivity. }
  split; [rewrite A58, C5, T5; reflexivity |].
  split.
  - intros i nodeId Hi.
    rewrite <- I4 in Hi.
    destruct (precompute_entries (time_ st + 1) st4 i nodeId Hi)
      as (_ & Hn & Hc).
    fold st5 in Hn, Hc.
    assert (HP : forall n a r v,
               variables_ st8 population (time_ st + 1) n a r v
               = variables_ st4 population (time_ st + 1) n a r v).
    { intros n a r v.
      apply (noTreatment_VSteps g_parameters _ _ _ _ V8). simpl. tauto. }
    rewrite G4. split.
    + rewrite B58, Hn. unfold nodeTotal. apply sum3_ext.
      intros a r v _. symmetry. apply HP.
    + intros a r v Hr. rewrite C58, (Hc a r v Hr). symmetry. apply HP.
  - intros Hn x t n a r v Ht.
    destruct (simulate_steps g_parameters fuel st _ Hn H) as (HS & _).
    cbn [variables_ set_time] in HS.
    rewrite (VSteps_rows g_parameters _ _ _ _ _ HS x t n a r v Ht).
    rewrite dayStart_cell. apply Z.eqb_neq in Ht. rewrite Ht. reflexivity.
Qed.

End DayBookkeeping.

Lemma simulate_appends_one_time_step_witness :
  exists st',
    simulate Example.parameters 50 Example.state0 = Some st'
    /\ time_ st' = 1 /\ numTimes_ st' = 2 /\ cachedTime_ st' = 1.
Proof.
  destruct (simulate Example.parameters 50 Example.state0) as [st' |] eqn:E.
  - exists st'. split; [reflexivity |].
    destruct (simulate_appends_one_time_step Example.parameters 50
                Example.state0 st' E)
      as (H1 & H2 & _ & _ & _ & _ & H7 & _).
    rewrite H7, H1, H2. repeat split.
  - pose proof example_finishes as F. unfold Example.finishes in F.
    rewrite E in F. discriminate F.
Defined.
